(** * Gut: the Monte Carlo decision heuristic of [first_gut.py] and
    [simple_game_gut.py]

    Both files define the same [simulate_decision] (the engine) and apply the
    same three-branch rule to its four results.  The engine is embedded as a
    function in a small state-and-error monad: the state is the process-wide
    generator of [numpy.random], the errors are the [ValueError]s that
    [numpy.random.seed] and [numpy.random.normal] raise.  The interactive
    loops around the engine (the module body of [first_gut.py], and
    [play_game]) are embedded as sessions over the lines of standard input.

    Numbers.  The program is embedded twice.  In the first embedding Python's
    [float] is an exact rational ([Q]): it carries the structure of the code
    (masks, clamps, the early [break], the seed, the order of the draws) and
    the real-valued statements, which hold of the program up to rounding as
    long as no intermediate overflows; theorems on it whose conclusion could
    turn on an overflow say in their hypotheses which magnitudes they cover.
    In the second embedding, [Binary64], a [float] is a binary64 number of
    IEEE 754 (Rocq's primitive floats, with rounding, infinities and NaN):
    it carries the decision rule, whose margins of 0.01 are decided by
    rounded differences, and the behaviour of the engine on overflow.
    Python's [int] is [Z].  A numpy array of floats is a list, an array of
    booleans a [list bool], and the [scenarios x horizon] noise matrix a list
    of rows. *)

From Stdlib Require Import Floats.
From Stdlib Require Import QArith Qpower ZArith List Ascii String Bool Lia Lqa
  DecimalString.
Import ListNotations.

Local Open Scope Q_scope.

(** A decimal literal of a binary64 number denotes the nearest one, as in
    Python. *)
Set Warnings "-inexact-float".

(** ** What the program takes from its libraries *)

(** The generator of [numpy.random], the hash of [hashlib] and the text of a
    float in an f-string are library code; the engine is written against this
    interface. *)
Class Runtime : Type := {
  (** the state of the global Mersenne Twister of [numpy.random] *)
  rng_state : Type;
  (** the state [np.random.seed(seed)] installs, for [0 <= seed < 2**32] *)
  rng_of_seed : Z -> rng_state;
  (** one standard normal draw of the legacy generator *)
  legacy_gauss : rng_state -> Q * rng_state;
  (** [int(hashlib.sha256(s.encode()).hexdigest(), 16)] *)
  sha256_int : string -> Z;
  (** the text an f-string gives for a float, [format(x, '')] *)
  float_str : Q -> string
}.

(** ** The monad of the engine: generator state and exceptions *)

Inductive exn : Type :=
| ValueError.

Definition NP `{Runtime} (A : Type) : Type := rng_state -> (exn + A) * rng_state.

Definition ret `{Runtime} {A : Type} (a : A) : NP A :=
  fun s => (inr a, s).

Definition bind `{Runtime} {A B : Type} (c : NP A) (k : A -> NP B) : NP B :=
  fun s => match c s with
           | (inl e, s') => (inl e, s')
           | (inr a, s') => k a s'
           end.

Definition raise `{Runtime} {A : Type} (e : exn) : NP A :=
  fun s => (inl e, s).

Notation "x <- c ;; k" := (bind c (fun x => k))
  (at level 61, c at next level, right associativity).

Fixpoint replicateM `{Runtime} {A : Type} (n : nat) (c : NP A) : NP (list A) :=
  match n with
  | O => ret []
  | S n' => x <- c ;; xs <- replicateM n' c ;; ret (x :: xs)
  end.

(** ** Float comparisons and Python builtins *)

Definition Qlt_bool (x y : Q) : bool := negb (Qle_bool y x).

(** [max(a, b)]: the first argument unless the second is strictly larger. *)
Definition py_max (a b : Q) : Q := if Qlt_bool a b then b else a.

(** [str(n)] for an [int]. *)
Definition int_str (n : Z) : string := NilZero.string_of_int (Z.to_int n).

(** [range(n)]; empty for [n <= 0]. *)
Definition range (n : Z) : list nat := seq 0 (Z.to_nat n).

(** ** numpy *)

(** [np.random.seed(seed)]: a seed outside [0, 2**32 - 1] is a [ValueError]. *)
Definition np_random_seed `{Runtime} (seed : Z) : NP unit :=
  fun s => if ((0 <=? seed) && (seed <? 2 ^ 32))%Z
           then (inr tt, rng_of_seed seed)
           else (inl ValueError, s).

(** One entry of [np.random.normal]: [loc + scale * gauss]. *)
Definition normal_draw `{Runtime} (loc scale : Q) : NP Q :=
  fun s => let (g, s') := legacy_gauss s in (inr (loc + scale * g), s').

(** [np.random.normal(loc, scale, size=(n, h))]: a negative [scale] is a
    [ValueError] ("scale < 0"), so is a negative dimension; otherwise the
    matrix is filled in row-major order, one draw per entry. *)
Definition np_random_normal `{Runtime} (loc scale : Q) (size : Z * Z)
  : NP (list (list Q)) :=
  if Qlt_bool scale 0 then raise ValueError
  else if ((fst size <? 0) || (snd size <? 0))%Z then raise ValueError
  else replicateM (Z.to_nat (fst size))
         (replicateM (Z.to_nat (snd size)) (normal_draw loc scale)).

(** [np.full(n, x)] and [np.ones(n, dtype=bool)]. *)
Definition np_full (n : Z) (x : Q) : list Q := repeat x (Z.to_nat n).
Definition np_ones_bool (n : Z) : list bool := repeat true (Z.to_nat n).

(** [np.any(m)]. *)
Definition np_any (m : list bool) : bool := existsb (fun b => b) m.

(** [a[mask]]: the entries of [a] where [mask] is true, in order. *)
Fixpoint mask_get {A : Type} (mask : list bool) (a : list A) : list A :=
  match mask, a with
  | b :: mask', x :: a' =>
      if b then x :: mask_get mask' a' else mask_get mask' a'
  | _, _ => []
  end.

(** [a[mask] = vals]: the entries of [a] where [mask] is true are replaced,
    in order, by the entries of [vals]. *)
Fixpoint mask_set {A : Type} (mask : list bool) (a vals : list A) : list A :=
  match mask, a with
  | b :: mask', x :: a' =>
      if b then
        match vals with
        | v :: vals' => v :: mask_set mask' a' vals'
        | [] => x :: mask_set mask' a' []
        end
      else x :: mask_set mask' a' vals
  | _, _ => a
  end.

(** [a[mask] = v] for a scalar [v]. *)
Fixpoint mask_fill {A : Type} (mask : list bool) (a : list A) (v : A) : list A :=
  match mask, a with
  | b :: mask', x :: a' => (if b then v else x) :: mask_fill mask' a' v
  | _, _ => a
  end.

(** Elementwise binary operation of two arrays of one shape. *)
Fixpoint map2 {A B C : Type} (f : A -> B -> C) (l : list A) (l' : list B)
  : list C :=
  match l, l' with
  | x :: t, y :: t' => f x y :: map2 f t t'
  | _, _ => []
  end.

(** [m[:, t]], column [t] of a matrix. *)
Definition column (t : nat) (m : list (list Q)) : list Q :=
  map (fun row => nth t row 0) m.

Definition np_sum (l : list Q) : Q := fold_right Qplus 0 l.

(** [np.mean(a)] of a float array. *)
Definition np_mean (l : list Q) : Q :=
  np_sum l / inject_Z (Z.of_nat (List.length l)).

(** [np.mean(m)] of a boolean array: true counts 1, false 0. *)
Definition np_mean_bool (m : list bool) : Q :=
  np_mean (map (fun b : bool => if b then 1 else 0) m).

(** ** The engine *)

Section RunScenarios.

(** The variables [run_scenarios] closes over. *)
Variables (initial_energy cost base_decay effective_decay rand_std : Q).
Variable random_matrix : list (list Q).
Variables (scenarios horizon : Z).

(** The state of one run: the energies [E] and the flags [alive]. *)
Definition run_state : Type := (list Q * list bool)%type.

(** Lines 31-43: the arrays after the upfront effect of the decision, and
    the decay rate of the run. *)
Definition init_state (decision : bool) : run_state :=
  let E := np_full scenarios initial_energy in
  let alive := np_ones_bool scenarios in
  if decision then
    let E := map (fun e => e - cost) E in
    let dead_now := map (fun e => Qle_bool e 0) E in
    if np_any dead_now
    then (mask_fill dead_now E 0, mask_fill dead_now alive false)
    else (E, alive)
  else (E, alive).

Definition decay_rate_of (decision : bool) : Q :=
  if decision then effective_decay else base_decay.

(** Line 50: [E[alive] *= (1 - decay_rate)]. *)
Definition decay_step (decay_rate : Q) (st : run_state) : list Q :=
  let '(E, alive) := st in
  mask_set alive E (map (fun e => e * (1 - decay_rate)) (mask_get alive E)).

(** Lines 52-53: [if rand_std > 0: E[alive] += random_matrix[alive, t]]. *)
Definition noise_step (t : nat) (st : run_state) : list Q :=
  let '(E, alive) := st in
  if Qlt_bool 0 rand_std
  then mask_set alive E
         (map2 Qplus (mask_get alive E)
                     (mask_get alive (column t random_matrix)))
  else E.

(** Lines 55-58: the scenarios that died in this step. *)
Definition death_step (st : run_state) : run_state :=
  let '(E, alive) := st in
  let newly_dead := map2 andb (map (fun e => Qle_bool e 0) E) alive in
  if np_any newly_dead
  then (mask_fill newly_dead E 0, mask_fill newly_dead alive false)
  else (E, alive).

(** The body of the loop for one [t], after the [break] test. *)
Definition step (decay_rate : Q) (t : nat) (st : run_state) : run_state :=
  let alive := snd st in
  let E := decay_step decay_rate st in
  let E := noise_step t (E, alive) in
  death_step (E, alive).

(** [for t in ts: if not np.any(alive): break; ...]. *)
Fixpoint loop (decay_rate : Q) (ts : list nat) (st : run_state) : run_state :=
  match ts with
  | [] => st
  | t :: ts' =>
      if negb (np_any (snd st)) then st
      else loop decay_rate ts' (step decay_rate t st)
  end.

(** The arrays when the loop of a run ends. *)
Definition final_state (decision : bool) : run_state :=
  loop (decay_rate_of decision) (range horizon) (init_state decision).

Definition run_scenarios (decision : bool) : Q * Q :=
  let '(E, _) := final_state decision in
  let survival_rate := np_mean_bool (map (fun e => Qlt_bool 0 e) E) in
  let avg_final_energy := np_mean E in
  (survival_rate, avg_final_energy).

(** The arrays after [k] passes of the loop (a pass that meets the [break]
    leaves them as they are). *)
Definition state_at (decision : bool) (k : nat) : run_state :=
  loop (decay_rate_of decision) (seq 0 k) (init_state decision).

End RunScenarios.

Section Engine.

Context `{RT : Runtime}.

(** Line 23: the key of the seed. *)
Definition seed_key (initial_energy cost_frac benefit_frac risk_frac : Q)
                    (horizon : Z) : string :=
  (float_str initial_energy ++ "-" ++ float_str cost_frac ++ "-" ++
   float_str benefit_frac ++ "-" ++ float_str risk_frac ++ "-" ++
   int_str horizon)%string.

Definition seed_of (initial_energy cost_frac benefit_frac risk_frac : Q)
                   (horizon : Z) : Z :=
  (sha256_int
     (seed_key initial_energy cost_frac benefit_frac risk_frac horizon)
   mod 2 ^ 32)%Z.

Definition simulate_decision
           (initial_energy cost_frac benefit_frac risk_frac : Q)
           (horizon scenarios : Z) : NP (Q * Q * Q * Q) :=
  let cost := initial_energy * cost_frac in
  let base_decay := 0.05 in
  let effective_decay := py_max 0 (base_decay * (1 - benefit_frac)) in
  let rand_std := 0.1 * initial_energy * risk_frac in
  let rand_mean := 0 in
  let seed :=
    seed_of initial_energy cost_frac benefit_frac risk_frac horizon in
  _ <- np_random_seed seed ;;
  random_matrix <-
    np_random_normal rand_mean rand_std (scenarios, horizon) ;;
  let run := run_scenarios initial_energy cost base_decay effective_decay
                           rand_std random_matrix scenarios horizon in
  let '(surv_yes, avg_yes) := run true in
  let '(surv_no, avg_no) := run false in
  ret (surv_yes, surv_no, avg_yes, avg_no).

(** The call with the default [scenarios=1000]. *)
Definition simulate_decision_default
           (initial_energy cost_frac benefit_frac risk_frac : Q)
           (horizon : Z) : NP (Q * Q * Q * Q) :=
  simulate_decision initial_energy cost_frac benefit_frac risk_frac
                    horizon 1000.

End Engine.

(** The parts of one call of [simulate_decision], named. *)
Section EngineParts.

Context `{RT : Runtime}.

Variables (initial_energy cost_frac benefit_frac risk_frac : Q).
Variables (horizon scenarios : Z).

(** Line 27, run from the state that line 25 installs: the matrix of the
    call (or the error), and the generator after it. *)
Definition drawn_matrix : (exn + list (list Q)) * rng_state :=
  np_random_normal 0 (0.1 * initial_energy * risk_frac) (scenarios, horizon)
    (rng_of_seed
       (seed_of initial_energy cost_frac benefit_frac risk_frac horizon)).

(** [run_scenarios] of the call, for a given [random_matrix]. *)
Definition run_with (random_matrix : list (list Q)) (decision : bool)
  : Q * Q :=
  run_scenarios initial_energy (initial_energy * cost_frac) 0.05
                (py_max 0 (0.05 * (1 - benefit_frac)))
                (0.1 * initial_energy * risk_frac)
                random_matrix scenarios horizon decision.

(** Lines 66-69: both runs on one matrix, and the returned tuple. *)
Definition results_of (random_matrix : list (list Q)) : Q * Q * Q * Q :=
  (fst (run_with random_matrix true), fst (run_with random_matrix false),
   snd (run_with random_matrix true), snd (run_with random_matrix false)).

(** The arrays of a run of the call after [k] passes of its loop. *)
Definition arrays_at (random_matrix : list (list Q)) (decision : bool)
                     (k : nat) : run_state :=
  state_at initial_energy (initial_energy * cost_frac) 0.05
           (py_max 0 (0.05 * (1 - benefit_frac)))
           (0.1 * initial_energy * risk_frac)
           random_matrix scenarios decision k.

(** The arrays of a run of the call before its loop, and when it ends. *)
Definition start_arrays (decision : bool) : run_state :=
  init_state initial_energy (initial_energy * cost_frac) scenarios decision.

Definition final_arrays (random_matrix : list (list Q)) (decision : bool)
  : run_state :=
  final_state initial_energy (initial_energy * cost_frac) 0.05
              (py_max 0 (0.05 * (1 - benefit_frac)))
              (0.1 * initial_energy * risk_frac)
              random_matrix scenarios horizon decision.

(** The decay rate of a run of the call. *)
Definition rate_of (decision : bool) : Q :=
  decay_rate_of 0.05 (py_max 0 (0.05 * (1 - benefit_frac))) decision.

End EngineParts.

(** The generator after [k] draws. *)
Definition rng_after `{Runtime} (k : nat) (s : rng_state) : rng_state :=
  Nat.iter k (fun s => snd (legacy_gauss s)) s.

(** The four results, in the order of the returned tuple. *)
Definition survival_yes (r : Q * Q * Q * Q) : Q := fst (fst (fst r)).
Definition survival_no (r : Q * Q * Q * Q) : Q := snd (fst (fst r)).
Definition avg_yes (r : Q * Q * Q * Q) : Q := snd (fst r).
Definition avg_no (r : Q * Q * Q * Q) : Q := snd r.

(** ** The decision rule of the callers *)

(** [first_gut.py], lines 95-103, on exact numbers ([Binary64.decision]
    below is the rule on the floats of the program). *)
Definition decision (surv_yes surv_no avg_yes avg_no : Q) : string :=
  if Qlt_bool 0.01 (surv_yes - surv_no) then "YES"
  else if Qlt_bool 0.01 (surv_no - surv_yes) then "NO"
  else if Qle_bool avg_no avg_yes then "YES" else "NO".

(** [simple_game_gut.py], [play_game], lines 105-111. *)
Definition play_game_decision (surv_yes surv_no avg_yes avg_no : Q) : string :=
  if Qlt_bool 0.01 (surv_yes - surv_no) then "YES"
  else if Qlt_bool 0.01 (surv_no - surv_yes) then "NO"
  else if Qle_bool avg_no avg_yes then "YES" else "NO".

(** ** One trajectory at a time

    The arrays of a run hold independent trajectories: the vectorised updates
    of [run_scenarios] act on scenario [i] as the functions below act on the
    pair [(E[i], alive[i])] and on row [i] of the noise matrix. *)

(** One pass of the loop for one trajectory; [x] is the noise entry of the
    step. *)
Definition traj_step (decay_rate rand_std x : Q) (ea : Q * bool) : Q * bool :=
  let '(e, a) := ea in
  if a then
    let e := e * (1 - decay_rate) in
    let e := if Qlt_bool 0 rand_std then e + x else e in
    if Qle_bool e 0 then (0, false) else (e, true)
  else (e, false).

(** The trajectory before the loop. *)
Definition traj_init (initial_energy cost : Q) (decision : bool) : Q * bool :=
  if decision then
    let e := initial_energy - cost in
    if Qle_bool e 0 then (0, false) else (e, true)
  else (initial_energy, true).

(** The passes [ts] of the loop for the trajectory with noise [row]. *)
Definition traj_run (decay_rate rand_std : Q) (row : list Q) (ts : list nat)
                    (ea : Q * bool) : Q * bool :=
  fold_left (fun ea t => traj_step decay_rate rand_std (nth t row 0) ea) ts ea.

(** [f] applied to every trajectory of a run state, with its row. *)
Definition lift (f : list Q -> Q * bool -> Q * bool) (m : list (list Q))
                (st : run_state) : run_state :=
  let zs := map2 f m (combine (fst st) (snd st)) in
  (map fst zs, map snd zs).

(** A matrix of [n] rows of [h] entries. *)
Definition has_shape (n h : nat) (m : list (list Q)) : Prop :=
  List.length m = n /\ Forall (fun row => List.length row = h) m.

(** The last pair of one trajectory of a run. *)
Definition traj_final (initial_energy cost base_decay effective_decay
                       rand_std : Q) (horizon : Z) (decision : bool)
                      (row : list Q) : Q * bool :=
  traj_run (decay_rate_of base_decay effective_decay decision) rand_std row
           (range horizon) (traj_init initial_energy cost decision).

(** A live trajectory has positive energy, a dead one has energy 0. *)
Definition traj_ok (ea : Q * bool) : Prop :=
  if snd ea then 0 < fst ea else fst ea = 0.

(** The half of [traj_ok] that needs no assumption on the inputs: a dead
    trajectory has energy 0. *)
Definition dead_zero (ea : Q * bool) : Prop := snd ea = false -> fst ea = 0.

(** ** A small runtime to evaluate the engine on concrete inputs

    The generator state is an integer, the seed itself; a draw is [-1] from an
    even state and [1] from an odd one, and moves the state by two.  The hash
    of a key is its length, and a float is printed as the fraction in lowest
    terms. *)
Module Toy.

Definition gauss (s : Z) : Q * Z :=
  (if Z.even s then -1 else 1, (s + 2)%Z).

Definition frac_str (x : Q) : string :=
  let r := Qred x in
  (int_str (Qnum r) ++ "/" ++ int_str (Zpos (Qden r)))%string.

Definition hash (s : string) : Z := Z.of_nat (String.length s).

Definition runtime : Runtime :=
  {| rng_state := Z;
     rng_of_seed := fun seed => seed;
     legacy_gauss := gauss;
     sha256_int := hash;
     float_str := frac_str |}.

End Toy.

(** ** The interactive shells

    [first_gut.py] runs its loop at module level (lines 71-106);
    [simple_game_gut.py] has the same loop in [play_game], with more text.
    A session is modelled on a world that holds the lines still to be read
    from standard input, the events written so far, and the generator of
    [numpy.random].  The text builtins are library code. *)

Class Builtins : Type := {
  (** [s.strip()] *)
  str_strip : string -> string;
  (** [s.lower()] *)
  str_lower : string -> string;
  (** [float(s)]; [None] stands for its [ValueError] *)
  py_float : string -> option Q;
  (** [int(s)]; [None] stands for its [ValueError] *)
  py_int : string -> option Z;
  (** [format(x, '.2f')] *)
  format_2f : Q -> string
}.

(** What a session writes or does, in order: [print(s)], the prompt of
    [input(s)], and [time.sleep(seconds)]. *)
Inductive event : Type :=
| Printed (s : string)
| Prompted (s : string)
| Slept (seconds : Z).

(** The exceptions a shell can meet: [EOFError] of [input], and the errors
    of the engine. *)
Inductive shell_exn : Type :=
| EOFError
| EngineError (e : exn).

(** How a pass of [while True] ends. *)
Inductive loop_exit : Type :=
| Continue
| Break.

(** How a session ends: its loop breaks, an exception is not caught, or the
    model runs out of fuel. *)
Inductive ending : Type :=
| Finished
| Uncaught (e : shell_exn)
| OutOfFuel.

(** The character of [\n] and of a double quote. *)
Definition nl : string := String (Ascii.ascii_of_nat 10) EmptyString.
Definition dq : string := String (Ascii.ascii_of_nat 34) EmptyString.

Section Shell.

Context `{RT : Runtime} `{BI : Builtins}.

Record world : Type := {
  stdin : list string;
  stdout : list event;
  rng : rng_state
}.

Definition SH (A : Type) : Type := world -> (shell_exn + A) * world.

Definition sh_ret {A : Type} (a : A) : SH A :=
  fun w => (inr a, w).

Definition sh_bind {A B : Type} (c : SH A) (k : A -> SH B) : SH B :=
  fun w => match c w with
           | (inl e, w') => (inl e, w')
           | (inr a, w') => k a w'
           end.

Notation "x <~ c ;; k" := (sh_bind c (fun x => k))
  (at level 61, c at next level, right associativity).

Definition emit (e : event) (w : world) : world :=
  {| stdin := stdin w; stdout := stdout w ++ [e]; rng := rng w |}.

(** [print(s)]. *)
Definition print (s : string) : SH unit :=
  fun w => (inr tt, emit (Printed s) w).

(** [time.sleep(seconds)]. *)
Definition sleep (seconds : Z) : SH unit :=
  fun w => (inr tt, emit (Slept seconds) w).

(** [input(prompt)]: writes the prompt, then reads a line; [EOFError] when
    no line is left. *)
Definition input (prompt : string) : SH string :=
  fun w =>
    let w' := emit (Prompted prompt) w in
    match stdin w' with
    | [] => (inl EOFError, w')
    | line :: rest =>
        (inr line, {| stdin := rest; stdout := stdout w'; rng := rng w' |})
    end.

(** A call of the engine, on the generator of the world. *)
Definition call_engine {A : Type} (c : NP A) : SH A :=
  fun w =>
    match c (rng w) with
    | (inl e, s) =>
        (inl (EngineError e),
         {| stdin := stdin w; stdout := stdout w; rng := s |})
    | (inr a, s) =>
        (inr a, {| stdin := stdin w; stdout := stdout w; rng := s |})
    end.

(** [query.strip().lower() in {"quit", "exit"}]. *)
Definition is_exit_command (query : string) : bool :=
  let t := str_lower (str_strip query) in
  ((t =? "quit") || (t =? "exit"))%string.

(** The [try] block of both shells: four prompts, each answer converted at
    once; the first [ValueError] of a conversion leaves the block ([None]),
    and the prompts after it are not shown. *)
Definition read_parameters (p1 p2 p3 p4 : string)
  : SH (option (Q * Q * Q * Z)) :=
  a1 <~ input p1 ;;
  match py_float a1 with
  | None => sh_ret None
  | Some cost_frac =>
      a2 <~ input p2 ;;
      match py_float a2 with
      | None => sh_ret None
      | Some benefit_frac =>
          a3 <~ input p3 ;;
          match py_float a3 with
          | None => sh_ret None
          | Some risk_frac =>
              a4 <~ input p4 ;;
              match py_int a4 with
              | None => sh_ret None
              | Some horizon =>
                  sh_ret (Some (cost_frac, benefit_frac, risk_frac, horizon))
              end
          end
      end
  end.

(** [while True: ...], with fuel for the passes. *)
Fixpoint while_true (pass : SH loop_exit) (fuel : nat) (w : world)
  : ending * world :=
  match fuel with
  | O => (OutOfFuel, w)
  | S fuel' =>
      match pass w with
      | (inl e, w') => (Uncaught e, w')
      | (inr Break, w') => (Finished, w')
      | (inr Continue, w') => while_true pass fuel' w'
      end
  end.

(** *** [first_gut.py], lines 71-106 *)

Definition gut_welcome : string :=
  "Welcome to the Computational Gut Decision System. Ask a yes/no question and provide context.".

Definition gut_ask_query : string :=
  (nl ++ "Enter your decision question (or type 'quit' to exit): ")%string.

Definition gut_ask_cost : string :=
  "On a scale of 0 to 1, how costly is the action in terms of resources? ".

Definition gut_ask_benefit : string :=
  "On a scale of 0 to 1, how much long-term benefit do you expect from the action? ".

Definition gut_ask_risk : string :=
  "On a scale of 0 to 1, how volatile/uncertain is the environment? ".

Definition gut_ask_horizon : string :=
  "How far into the future (in time steps) should the model consider (e.g., 50)? ".

Definition gut_invalid : string :=
  "Invalid input. Please enter numeric values for the parameters.".

(** One pass of the loop of lines 73-106. *)
Definition gut_pass : SH loop_exit :=
  query <~ input gut_ask_query ;;
  if is_exit_command query then
    _ <~ print "Goodbye!" ;;
    sh_ret Break
  else
    parameters <~ read_parameters gut_ask_cost gut_ask_benefit gut_ask_risk
                                  gut_ask_horizon ;;
    match parameters with
    | None =>
        _ <~ print gut_invalid ;;
        sh_ret Continue
    | Some (cost_frac, benefit_frac, risk_frac, horizon) =>
        let initial_energy := 100 in
        r <~ call_engine
               (simulate_decision_default initial_energy cost_frac
                                          benefit_frac risk_frac horizon) ;;
        let '(surv_yes, surv_no, avg_yes, avg_no) := r in
        _ <~ print ("Gut Decision: "
                    ++ decision surv_yes surv_no avg_yes avg_no) ;;
        sh_ret Continue
    end.

(** The module body from line 72 on. *)
Definition gut_main (fuel : nat) (w : world) : ending * world :=
  while_true gut_pass fuel (emit (Printed gut_welcome) w).

(** *** [simple_game_gut.py], [play_game] *)

Definition oracle_ask_query : string :=
  (nl ++ "Enter your pressing question for the Oracle (or type 'quit' to exit): ")%string.

Definition oracle_ask_cost : string :=
  "1) The resource cost of your proposed action (0 to 1)? ".

Definition oracle_ask_benefit : string :=
  "2) The long-term benefit you believe it might bring (0 to 1)? ".

Definition oracle_ask_risk : string :=
  "3) The volatility or uncertainty of your world (0 to 1)? ".

Definition oracle_ask_horizon : string :=
  "4) How many steps into the future shall the Oracle foresee (e.g. 50)? ".

Definition oracle_invalid : string :=
  (nl ++ "The Oracle frowns. Your answers must be numeric. Please try again.")%string.

(** ["-" * 50]. *)
Definition oracle_rule : string :=
  "--------------------------------------------------".

(** One pass of the loop of lines 74-128. *)
Definition oracle_pass : SH loop_exit :=
  query <~ input oracle_ask_query ;;
  if is_exit_command query then
    _ <~ print (nl ++ "The Oracle nods silently. You step away, feeling the weight of unanswered riddles.") ;;
    _ <~ print ("Farewell, brave traveler!" ++ nl) ;;
    sh_ret Break
  else
    _ <~ print (nl ++ "The Oracle tilts their head, intrigued by your question: "
                ++ dq ++ query ++ dq) ;;
    _ <~ print ("To peer deeper into the possible futures, you must provide certain parameters..." ++ nl) ;;
    parameters <~ read_parameters oracle_ask_cost oracle_ask_benefit
                                  oracle_ask_risk oracle_ask_horizon ;;
    match parameters with
    | None =>
        _ <~ print oracle_invalid ;;
        sh_ret Continue
    | Some (cost_frac, benefit_frac, risk_frac, horizon) =>
        _ <~ print (nl ++ "Peering through the swirling mists of time...") ;;
        _ <~ sleep 2 ;;
        let initial_energy := 100 in
        r <~ call_engine
               (simulate_decision_default initial_energy cost_frac
                                          benefit_frac risk_frac horizon) ;;
        let '(surv_yes, surv_no, avg_yes, avg_no) := r in
        let verdict := play_game_decision surv_yes surv_no avg_yes avg_no in
        _ <~ print ("The Oracle’s crystal reveals the following glimpses of the future:" ++ nl) ;;
        _ <~ print ("  Survival rate if you proceed (YES): "
                    ++ format_2f (surv_yes * 100) ++ "%") ;;
        _ <~ print ("  Average ending energy if you proceed (YES): "
                    ++ format_2f avg_yes) ;;
        _ <~ print ("  Survival rate if you decline (NO):  "
                    ++ format_2f (surv_no * 100) ++ "%") ;;
        _ <~ print ("  Average ending energy if you decline (NO):  "
                    ++ format_2f avg_no) ;;
        _ <~ sleep 2 ;;
        _ <~ print (nl ++ "*** The Oracle's Divine Pronouncement ***") ;;
        _ <~ print ("The ritual indicates you should choose: "
                    ++ verdict ++ nl) ;;
        _ <~ sleep 1 ;;
        _ <~ print ("You feel the weight of possibility. The path is now clearer..." ++ nl) ;;
        _ <~ print oracle_rule ;;
        sh_ret Continue
    end.

(** The text before the loop, lines 63-72. *)
Definition oracle_intro : SH unit :=
  _ <~ print "Welcome, traveler, to the Land of Algoria!" ;;
  _ <~ print ("Here, every important choice could impact your survival and resources." ++ nl) ;;
  _ <~ sleep 1 ;;
  _ <~ print "You stand at the gates of an ancient city. A mysterious Oracle stands before you," ;;
  _ <~ print ("offering guidance on a pressing yes/no question of your choice." ++ nl) ;;
  _ <~ sleep 2 ;;
  print ("You begin the Oracle’s ritual..." ++ nl).

Definition play_game (fuel : nat) (w : world) : ending * world :=
  match oracle_intro w with
  | (inl e, w') => (Uncaught e, w')
  | (inr _, w') => while_true oracle_pass fuel w'
  end.

(** A session on the lines [lines]: one pass more than there are lines is
    enough fuel. *)
Definition session (main : nat -> world -> ending * world)
                   (lines : list string) (s : rng_state) : ending * world :=
  main (S (List.length lines)) {| stdin := lines; stdout := []; rng := s |}.

End Shell.

(** ** The shells, read off the input lines

    What the [try] block finds at the head of the lines: how it ends (the
    [EOFError] of [input], [None] for a caught [ValueError], or the four
    parameters), how many of its prompts it shows, and the lines it leaves. *)
Definition parameters_reading `{BI : Builtins} (lines : list string)
  : (shell_exn + option (Q * Q * Q * Z)) * nat * list string :=
  match lines with
  | [] => (inl EOFError, 1%nat, [])
  | a1 :: l1 =>
      match py_float a1 with
      | None => (inr None, 1%nat, l1)
      | Some cost_frac =>
          match l1 with
          | [] => (inl EOFError, 2%nat, [])
          | a2 :: l2 =>
              match py_float a2 with
              | None => (inr None, 2%nat, l2)
              | Some benefit_frac =>
                  match l2 with
                  | [] => (inl EOFError, 3%nat, [])
                  | a3 :: l3 =>
                      match py_float a3 with
                      | None => (inr None, 3%nat, l3)
                      | Some risk_frac =>
                          match l3 with
                          | [] => (inl EOFError, 4%nat, [])
                          | a4 :: l4 =>
                              (inr (option_map
                                      (fun horizon =>
                                         (cost_frac, benefit_frac, risk_frac,
                                          horizon))
                                      (py_int a4)),
                               4%nat, l4)
                          end
                      end
                  end
              end
          end
      end
  end.

(** What [play_game] writes when it leaves, when it takes a question, and
    when it reports the results [q] of the engine. *)
Definition oracle_farewell : list event :=
  [Printed (nl ++ "The Oracle nods silently. You step away, feeling the weight of unanswered riddles.");
   Printed ("Farewell, brave traveler!" ++ nl)].

Definition oracle_opening (query : string) : list event :=
  [Printed (nl ++ "The Oracle tilts their head, intrigued by your question: "
            ++ dq ++ query ++ dq);
   Printed ("To peer deeper into the possible futures, you must provide certain parameters..." ++ nl)].

Definition oracle_peering : list event :=
  [Printed (nl ++ "Peering through the swirling mists of time...");
   Slept 2].

Definition oracle_report `{BI : Builtins} (q : Q * Q * Q * Q) : list event :=
  [Printed ("The Oracle’s crystal reveals the following glimpses of the future:" ++ nl);
   Printed ("  Survival rate if you proceed (YES): "
            ++ format_2f (survival_yes q * 100) ++ "%");
   Printed ("  Average ending energy if you proceed (YES): "
            ++ format_2f (avg_yes q));
   Printed ("  Survival rate if you decline (NO):  "
            ++ format_2f (survival_no q * 100) ++ "%");
   Printed ("  Average ending energy if you decline (NO):  "
            ++ format_2f (avg_no q));
   Slept 2;
   Printed (nl ++ "*** The Oracle's Divine Pronouncement ***");
   Printed ("The ritual indicates you should choose: "
            ++ play_game_decision (survival_yes q) (survival_no q)
                                  (avg_yes q) (avg_no q) ++ nl);
   Slept 1;
   Printed ("You feel the weight of possibility. The path is now clearer..." ++ nl);
   Printed "--------------------------------------------------"].

(** What [play_game] writes before its loop. *)
Definition oracle_prologue : list event :=
  [Printed "Welcome, traveler, to the Land of Algoria!";
   Printed ("Here, every important choice could impact your survival and resources." ++ nl);
   Slept 1;
   Printed "You stand at the gates of an ancient city. A mysterious Oracle stands before you,";
   Printed ("offering guidance on a pressing yes/no question of your choice." ++ nl);
   Slept 2;
   Printed ("You begin the Oracle’s ritual..." ++ nl)].

(** [s] without the leading text [lead], when it starts with it. *)
Fixpoint strip_prefix (lead s : string) : option string :=
  match lead with
  | EmptyString => Some s
  | String c lead' =>
      match s with
      | String c' s' => if Ascii.eqb c c' then strip_prefix lead' s' else None
      | EmptyString => None
      end
  end.

(** The recommendations a session printed, in order: what follows [lead] in
    the printed lines that start with it. *)
Definition verdicts (lead : string) (out : list event) : list string :=
  flat_map (fun e => match e with
                     | Printed s =>
                         match strip_prefix lead s with
                         | Some d => [d]
                         | None => []
                         end
                     | _ => []
                     end) out.

(** ** Small text builtins to evaluate the shells on concrete sessions

    Stripping removes spaces, lowering maps [A-Z] to [a-z], numbers are
    plain decimals with an optional minus sign, and a float is printed as a
    fraction. *)
Module ToyText.

Fixpoint strip_left (s : string) : string :=
  match s with
  | String " "%char t => strip_left t
  | _ => s
  end.

Fixpoint strip_right (s : string) : string :=
  match s with
  | EmptyString => EmptyString
  | String c t =>
      match c, strip_right t with
      | " "%char, EmptyString => EmptyString
      | _, t' => String c t'
      end
  end.

Definition lower_char (c : Ascii.ascii) : Ascii.ascii :=
  let n := Ascii.nat_of_ascii c in
  if ((65 <=? n) && (n <=? 90))%nat then Ascii.ascii_of_nat (n + 32) else c.

Fixpoint lower (s : string) : string :=
  match s with
  | EmptyString => EmptyString
  | String c t => String (lower_char c) (lower t)
  end.

Definition digit_of (c : Ascii.ascii) : option Z :=
  let n := Z.of_nat (Ascii.nat_of_ascii c) in
  if ((48 <=? n) && (n <=? 57))%Z then Some (n - 48)%Z else None.

Fixpoint digits (acc : Z) (s : string) : option Z :=
  match s with
  | EmptyString => Some acc
  | String c t =>
      match digit_of c with
      | Some d => digits (10 * acc + d) t
      | None => None
      end
  end.

Definition natural (s : string) : option Z :=
  match s with
  | EmptyString => None
  | _ => digits 0 s
  end.

Definition integer (s : string) : option Z :=
  match s with
  | String "-"%char t => option_map Z.opp (natural t)
  | _ => natural s
  end.

(** The text before the first dot, and the text after it if there is one. *)
Fixpoint split_dot (s : string) : string * option string :=
  match s with
  | EmptyString => (EmptyString, None)
  | String "."%char t => (EmptyString, Some t)
  | String c t => let (a, b) := split_dot t in (String c a, b)
  end.

Definition unsigned_decimal (s : string) : option Q :=
  match split_dot s with
  | (a, None) => option_map inject_Z (natural a)
  | (a, Some b) =>
      match natural a, natural b with
      | Some i, Some f =>
          Some (inject_Z i
                + inject_Z f / inject_Z (10 ^ Z.of_nat (String.length b)))
      | _, _ => None
      end
  end.

Definition decimal (s : string) : option Q :=
  match s with
  | String "-"%char t => option_map Qopp (unsigned_decimal t)
  | _ => unsigned_decimal s
  end.

Definition builtins : Builtins :=
  {| str_strip := fun s => strip_right (strip_left s);
     str_lower := lower;
     py_float := decimal;
     py_int := integer;
     format_2f := Toy.frac_str |}.

(** A world of the small runtime. *)
Definition world_of (lines : list string) (out : list event) (s : Z)
  : world (RT := Toy.runtime) :=
  @Build_world Toy.runtime lines out s.

End ToyText.

(** ** The program on binary64

    The same code with Python's [float] as the binary64 numbers of IEEE 754
    (Rocq's primitive floats): every operation rounds to nearest, ties to
    even, and overflows to an infinity; [inf - inf] and [inf * 0] are NaN, and
    every comparison with NaN is false. *)
Module Binary64.

Local Open Scope float_scope.

(** What the program takes from its libraries. *)
Class Runtime : Type := {
  (** the state of the global Mersenne Twister of [numpy.random] *)
  rng_state : Type;
  (** the state [np.random.seed(seed)] installs, for [0 <= seed < 2**32] *)
  rng_of_seed : Z -> rng_state;
  (** one standard normal draw of the legacy generator *)
  legacy_gauss : rng_state -> float * rng_state;
  (** [int(hashlib.sha256(s.encode()).hexdigest(), 16)] *)
  sha256_int : string -> Z;
  (** the text an f-string gives for a float, [format(x, '')] *)
  float_str : float -> string
}.

Definition NP `{Runtime} (A : Type) : Type := rng_state -> (exn + A) * rng_state.

Definition ret `{Runtime} {A : Type} (a : A) : NP A :=
  fun s => (inr a, s).

Definition bind `{Runtime} {A B : Type} (c : NP A) (k : A -> NP B) : NP B :=
  fun s => match c s with
           | (inl e, s') => (inl e, s')
           | (inr a, s') => k a s'
           end.

Definition raise `{Runtime} {A : Type} (e : exn) : NP A :=
  fun s => (inl e, s).

Local Notation "x <== c ;; k" := (bind c (fun x => k))
  (at level 61, c at next level, right associativity).

Fixpoint replicateM `{Runtime} {A : Type} (n : nat) (c : NP A) : NP (list A) :=
  match n with
  | O => ret []
  | S n' => x <== c ;; xs <== replicateM n' c ;; ret (x :: xs)
  end.

(** [max(a, b)]: the first argument unless the second is strictly larger (so
    [max(0.0, nan)] is [0.0]). *)
Definition py_max (a b : float) : float := if a <? b then b else a.

(** The float of an [int] (a length, a count). *)
Definition float_of_Z (n : Z) : float := of_uint63 (Uint63Axioms.of_Z n).

(** [np.random.seed(seed)]. *)
Definition np_random_seed `{Runtime} (seed : Z) : NP unit :=
  fun s => if ((0 <=? seed) && (seed <? 2 ^ 32))%Z
           then (inr tt, rng_of_seed seed)
           else (inl ValueError, s).

(** One entry of [np.random.normal]: [loc + scale * gauss]. *)
Definition normal_draw `{Runtime} (loc scale : float) : NP float :=
  fun s => let (g, s') := legacy_gauss s in (inr (loc + scale * g), s').

(** [np.random.normal(loc, scale, size=(n, h))]: [ValueError] for a negative
    scale or dimension; a scale that is NaN or infinite is accepted. *)
Definition np_random_normal `{Runtime} (loc scale : float) (size : Z * Z)
  : NP (list (list float)) :=
  if scale <? 0 then raise ValueError
  else if ((fst size <? 0) || (snd size <? 0))%Z then raise ValueError
  else replicateM (Z.to_nat (fst size))
         (replicateM (Z.to_nat (snd size)) (normal_draw loc scale)).

Definition np_full (n : Z) (x : float) : list float := repeat x (Z.to_nat n).

Definition column (t : nat) (m : list (list float)) : list float :=
  map (fun row => nth t row 0) m.

(** [np.sum(a)]: the entries added one after the other to [0.0] (numpy adds
    the entries of an array of eight or more in another order, which changes
    the rounding of the sum and nothing else). *)
Definition np_sum (l : list float) : float := fold_left add l 0.

(** [np.mean(a)]: the sum divided by the length. *)
Definition np_mean (l : list float) : float :=
  np_sum l / float_of_Z (Z.of_nat (List.length l)).

(** [np.mean(m)] of a boolean array: the count of [True], exact as a sum,
    divided by the length. *)
Definition np_mean_bool (m : list bool) : float :=
  np_mean (map (fun b : bool => if b then 1 else 0) m).

(** [run_scenarios], line by line as in the exact embedding. *)
Section RunScenarios.

Variables (initial_energy cost base_decay effective_decay rand_std : float).
Variable random_matrix : list (list float).
Variables (scenarios horizon : Z).

Definition run_state : Type := (list float * list bool)%type.

Definition init_state (decision : bool) : run_state :=
  let E := np_full scenarios initial_energy in
  let alive := np_ones_bool scenarios in
  if decision then
    let E := map (fun e => e - cost) E in
    let dead_now := map (fun e => e <=? 0) E in
    if np_any dead_now
    then (mask_fill dead_now E 0, mask_fill dead_now alive false)
    else (E, alive)
  else (E, alive).

Definition decay_rate_of (decision : bool) : float :=
  if decision then effective_decay else base_decay.

Definition decay_step (decay_rate : float) (st : run_state) : list float :=
  let '(E, alive) := st in
  mask_set alive E (map (fun e => e * (1 - decay_rate)) (mask_get alive E)).

Definition noise_step (t : nat) (st : run_state) : list float :=
  let '(E, alive) := st in
  if 0 <? rand_std
  then mask_set alive E
         (map2 add (mask_get alive E)
                   (mask_get alive (column t random_matrix)))
  else E.

Definition death_step (st : run_state) : run_state :=
  let '(E, alive) := st in
  let newly_dead := map2 andb (map (fun e => e <=? 0) E) alive in
  if np_any newly_dead
  then (mask_fill newly_dead E 0, mask_fill newly_dead alive false)
  else (E, alive).

Definition step (decay_rate : float) (t : nat) (st : run_state) : run_state :=
  let alive := snd st in
  let E := decay_step decay_rate st in
  let E := noise_step t (E, alive) in
  death_step (E, alive).

Fixpoint loop (decay_rate : float) (ts : list nat) (st : run_state)
  : run_state :=
  match ts with
  | [] => st
  | t :: ts' =>
      if negb (np_any (snd st)) then st
      else loop decay_rate ts' (step decay_rate t st)
  end.

Definition final_state (decision : bool) : run_state :=
  loop (decay_rate_of decision) (range horizon) (init_state decision).

Definition run_scenarios (decision : bool) : float * float :=
  let '(E, _) := final_state decision in
  let survival_rate := np_mean_bool (map (fun e => 0 <? e) E) in
  let avg_final_energy := np_mean E in
  (survival_rate, avg_final_energy).

(** The arrays after [k] passes of the loop (a pass that meets the [break]
    leaves them as they are). *)
Definition state_at (decision : bool) (k : nat) : run_state :=
  loop (decay_rate_of decision) (seq 0 k) (init_state decision).

End RunScenarios.

Section Engine.

Context `{RT : Runtime}.

Definition seed_key (initial_energy cost_frac benefit_frac risk_frac : float)
                    (horizon : Z) : string :=
  (float_str initial_energy ++ "-" ++ float_str cost_frac ++ "-" ++
   float_str benefit_frac ++ "-" ++ float_str risk_frac ++ "-" ++
   int_str horizon)%string.

Definition seed_of (initial_energy cost_frac benefit_frac risk_frac : float)
                   (horizon : Z) : Z :=
  (sha256_int
     (seed_key initial_energy cost_frac benefit_frac risk_frac horizon)
   mod 2 ^ 32)%Z.

Definition simulate_decision
           (initial_energy cost_frac benefit_frac risk_frac : float)
           (horizon scenarios : Z) : NP (float * float * float * float) :=
  let cost := initial_energy * cost_frac in
  let base_decay := 0.05 in
  let effective_decay := py_max 0 (base_decay * (1 - benefit_frac)) in
  let rand_std := 0.1 * initial_energy * risk_frac in
  let rand_mean := 0 in
  let seed :=
    seed_of initial_energy cost_frac benefit_frac risk_frac horizon in
  _ <== np_random_seed seed ;;
  random_matrix <==
    np_random_normal rand_mean rand_std (scenarios, horizon) ;;
  let run := run_scenarios initial_energy cost base_decay effective_decay
                           rand_std random_matrix scenarios horizon in
  let '(surv_yes, avg_yes) := run true in
  let '(surv_no, avg_no) := run false in
  ret (surv_yes, surv_no, avg_yes, avg_no).

End Engine.

(** The four results, in the order of the returned tuple. *)
Definition survival_yes (r : float * float * float * float) : float :=
  fst (fst (fst r)).
Definition survival_no (r : float * float * float * float) : float :=
  snd (fst (fst r)).
Definition avg_yes (r : float * float * float * float) : float := snd (fst r).
Definition avg_no (r : float * float * float * float) : float := snd r.

(** [first_gut.py], lines 95-103: [a > b] is [b <? a], [a >= b] is
    [b <=? a]. *)
Definition decision (surv_yes surv_no avg_yes avg_no : float) : string :=
  if 0.01 <? surv_yes - surv_no then "YES"
  else if 0.01 <? surv_no - surv_yes then "NO"
  else if avg_no <=? avg_yes then "YES" else "NO".

(** [simple_game_gut.py], [play_game], lines 105-111. *)
Definition play_game_decision (surv_yes surv_no avg_yes avg_no : float)
  : string :=
  if 0.01 <? surv_yes - surv_no then "YES"
  else if 0.01 <? surv_no - surv_yes then "NO"
  else if avg_no <=? avg_yes then "YES" else "NO".

(** A small runtime to evaluate the engine on concrete inputs: as [Toy]
    above, with every float printed as the same text. *)
Module Toy.

Definition gauss (s : Z) : float * Z :=
  (if Z.even s then -1 else 1, (s + 2)%Z).

Definition runtime : Runtime :=
  {| rng_state := Z;
     rng_of_seed := fun seed => seed;
     legacy_gauss := gauss;
     sha256_int := fun s => Z.of_nat (String.length s);
     float_str := fun _ => "x"%string |}.

End Toy.

(** *** One trajectory at a time, on binary64 *)

(** One pass of the loop for one trajectory; [x] is the noise entry of the
    step. *)
Definition traj_step (decay_rate rand_std x : float) (ea : float * bool)
  : float * bool :=
  let '(e, a) := ea in
  if a then
    let e := e * (1 - decay_rate) in
    let e := if 0 <? rand_std then e + x else e in
    if e <=? 0 then (0, false) else (e, true)
  else (e, false).

(** The trajectory before the loop. *)
Definition traj_init (initial_energy cost : float) (decision : bool)
  : float * bool :=
  if decision then
    let e := initial_energy - cost in
    if e <=? 0 then (0, false) else (e, true)
  else (initial_energy, true).

(** The passes [ts] of the loop for the trajectory with noise [row]. *)
Definition traj_run (decay_rate rand_std : float) (row : list float)
                    (ts : list nat) (ea : float * bool) : float * bool :=
  fold_left (fun ea t => traj_step decay_rate rand_std (nth t row 0) ea) ts ea.

(** [f] applied to every trajectory of a run state, with its row. *)
Definition lift (f : list float -> float * bool -> float * bool)
                (m : list (list float)) (st : run_state) : run_state :=
  let zs := map2 f m (combine (fst st) (snd st)) in
  (map fst zs, map snd zs).

(** A trajectory as the clamp leaves it: dead with the energy [+0.0], or
    alive with an energy that is not [<= 0] (positive, or NaN). *)
Definition clamped (ea : float * bool) : Prop :=
  if snd ea then (fst ea <=? 0) = false else fst ea = 0.

(** The numbers above a positive one: positive and finite, or [+inf]. *)
Definition SFpositive (z : spec_float) : bool :=
  match z with
  | S754_infinity false | S754_finite false _ _ => true
  | _ => false
  end.

End Binary64.

(** * Properties *)

(** ** Comparisons *)

Lemma Qlt_bool_true (x y : Q) : Qlt_bool x y = true <-> x < y.
Proof.
  unfold Qlt_bool. rewrite negb_true_iff.
  split; intro Hxy.
  - apply Qnot_le_lt. intro Hle. apply Qle_bool_iff in Hle. congruence.
  - destruct (Qle_bool y x) eqn:Hb; [| reflexivity].
    apply Qle_bool_iff in Hb. lra.
Qed.

Lemma Qlt_bool_false (x y : Q) : Qlt_bool x y = false <-> y <= x.
Proof.
  unfold Qlt_bool. rewrite negb_false_iff. apply Qle_bool_iff.
Qed.

Lemma Qle_bool_false (x y : Q) : Qle_bool x y = false <-> y < x.
Proof.
  rewrite <- Qlt_bool_true. unfold Qlt_bool.
  destruct (Qle_bool x y); simpl; intuition congruence.
Qed.

Ltac qbool :=
  repeat match goal with
    | H : Qle_bool _ _ = true |- _ => apply Qle_bool_iff in H
    | H : Qle_bool _ _ = false |- _ => apply Qle_bool_false in H
    | H : Qlt_bool _ _ = true |- _ => apply Qlt_bool_true in H
    | H : Qlt_bool _ _ = false |- _ => apply Qlt_bool_false in H
    end.

(** ** The masked updates, entry by entry *)

Lemma np_any_false_fill {A : Type} (m : list bool) (a : list A) (v : A) :
  np_any m = false -> mask_fill m a v = a.
Proof.
  revert a. induction m as [| b m IH]; intros [| x a] Hm; simpl; trivial.
  simpl in Hm. apply orb_false_iff in Hm as [-> Hm].
  now rewrite IH.
Qed.

Lemma death_step_fill (E : list Q) (alive : list bool) :
  death_step (E, alive) =
  let newly_dead := map2 andb (map (fun e => Qle_bool e 0) E) alive in
  (mask_fill newly_dead E 0, mask_fill newly_dead alive false).
Proof.
  unfold death_step. cbv zeta.
  destruct (np_any _) eqn:Hany; [reflexivity |].
  now rewrite !np_any_false_fill.
Qed.

Lemma step_cons (std k : Q) (t : nat) (row : list Q) (M : list (list Q))
                (e : Q) (E : list Q) (a : bool) (alive : list bool) :
  step std (row :: M) k t (e :: E, a :: alive) =
  (fst (traj_step k std (nth t row 0) (e, a)) :: fst (step std M k t (E, alive)),
   snd (traj_step k std (nth t row 0) (e, a)) :: snd (step std M k t (E, alive))).
Proof.
  unfold step, decay_step, noise_step. cbn [snd fst].
  rewrite !death_step_fill. cbv zeta.
  unfold traj_step.
  destruct a, (Qlt_bool 0 std); cbn [mask_get mask_set map map2 column fst snd mask_fill andb];
    try rewrite andb_false_r; try (destruct (Qle_bool _ 0)); reflexivity.
Qed.

Lemma step_nil (std k : Q) (t : nat) (M : list (list Q)) :
  step std M k t ([], []) = ([], []).
Proof.
  unfold step, decay_step, noise_step, death_step. simpl.
  destruct (Qlt_bool 0 std); reflexivity.
Qed.

(** The loop body is [traj_step] on every trajectory. *)
Lemma step_lift (std k : Q) (t : nat) (M : list (list Q)) :
  forall (E : list Q) (alive : list bool),
    List.length E = List.length M -> List.length alive = List.length M ->
    step std M k t (E, alive) =
    lift (fun row => traj_step k std (nth t row 0)) M (E, alive).
Proof.
  induction M as [| row M IH]; intros [| e E] [| a alive] HE Ha;
    simpl in HE, Ha; try discriminate.
  - apply step_nil.
  - rewrite step_cons, IH by congruence.
    unfold lift. reflexivity.
Qed.

(** ** Lifting a trajectory function to the arrays *)

Lemma lift_length (f : list Q -> Q * bool -> Q * bool) (M : list (list Q)) :
  forall (E : list Q) (alive : list bool),
    List.length E = List.length M -> List.length alive = List.length M ->
    List.length (fst (lift f M (E, alive))) = List.length M /\
    List.length (snd (lift f M (E, alive))) = List.length M.
Proof.
  unfold lift. cbn [fst snd].
  induction M as [| row M IH]; intros [| e E] [| a alive] HE Ha;
    simpl in HE, Ha; try discriminate; simpl; auto.
  destruct (IH E alive) as [H1 H2]; try congruence.
  split; congruence.
Qed.

Lemma lift_lift (f g : list Q -> Q * bool -> Q * bool) (M : list (list Q)) :
  forall (E : list Q) (alive : list bool),
    List.length E = List.length M -> List.length alive = List.length M ->
    lift g M (lift f M (E, alive)) =
    lift (fun row ea => g row (f row ea)) M (E, alive).
Proof.
  unfold lift. cbn [fst snd].
  induction M as [| row M IH]; intros [| e E] [| a alive] HE Ha;
    simpl in HE, Ha; try discriminate; simpl; auto.
  specialize (IH E alive ltac:(congruence) ltac:(congruence)).
  injection IH as IH1 IH2.
  rewrite <- surjective_pairing. now rewrite IH1, IH2.
Qed.

(** On arrays with no live trajectory, a function that leaves dead
    trajectories alone changes nothing. *)
Lemma lift_all_dead (f : list Q -> Q * bool -> Q * bool) (M : list (list Q)) :
  (forall row e, f row (e, false) = (e, false)) ->
  forall (E : list Q) (alive : list bool),
    List.length E = List.length M -> List.length alive = List.length M ->
    np_any alive = false ->
    lift f M (E, alive) = (E, alive).
Proof.
  intros Hf. unfold lift. cbn [fst snd].
  induction M as [| row M IH]; intros [| e E] [| a alive] HE Ha Hany;
    simpl in HE, Ha; try discriminate; simpl; auto.
  simpl in Hany. apply orb_false_iff in Hany as [-> Hany].
  specialize (IH E alive ltac:(congruence) ltac:(congruence) Hany).
  injection IH as IH1 IH2.
  now rewrite Hf, IH1, IH2.
Qed.

Lemma lift_id (M : list (list Q)) :
  forall (E : list Q) (alive : list bool),
    List.length E = List.length M -> List.length alive = List.length M ->
    lift (fun _ ea => ea) M (E, alive) = (E, alive).
Proof.
  unfold lift. cbn [fst snd].
  induction M as [| row M IH]; intros [| e E] [| a alive] HE Ha;
    simpl in HE, Ha; try discriminate; simpl; auto.
  specialize (IH E alive ltac:(congruence) ltac:(congruence)).
  injection IH as IH1 IH2.
  now rewrite IH1, IH2.
Qed.

(** Every trajectory starts from the same pair. *)
Lemma lift_repeat (f : list Q -> Q * bool -> Q * bool) (M : list (list Q))
                  (ea : Q * bool) :
  lift f M (map fst (repeat ea (List.length M)),
            map snd (repeat ea (List.length M))) =
  (map (fun row => fst (f row ea)) M, map (fun row => snd (f row ea)) M).
Proof.
  unfold lift. cbn [fst snd].
  induction M as [| row M IH]; simpl; trivial.
  injection IH as IH1 IH2.
  rewrite <- surjective_pairing. now rewrite IH1, IH2.
Qed.

Lemma traj_step_dead (k std x e : Q) :
  traj_step k std x (e, false) = (e, false).
Proof. reflexivity. Qed.

Lemma traj_run_dead (k std : Q) (row : list Q) (ts : list nat) (e : Q) :
  traj_run k std row ts (e, false) = (e, false).
Proof.
  unfold traj_run. induction ts as [| t ts IH]; simpl; trivial.
Qed.

(** The loop, [break] included, is [traj_run] on every trajectory. *)
Lemma loop_lift (std k : Q) (M : list (list Q)) (ts : list nat) :
  forall (E : list Q) (alive : list bool),
    List.length E = List.length M -> List.length alive = List.length M ->
    loop std M k ts (E, alive) =
    lift (fun row => traj_run k std row ts) M (E, alive).
Proof.
  induction ts as [| t ts IH]; intros E alive HE Ha.
  - simpl. symmetry. now apply lift_id.
  - cbn [loop snd]. destruct (np_any alive) eqn:Hany; cbn [negb].
    + rewrite step_lift by assumption.
      destruct (lift_length (fun row => traj_step k std (nth t row 0)) M
                            E alive HE Ha) as [H1 H2].
      destruct (lift (fun row => traj_step k std (nth t row 0)) M (E, alive))
        as [E' alive'] eqn:Hst.
      cbn [fst snd] in H1, H2.
      rewrite IH by assumption. rewrite <- Hst.
      rewrite lift_lift by assumption. reflexivity.
    + symmetry. apply lift_all_dead; trivial.
      intros row e. apply traj_run_dead.
Qed.

Lemma np_any_repeat_true (n : nat) : np_any (repeat true n) = negb (n =? 0)%nat.
Proof. destruct n; reflexivity. Qed.

Lemma np_any_repeat_false (n : nat) : np_any (repeat false n) = false.
Proof. induction n; simpl; trivial. Qed.

Lemma mask_fill_repeat_true {A : Type} (n : nat) (x v : A) :
  mask_fill (repeat true n) (repeat x n) v = repeat v n.
Proof. induction n; simpl; congruence. Qed.

(** The arrays before the loop hold [traj_init] in every position. *)
Lemma init_state_repeat (initial_energy cost : Q) (scenarios : Z)
                        (decision : bool) :
  init_state initial_energy cost scenarios decision =
  (map fst (repeat (traj_init initial_energy cost decision)
                   (Z.to_nat scenarios)),
   map snd (repeat (traj_init initial_energy cost decision)
                   (Z.to_nat scenarios))).
Proof.
  unfold init_state, traj_init, np_full, np_ones_bool.
  generalize (Z.to_nat scenarios) as n. intro n.
  rewrite !map_repeat.
  destruct decision; cbn [fst snd]; [| reflexivity].
  destruct (Qle_bool (initial_energy - cost) 0) eqn:Hle; cbn [fst snd].
  - rewrite np_any_repeat_true.
    destruct n; [reflexivity |]. cbn [Nat.eqb negb].
    now rewrite !mask_fill_repeat_true.
  - now rewrite np_any_repeat_false.
Qed.

Section RunFacts.

Variables (initial_energy cost base_decay effective_decay rand_std : Q).
Variable random_matrix : list (list Q).
Variables (scenarios horizon : Z).
Hypothesis rows : List.length random_matrix = Z.to_nat scenarios.

Local Abbreviation k decision :=
  (decay_rate_of base_decay effective_decay decision).

(** After the passes [ts], position [i] of the arrays holds the trajectory
    of row [i]. *)
Lemma loop_init (decision : bool) (ts : list nat) :
  loop rand_std random_matrix (k decision) ts
       (init_state initial_energy cost scenarios decision) =
  (map (fun row => fst (traj_run (k decision) rand_std row ts
                          (traj_init initial_energy cost decision)))
       random_matrix,
   map (fun row => snd (traj_run (k decision) rand_std row ts
                          (traj_init initial_energy cost decision)))
       random_matrix).
Proof.
  rewrite init_state_repeat, <- rows.
  rewrite loop_lift by now rewrite length_map, repeat_length.
  apply lift_repeat.
Qed.

Lemma final_state_traj (decision : bool) :
  final_state initial_energy cost base_decay effective_decay rand_std
              random_matrix scenarios horizon decision =
  (map (fun row => fst (traj_final initial_energy cost base_decay
                          effective_decay rand_std horizon decision row))
       random_matrix,
   map (fun row => snd (traj_final initial_energy cost base_decay
                          effective_decay rand_std horizon decision row))
       random_matrix).
Proof. apply loop_init. Qed.

Lemma state_at_traj (decision : bool) (n : nat) :
  state_at initial_energy cost base_decay effective_decay rand_std
           random_matrix scenarios decision n =
  (map (fun row => fst (traj_run (k decision) rand_std row (seq 0 n)
                          (traj_init initial_energy cost decision)))
       random_matrix,
   map (fun row => snd (traj_run (k decision) rand_std row (seq 0 n)
                          (traj_init initial_energy cost decision)))
       random_matrix).
Proof. apply loop_init. Qed.

End RunFacts.

(** ** Facts about one trajectory *)

Lemma traj_run_app (k std : Q) (row : list Q) (ts ts' : list nat)
                   (ea : Q * bool) :
  traj_run k std row (ts ++ ts') ea =
  traj_run k std row ts' (traj_run k std row ts ea).
Proof. unfold traj_run. apply fold_left_app. Qed.

Lemma traj_run_dead' (k std : Q) (row : list Q) (ts : list nat)
                     (ea : Q * bool) :
  snd ea = false -> traj_run k std row ts ea = ea.
Proof. destruct ea as [e a]. simpl. intros ->. apply traj_run_dead. Qed.

Lemma traj_init_ok (initial_energy cost : Q) (decision : bool) :
  0 < initial_energy -> traj_ok (traj_init initial_energy cost decision).
Proof.
  intro Hpos. unfold traj_init, traj_ok.
  destruct decision; cbn [fst snd]; trivial.
  destruct (Qle_bool _ 0) eqn:Hle; cbn [fst snd]; trivial.
  now qbool.
Qed.

Lemma traj_step_ok (k std x : Q) (ea : Q * bool) :
  traj_ok ea -> traj_ok (traj_step k std x ea).
Proof.
  destruct ea as [e [|]]; unfold traj_ok, traj_step; cbn [fst snd]; trivial.
  intros _. destruct (Qle_bool _ 0) eqn:Hle; cbn [fst snd]; trivial.
  now qbool.
Qed.


Lemma traj_init_dead_zero (initial_energy cost : Q) (decision : bool) :
  dead_zero (traj_init initial_energy cost decision).
Proof.
  unfold traj_init, dead_zero.
  destruct decision; cbn [fst snd]; [| discriminate].
  destruct (Qle_bool _ 0); cbn [fst snd]; [trivial | discriminate].
Qed.

Lemma traj_step_dead_zero (k std x : Q) (ea : Q * bool) :
  dead_zero ea -> dead_zero (traj_step k std x ea).
Proof.
  destruct ea as [e [|]]; unfold dead_zero, traj_step; cbn [fst snd]; trivial.
  intros _. destruct (Qle_bool _ 0); cbn [fst snd]; [trivial | discriminate].
Qed.

Lemma traj_run_dead_zero (k std : Q) (row : list Q) (ts : list nat) :
  forall ea, dead_zero ea -> dead_zero (traj_run k std row ts ea).
Proof.
  unfold traj_run. induction ts as [| t ts IH]; intros ea Hok; simpl; trivial.
  apply IH. now apply traj_step_dead_zero.
Qed.

(** ** Reading the arrays at one position *)

Lemma nth_map_lt {A B : Type} (f : A -> B) (l : list A) (i : nat)
                 (d : B) (d' : A) :
  (i < List.length l)%nat -> nth i (map f l) d = f (nth i l d').
Proof.
  intro Hi. rewrite (nth_indep _ d (f d')) by now rewrite length_map.
  apply map_nth.
Qed.

Lemma nth_flag_lt {A : Type} (f : A -> bool) (l : list A) (i : nat) (b : bool) :
  nth i (map f l) (negb b) = b -> (i < List.length l)%nat.
Proof.
  intro Hn. destruct (Nat.lt_ge_cases i (List.length l)) as [Hi | Hi]; trivial.
  rewrite nth_overflow in Hn by now rewrite length_map.
  now destruct b.
Qed.

Lemma mask_set_dead {A : Type} (mask : list bool) :
  forall (a vals : list A) (i : nat) (d : A),
    nth i mask true = false ->
    nth i (mask_set mask a vals) d = nth i a d.
Proof.
  induction mask as [| b mask IH]; intros [| x a] vals i d Hi; trivial.
  destruct i as [| i]; simpl in Hi.
  - subst b. reflexivity.
  - destruct b; [destruct vals |]; simpl; now apply IH.
Qed.

Lemma mask_fill_dead {A : Type} (mask : list bool) :
  forall (a : list A) (v : A) (i : nat) (d : A),
    nth i mask false = false ->
    nth i (mask_fill mask a v) d = nth i a d.
Proof.
  induction mask as [| b mask IH]; intros [| x a] v i d Hi; trivial.
  destruct i as [| i]; simpl in Hi.
  - subst b. reflexivity.
  - simpl. now apply IH.
Qed.

Lemma map2_andb_dead (l alive : list bool) (i : nat) :
  nth i alive true = false -> nth i (map2 andb l alive) false = false.
Proof.
  revert alive i. induction l as [| b l IH]; intros [| a alive] i Hi;
    try (destruct i; reflexivity).
  destruct i as [| i]; simpl in *.
  - subst a. apply andb_false_r.
  - now apply IH.
Qed.

Lemma mask_fill_flag_dead (mask alive : list bool) (i : nat) :
  nth i alive true = false ->
  nth i (mask_fill mask alive false) true = false.
Proof.
  revert alive i. induction mask as [| b mask IH]; intros [| a alive] i Hi;
    trivial.
  destruct i as [| i]; simpl in *.
  - subst a. now destruct b.
  - now apply IH.
Qed.

(** Line 53 adds, at a live position [i], entry [(i, t)] of the matrix. *)
Lemma noise_step_alive (std : Q) (t : nat) (M : list (list Q)) :
  forall (E : list Q) (alive : list bool) (i : nat),
    List.length E = List.length M -> List.length alive = List.length M ->
    0 < std -> nth i alive false = true ->
    nth i (noise_step std M t (E, alive)) 0 =
    nth i E 0 + nth t (nth i M []) 0.
Proof.
  intros E alive i HE Ha Hstd. apply Qlt_bool_true in Hstd.
  unfold noise_step. rewrite Hstd. clear Hstd.
  revert E alive i HE Ha.
  induction M as [| row M IH]; intros [| e E] [| a alive] i HE Ha Hi;
    simpl in HE, Ha; try discriminate.
  - destruct i; discriminate.
  - destruct i as [| i]; simpl in Hi.
    + subst a. reflexivity.
    + destruct a; simpl; apply IH; trivial; congruence.
Qed.

(** ** The generator *)

Section Generator.

Context `{RT : Runtime}.

Lemma seed_of_range (initial_energy cost_frac benefit_frac risk_frac : Q)
                    (horizon : Z) :
  (0 <= seed_of initial_energy cost_frac benefit_frac risk_frac horizon
     < 2 ^ 32)%Z.
Proof. unfold seed_of. apply Z.mod_pos_bound. reflexivity. Qed.

(** Seeding with the derived seed never fails and forgets the old state. *)
Lemma np_random_seed_seed_of
      (initial_energy cost_frac benefit_frac risk_frac : Q) (horizon : Z)
      (s : rng_state) :
  np_random_seed
    (seed_of initial_energy cost_frac benefit_frac risk_frac horizon) s =
  (inr tt,
   rng_of_seed
     (seed_of initial_energy cost_frac benefit_frac risk_frac horizon)).
Proof.
  unfold np_random_seed.
  pose proof (seed_of_range initial_energy cost_frac benefit_frac risk_frac
                            horizon) as [Hlo Hhi].
  apply Z.leb_le in Hlo. apply Z.ltb_lt in Hhi.
  now rewrite Hlo, Hhi.
Qed.

Lemma replicateM_total {A : Type} (P : A -> Prop) (c : NP A) :
  (forall s, exists a s', c s = (inr a, s') /\ P a) ->
  forall (n : nat) (s : rng_state),
  exists l s', replicateM n c s = (inr l, s') /\
               List.length l = n /\ Forall P l.
Proof.
  intros Hc. induction n as [| n IH]; intro s.
  - exists [], s. repeat split. constructor.
  - destruct (Hc s) as (a & s1 & Ha & HP).
    destruct (IH s1) as (l & s2 & Hl & Hlen & Hall).
    exists (a :: l), s2. cbn [replicateM]. unfold bind at 1.
    rewrite Ha. unfold bind at 1. rewrite Hl.
    repeat split; simpl; auto.
Qed.

Lemma replicateM_inr {A : Type} (P : A -> Prop) (c : NP A) :
  (forall s a s', c s = (inr a, s') -> P a) ->
  forall (n : nat) (s : rng_state) (l : list A) (s' : rng_state),
    replicateM n c s = (inr l, s') -> List.length l = n /\ Forall P l.
Proof.
  intros Hc. induction n as [| n IH]; intros s l s' Hrun.
  - cbn in Hrun. injection Hrun as <- _. split; trivial.
  - cbn [replicateM] in Hrun. unfold bind at 1 in Hrun.
    destruct (c s) as [[e | a] s1] eqn:Ha; [discriminate |].
    unfold bind at 1 in Hrun.
    destruct (replicateM n c s1) as [[e | l'] s2] eqn:Hl; [discriminate |].
    cbn in Hrun. injection Hrun as <- _.
    destruct (IH _ _ _ Hl) as [Hlen Hall].
    split; simpl; [congruence |].
    constructor; trivial. now apply (Hc s a s1).
Qed.

Lemma normal_draw_total (loc scale : Q) (s : rng_state) :
  exists x s', normal_draw loc scale s = (inr x, s') /\ True.
Proof.
  unfold normal_draw. destruct (legacy_gauss s) as [g s'].
  now exists (loc + scale * g), s'.
Qed.

(** A successful [np.random.normal] gives a matrix of the asked shape. *)
Lemma np_random_normal_shape (loc scale : Q) (n h : Z) (s s' : rng_state)
                             (M : list (list Q)) :
  np_random_normal loc scale (n, h) s = (inr M, s') ->
  has_shape (Z.to_nat n) (Z.to_nat h) M.
Proof.
  unfold np_random_normal. cbn [fst snd].
  destruct (Qlt_bool scale 0); [discriminate |].
  destruct (_ || _)%bool; [discriminate |].
  intro Hrun.
  apply (replicateM_inr (fun row => List.length row = Z.to_nat h))
    in Hrun; trivial.
  intros s0 row s1 Hrow.
  now apply (replicateM_inr (fun _ => True)) in Hrow.
Qed.

(** It succeeds when the scale and both dimensions are not negative. *)
Lemma np_random_normal_total (loc scale : Q) (n h : Z) (s : rng_state) :
  0 <= scale -> (0 <= n)%Z -> (0 <= h)%Z ->
  exists M s', np_random_normal loc scale (n, h) s = (inr M, s').
Proof.
  intros Hscale Hn Hh. unfold np_random_normal. cbn [fst snd].
  apply Qlt_bool_false in Hscale. rewrite Hscale.
  apply Z.ltb_ge in Hn, Hh. rewrite Hn, Hh. cbn [orb].
  destruct (replicateM_total (fun _ => True)
              (replicateM (Z.to_nat h) (normal_draw loc scale))
              ) with (n := Z.to_nat n) (s := s) as (M & s' & HM & _).
  - intro s0.
    destruct (replicateM_total (fun _ => True) (normal_draw loc scale)
                (normal_draw_total loc scale) (Z.to_nat h) s0)
      as (row & s1 & Hrow & _).
    now exists row, s1.
  - now exists M, s'.
Qed.

(** A negative scale is refused. *)
Lemma np_random_normal_negative_scale (loc scale : Q) (size : Z * Z)
                                      (s : rng_state) :
  scale < 0 -> np_random_normal loc scale size s = (inl ValueError, s).
Proof.
  intro Hneg. unfold np_random_normal.
  apply Qlt_bool_true in Hneg. now rewrite Hneg.
Qed.

End Generator.

(** ** The call as a whole *)

Section Call.

Context `{RT : Runtime}.

(** [simulate_decision] seeds the generator, draws one matrix, and returns
    the results of the two runs on it; an error of the draw is the error of
    the call. *)
Lemma simulate_decision_unfold
      (initial_energy cost_frac benefit_frac risk_frac : Q)
      (horizon scenarios : Z) (s : rng_state) :
  simulate_decision initial_energy cost_frac benefit_frac risk_frac
                    horizon scenarios s =
  match drawn_matrix initial_energy cost_frac benefit_frac risk_frac
                     horizon scenarios with
  | (inl e, s') => (inl e, s')
  | (inr M, s') =>
      (inr (results_of initial_energy cost_frac benefit_frac risk_frac
                       horizon scenarios M), s')
  end.
Proof.
  unfold simulate_decision, drawn_matrix. cbv zeta.
  unfold bind at 1. rewrite np_random_seed_seed_of.
  unfold bind at 1.
  destruct (np_random_normal _ _ _ _) as [[e | M] s']; [reflexivity |].
  unfold results_of, run_with.
  destruct (run_scenarios _ _ _ _ _ M _ _ true) as [sy ay].
  destruct (run_scenarios _ _ _ _ _ M _ _ false) as [sn an].
  reflexivity.
Qed.

Lemma replicateM_state {A : Type} (c : NP A) (d : nat) :
  (forall s a s', c s = (inr a, s') -> s' = rng_after d s) ->
  forall (n : nat) (s : rng_state) (l : list A) (s' : rng_state),
    replicateM n c s = (inr l, s') -> s' = rng_after (n * d) s.
Proof.
  intros Hc. induction n as [| n IH]; intros s l s' Hrun.
  - cbn in Hrun. now injection Hrun as _ <-.
  - cbn [replicateM] in Hrun. unfold bind at 1 in Hrun.
    destruct (c s) as [[e | a] s1] eqn:Ha; [discriminate |].
    unfold bind at 1 in Hrun.
    destruct (replicateM n c s1) as [[e | l'] s2] eqn:Hl; [discriminate |].
    cbn in Hrun. injection Hrun as _ <-.
    apply IH in Hl. apply Hc in Ha. subst s1 s2.
    unfold rng_after. cbn [Nat.mul]. rewrite Nat.add_comm.
    now rewrite Nat.iter_add.
Qed.

(** A successful draw of an [n x h] matrix advances the generator by
    [n * h] normal draws. *)
Lemma np_random_normal_state (loc scale : Q) (n h : Z) (s s' : rng_state)
                             (M : list (list Q)) :
  np_random_normal loc scale (n, h) s = (inr M, s') ->
  s' = rng_after (Z.to_nat n * Z.to_nat h) s.
Proof.
  unfold np_random_normal. cbn [fst snd].
  destruct (Qlt_bool scale 0); [discriminate |].
  destruct (_ || _)%bool; [discriminate |].
  apply replicateM_state.
  intros s0 row s1 Hrow.
  rewrite <- (Nat.mul_1_r (Z.to_nat h)).
  revert Hrow. apply replicateM_state.
  intros s2 x s3. unfold normal_draw.
  destruct (legacy_gauss s2) as [g s4] eqn:Hg.
  intro Hx. injection Hx as _ <-.
  unfold rng_after. simpl. now rewrite Hg.
Qed.

End Call.

(** ** The loop and its passes *)

Lemma loop_all_dead (std k : Q) (M : list (list Q)) (ts : list nat)
                    (st : run_state) :
  np_any (snd st) = false -> loop std M k ts st = st.
Proof. intro Hany. destruct ts; simpl; [| rewrite Hany]; reflexivity. Qed.

Lemma loop_app (std k : Q) (M : list (list Q)) (ts ts' : list nat) :
  forall st : run_state,
    loop std M k (ts ++ ts') st = loop std M k ts' (loop std M k ts st).
Proof.
  induction ts as [| t ts IH]; intro st; [reflexivity |].
  cbn [app loop]. destruct (np_any (snd st)) eqn:Hany; cbn [negb].
  - apply IH.
  - symmetry. now apply loop_all_dead.
Qed.

(** The run goes through [state_at decision t] for every [t] up to the
    horizon, and ends in [state_at decision horizon]. *)
Lemma final_state_from (initial_energy cost base_decay effective_decay
                        rand_std : Q) (M : list (list Q))
                       (scenarios horizon : Z) (decision : bool) (t : nat) :
  (t <= Z.to_nat horizon)%nat ->
  final_state initial_energy cost base_decay effective_decay rand_std M
              scenarios horizon decision =
  loop rand_std M (decay_rate_of base_decay effective_decay decision)
       (seq t (Z.to_nat horizon - t))
       (state_at initial_energy cost base_decay effective_decay rand_std M
                 scenarios decision t).
Proof.
  intro Ht. unfold final_state, state_at, range.
  rewrite <- loop_app, <- seq_app.
  now replace (t + (Z.to_nat horizon - t))%nat with (Z.to_nat horizon) by lia.
Qed.

Lemma mask_set_length {A : Type} (mask : list bool) :
  forall a vals : list A, List.length (mask_set mask a vals) = List.length a.
Proof.
  induction mask as [| b mask IH]; intros [| x a] vals; trivial.
  destruct b; [destruct vals |]; simpl; now rewrite IH.
Qed.

(** The entries of a drawn matrix are [loc + scale * g] for draws [g]; the
    scale of a successful draw is not negative. *)
Lemma np_random_normal_entries `{RT : Runtime} (loc scale : Q) (n h : Z)
                               (s s' : rng_state) (M : list (list Q)) :
  np_random_normal loc scale (n, h) s = (inr M, s') ->
  0 <= scale /\
  Forall (Forall (fun x => exists g, x = loc + scale * g)) M.
Proof.
  unfold np_random_normal. cbn [fst snd].
  destruct (Qlt_bool scale 0) eqn:Hscale; [discriminate |].
  destruct (_ || _)%bool; [discriminate |].
  intro Hrun. split; [now apply Qlt_bool_false |].
  apply (replicateM_inr
           (Forall (fun x => exists g, x = loc + scale * g))) in Hrun;
    [apply Hrun |].
  intros s0 row s1 Hrow.
  apply (replicateM_inr (fun x => exists g, x = loc + scale * g)) in Hrow;
    [apply Hrow |].
  intros s2 x s3. unfold normal_draw.
  destruct (legacy_gauss s2) as [g s4].
  intro Hx. injection Hx as <- _. now exists g.
Qed.

Lemma zero_scale_entry (scale : Q) (M : list (list Q)) (i t : nat) :
  scale == 0 ->
  Forall (Forall (fun x => exists g, x = 0 + scale * g)) M ->
  nth t (nth i M []) 0 == 0.
Proof.
  intros Hscale HM.
  destruct (nth_in_or_default i M []) as [Hrow | ->];
    [| destruct t; reflexivity].
  rewrite Forall_forall in HM. specialize (HM _ Hrow).
  destruct (nth_in_or_default t (nth i M []) 0) as [Hx | ->];
    [| reflexivity].
  rewrite Forall_forall in HM. destruct (HM _ Hx) as [g ->].
  rewrite Hscale. ring.
Qed.

(** * The properties C1 to C10 of the specification *)

(** ** C1: one noise matrix, shared by the two runs *)

(** C1.  A call of [simulate_decision] draws the noise matrix once, from the
    freshly seeded generator and before either run: its outcome is the error
    of that draw, or the results of the YES-run and of the NO-run on that one
    matrix [M], and the generator is left [scenarios * horizon] draws after
    the seed.  The results of either run are the two means of its final
    arrays, which are its arrays after [horizon] passes of the loop.  In
    either run, a scenario [i] that is alive before pass [t] has after it the
    clamp of [e'], its energy times [1 - decay_rate] plus the entry
    [M[i][t]] of that same matrix: added by line 53 when [rand_std > 0]; when
    [rand_std] is 0 the guard of line 52 skips the addition and the entry is
    0. *)
Theorem shared_noise_matrix `{RT : Runtime}
        (initial_energy cost_frac benefit_frac risk_frac : Q)
        (horizon scenarios : Z) (s : rng_state) :
  simulate_decision initial_energy cost_frac benefit_frac risk_frac
                    horizon scenarios s =
  match drawn_matrix initial_energy cost_frac benefit_frac risk_frac
                     horizon scenarios with
  | (inl e, s') => (inl e, s')
  | (inr M, s') =>
      (inr (results_of initial_energy cost_frac benefit_frac risk_frac
                       horizon scenarios M), s')
  end /\
  forall (M : list (list Q)) (s' : rng_state),
    drawn_matrix initial_energy cost_frac benefit_frac risk_frac
                 horizon scenarios = (inr M, s') ->
    s' = rng_after (Z.to_nat scenarios * Z.to_nat horizon)
           (rng_of_seed (seed_of initial_energy cost_frac benefit_frac
                                 risk_frac horizon)) /\
    forall decision : bool,
      let arrays := arrays_at initial_energy cost_frac benefit_frac risk_frac
                              scenarios M decision in
      let final := final_arrays initial_energy cost_frac benefit_frac
                                risk_frac horizon scenarios M decision in
      run_with initial_energy cost_frac benefit_frac risk_frac horizon
               scenarios M decision =
        (np_mean_bool (map (fun e => Qlt_bool 0 e) (fst final)),
         np_mean (fst final)) /\
      final = arrays (Z.to_nat horizon) /\
      forall t i : nat,
        (t < Z.to_nat horizon)%nat ->
        nth i (snd (arrays t)) false = true ->
        let e := nth i (fst (arrays t)) 0 * (1 - rate_of benefit_frac decision)
        in
        let x := nth t (nth i M []) 0 in
        let e' := if Qlt_bool 0 (0.1 * initial_energy * risk_frac)
                  then e + x else e in
        e' == e + x /\
        nth i (fst (arrays (S t))) 0 = (if Qle_bool e' 0 then 0 else e') /\
        nth i (snd (arrays (S t))) false = negb (Qle_bool e' 0).
Proof.
  split; [apply simulate_decision_unfold |].
  intros M s' HM. split.
  - revert HM. unfold drawn_matrix. apply np_random_normal_state.
  - intros decision arrays final.
    destruct (np_random_normal_entries _ _ _ _ _ _ _ HM) as [Hscale Hentries].
    apply np_random_normal_shape in HM as [Hrows _].
    split; [| split].
    + unfold run_with, run_scenarios, final, final_arrays.
      now destruct (final_state _ _ _ _ _ _ _ _ _).
    + reflexivity.
    + intros t i Ht Hi e x e'.
      set (k := rate_of benefit_frac decision) in *.
      set (std := 0.1 * initial_energy * risk_frac) in *.
      set (run := fun n row =>
             traj_run k std row (seq 0 n)
                      (traj_init initial_energy (initial_energy * cost_frac)
                                 decision)).
      assert (Hat : forall n,
        arrays n = (map (fun row => fst (run n row)) M,
                    map (fun row => snd (run n row)) M)).
      { intro n. unfold arrays, arrays_at. now apply state_at_traj. }
      rewrite Hat in Hi. cbn [snd] in Hi.
      assert (Hlt : (i < List.length M)%nat)
        by (apply (nth_flag_lt _ _ _ true) in Hi; exact Hi).
      rewrite (nth_map_lt _ _ _ _ []) in Hi by assumption.
      assert (He : e = fst (run t (nth i M [])) * (1 - k)).
      { unfold e. rewrite Hat. cbn [fst].
        now rewrite (nth_map_lt _ _ _ _ []) by assumption. }
      assert (Hnext : run (S t) (nth i M []) =
                      if Qle_bool e' 0 then (0, false) else (e', true)).
      { unfold run at 1. rewrite seq_S, traj_run_app. cbn [traj_run fold_left].
        fold (run t (nth i M [])).
        destruct (run t (nth i M [])) as [e0 a0]. cbn [fst snd] in Hi, He.
        subst a0. unfold traj_step. fold x. rewrite <- He. fold e'.
        reflexivity. }
      rewrite !Hat. cbn [fst snd].
      rewrite !(nth_map_lt _ _ _ _ []) by assumption. rewrite Hnext.
      split; [| split; now destruct (Qle_bool e' 0)].
      unfold e'. destruct (Qlt_bool 0 std) eqn:Hstd; [reflexivity |].
      apply Qlt_bool_false in Hstd.
      assert (Hx : x == 0).
      { unfold x. apply (zero_scale_entry std); trivial. fold std in Hscale.
        lra. }
      rewrite Hx. ring.
Qed.

Lemma shared_noise_matrix_witness :
  drawn_matrix (RT := Toy.runtime) 100 0.1 0 1 2 1
    = (inr [[-10.0; -10.0]], 24%Z) /\
  (0 < Z.to_nat 2)%nat /\
  nth 0 (snd (arrays_at 100 0.1 0 1 1 [[-10.0; -10.0]] true 0)) false
    = true /\
  nth 0 (fst (arrays_at 100 0.1 0 1 1 [[-10.0; -10.0]] true 1)) 0
  = (if Qle_bool
          (if Qlt_bool 0 (0.1 * 100 * 1)
           then nth 0 (fst (arrays_at 100 0.1 0 1 1 [[-10.0; -10.0]] true 0))
                      0 * (1 - rate_of 0 true)
                + nth 0 (nth 0 [[-10.0; -10.0]] []) 0
           else nth 0 (fst (arrays_at 100 0.1 0 1 1 [[-10.0; -10.0]] true 0))
                      0 * (1 - rate_of 0 true)) 0
     then 0
     else if Qlt_bool 0 (0.1 * 100 * 1)
          then nth 0 (fst (arrays_at 100 0.1 0 1 1 [[-10.0; -10.0]] true 0))
                     0 * (1 - rate_of 0 true)
               + nth 0 (nth 0 [[-10.0; -10.0]] []) 0
          else nth 0 (fst (arrays_at 100 0.1 0 1 1 [[-10.0; -10.0]] true 0))
                     0 * (1 - rate_of 0 true)).
Proof.
  assert (HM : drawn_matrix (RT := Toy.runtime) 100 0.1 0 1 2 1
               = (inr [[-10.0; -10.0]], 24%Z)) by reflexivity.
  assert (Ht : (0 < Z.to_nat 2)%nat) by (simpl; lia).
  assert (Hi : nth 0 (snd (arrays_at 100 0.1 0 1 1 [[-10.0; -10.0]] true 0))
                 false = true) by reflexivity.
  refine (conj HM (conj Ht (conj Hi _))).
  exact (proj1 (proj2 (proj2 (proj2 (proj2 (proj2 (shared_noise_matrix
                                                     (RT := Toy.runtime)
                                                     100 0.1 0 1 2 1 0%Z)
                                                   _ _ HM) true))
                             0%nat 0%nat Ht Hi))).
Defined.

(** ** C2: determinism *)

(** C2.  The outcome of [simulate_decision] (the quadruple, or the error) and
    the generator it leaves do not depend on the state of the generator at
    the call: line 25 replaces it by the state of the seed, and the seed is
    [sha256_int] of the key of the five parameters, reduced modulo [2^32], a
    32-bit number.  So two invocations on one parameter tuple return
    identical quadruples. *)
Theorem simulate_decision_deterministic `{RT : Runtime}
        (initial_energy cost_frac benefit_frac risk_frac : Q)
        (horizon scenarios : Z) (s1 s2 : rng_state) :
  simulate_decision initial_energy cost_frac benefit_frac risk_frac
                    horizon scenarios s1 =
  simulate_decision initial_energy cost_frac benefit_frac risk_frac
                    horizon scenarios s2 /\
  seed_of initial_energy cost_frac benefit_frac risk_frac horizon =
    (sha256_int (seed_key initial_energy cost_frac benefit_frac risk_frac
                          horizon) mod 2 ^ 32)%Z /\
  (0 <= seed_of initial_energy cost_frac benefit_frac risk_frac horizon
     < 2 ^ 32)%Z.
Proof.
  split; [| split].
  - now rewrite !simulate_decision_unfold.
  - reflexivity.
  - apply seed_of_range.
Qed.

(** ** C3: the decision rule *)

(** The rule on exact numbers, in the tie-break. *)

Lemma decision_tiebreak_yes (surv_yes surv_no avg_yes avg_no : Q) :
  ~ 0.01 < surv_yes - surv_no -> ~ 0.01 < surv_no - surv_yes ->
  avg_no <= avg_yes ->
  decision surv_yes surv_no avg_yes avg_no = "YES"%string.
Proof.
  intros H1 H2 H3. unfold decision.
  destruct (Qlt_bool 0.01 (surv_yes - surv_no)) eqn:B1;
    [apply Qlt_bool_true in B1; contradiction |].
  destruct (Qlt_bool 0.01 (surv_no - surv_yes)) eqn:B2;
    [apply Qlt_bool_true in B2; contradiction |].
  apply Qle_bool_iff in H3. now rewrite H3.
Qed.

(** *** Comparisons of binary64 numbers, through their specification *)

Lemma SFcompare_swap (x y : spec_float) :
  SFcompare y x = option_map CompOpp (SFcompare x y).
Proof.
  destruct x as [sx | sx | | sx mx ex], y as [sy | sy | | sy my ey];
    cbn; try reflexivity;
    try (destruct sx; reflexivity); try (destruct sy; reflexivity);
    try (destruct sx, sy; reflexivity).
  destruct sx, sy; cbn; try reflexivity;
    rewrite (Z.compare_antisym ex ey);
    destruct (ex ?= ey)%Z; cbn; try reflexivity;
    now rewrite (Pos.compare_cont_antisym mx my Eq).
Qed.

Lemma SFcompare_refl (x : spec_float) :
  x <> S754_nan -> SFcompare x x = Some Eq.
Proof.
  destruct x as [sx | sx | | sx mx ex]; cbn; intro H;
    try reflexivity; try congruence; try (destruct sx; reflexivity).
  destruct sx; rewrite Z.compare_refl;
    change (Pos.compare_cont Eq mx mx) with (mx ?= mx)%positive;
    now rewrite Pos.compare_refl.
Qed.

Lemma SFcompare_nan (x y : spec_float) :
  SFcompare x y = None <-> x = S754_nan \/ y = S754_nan.
Proof.
  destruct x as [sx | sx | | sx mx ex], y as [sy | sy | | sy my ey];
    cbn; split; intro H; try discriminate; try reflexivity; auto;
    destruct H; discriminate.
Qed.

Lemma is_nan_spec (x : float) : is_nan x = true <-> Prim2SF x = S754_nan.
Proof.
  unfold is_nan. rewrite FloatAxioms.eqb_spec. unfold SFeqb. split.
  - intro H. destruct (Prim2SF x) eqn:Hx; trivial;
      rewrite SFcompare_refl in H by discriminate; discriminate.
  - intros ->. reflexivity.
Qed.

Lemma is_nan_false (x : float) : is_nan x = false <-> Prim2SF x <> S754_nan.
Proof.
  rewrite <- is_nan_spec. destruct (is_nan x); split; congruence.
Qed.

(** A comparison with NaN is false. *)
Lemma leb_nan (x y : float) :
  is_nan x = true \/ is_nan y = true -> (x <=? y)%float = false.
Proof.
  intro H. rewrite FloatAxioms.leb_spec. unfold SFleb.
  assert (Hc : SFcompare (Prim2SF x) (Prim2SF y) = None).
  { apply SFcompare_nan. destruct H as [H | H]; apply is_nan_spec in H; auto. }
  now rewrite Hc.
Qed.

(** Two numbers that are not NaN are comparable. *)
Lemma leb_total (x y : float) :
  is_nan x = false -> is_nan y = false ->
  (x <=? y)%float = false -> (y <=? x)%float = true.
Proof.
  intros Hx Hy. rewrite !FloatAxioms.leb_spec. unfold SFleb.
  rewrite (SFcompare_swap (Prim2SF x) (Prim2SF y)).
  apply is_nan_false in Hx, Hy.
  destruct (SFcompare (Prim2SF x) (Prim2SF y)) as [[| |] |] eqn:Hc;
    cbn; try congruence.
  apply SFcompare_nan in Hc. tauto.
Qed.

Lemma leb_antisym (x y : float) :
  ((x <=? y)%float = true /\ (y <=? x)%float = true) <->
  (x =? y)%float = true.
Proof.
  rewrite !FloatAxioms.leb_spec, FloatAxioms.eqb_spec. unfold SFleb, SFeqb.
  rewrite (SFcompare_swap (Prim2SF x) (Prim2SF y)).
  destruct (SFcompare (Prim2SF x) (Prim2SF y)) as [[| |] |]; cbn;
    intuition congruence.
Qed.

(** *** The sign of a difference *)

Lemma SFltb_positive (m : positive) (e : Z) (z : spec_float) :
  SFltb (S754_finite false m e) z = true -> Binary64.SFpositive z = true.
Proof.
  destruct z as [s | s | | s mz ez]; cbn; try discriminate;
    destruct s; cbn; trivial; discriminate.
Qed.

Lemma binary_round_negative (m : positive) (e : Z) :
  Binary64.SFpositive (binary_round prec emax true m e) = false.
Proof.
  unfold binary_round, binary_round_aux.
  destruct (shl_align _ _ _) as [mz ez].
  destruct (shr_fexp _ _ _ _ _) as [mrs e'].
  destruct (shr_fexp _ _ _ _ _) as [mrs' e''].
  destruct (shr_m mrs'); [reflexivity | | reflexivity].
  now destruct (Z.leb _ _).
Qed.

(** Of [x - y] and [y - x] at most one is positive. *)
Lemma SFsub_positive (x y : spec_float) :
  Binary64.SFpositive (SF64sub x y) = true -> Binary64.SFpositive (SF64sub y x) = false.
Proof.
  unfold SF64sub.
  destruct x as [sx | sx | | sx mx ex], y as [sy | sy | | sy my ey];
    cbn; try discriminate; try reflexivity;
    try (destruct sx, sy; cbn; (discriminate || reflexivity));
    try (destruct sx; cbn; (discriminate || reflexivity));
    try (destruct sy; cbn; (discriminate || reflexivity)).
  rewrite (Z.min_comm ey ex).
  set (a := cond_Zopp sx (Z.pos (fst (shl_align mx ex (Z.min ex ey))))).
  set (b := cond_Zopp sy (Z.pos (fst (shl_align my ey (Z.min ex ey))))).
  replace (b - a)%Z with (- (a - b))%Z by lia.
  destruct (a - b)%Z as [| p | p]; cbn.
  - discriminate.
  - intros _. apply binary_round_negative.
  - now rewrite binary_round_negative.
Qed.

Lemma Prim2SF_0_01 :
  Prim2SF 0.01%float = S754_finite false 5764607523034235 (-59).
Proof. reflexivity. Qed.

(** The two margins of the rule exclude each other. *)
Lemma margins_exclusive (x y : float) :
  (0.01 <? x - y)%float = true -> (0.01 <? y - x)%float = false.
Proof.
  rewrite !FloatAxioms.ltb_spec, !FloatAxioms.sub_spec, Prim2SF_0_01. intro H.
  apply SFltb_positive, SFsub_positive in H.
  destruct (SFltb _ (SF64sub (Prim2SF y) (Prim2SF x))) eqn:H'; trivial.
  apply SFltb_positive in H'. congruence.
Qed.

(** C3.  On every quadruple of binary64 numbers (NaN and the infinities
    included) the rule of the callers answers YES or NO, by three branches:
    YES when [surv_yes - surv_no > 0.01]; otherwise NO when
    [surv_no - surv_yes > 0.01]; otherwise YES when [avg_yes >= avg_no] and
    NO when not.  The differences are the rounded ones and 0.01 is the
    nearest binary64 number; the first two conditions never hold together.
    [play_game] applies the same rule. *)
Theorem decision_three_branches (surv_yes surv_no avg_yes avg_no : float) :
  let d := Binary64.decision surv_yes surv_no avg_yes avg_no in
  (d = "YES"%string \/ d = "NO"%string) /\
  ((0.01 <? surv_yes - surv_no)%float = true -> d = "YES"%string) /\
  ((0.01 <? surv_yes - surv_no)%float = false ->
   (0.01 <? surv_no - surv_yes)%float = true -> d = "NO"%string) /\
  ((0.01 <? surv_yes - surv_no)%float = false ->
   (0.01 <? surv_no - surv_yes)%float = false ->
   (avg_no <=? avg_yes)%float = true -> d = "YES"%string) /\
  ((0.01 <? surv_yes - surv_no)%float = false ->
   (0.01 <? surv_no - surv_yes)%float = false ->
   (avg_no <=? avg_yes)%float = false -> d = "NO"%string) /\
  ~ ((0.01 <? surv_yes - surv_no)%float = true /\
     (0.01 <? surv_no - surv_yes)%float = true) /\
  Binary64.play_game_decision surv_yes surv_no avg_yes avg_no = d.
Proof.
  cbv zeta. unfold Binary64.play_game_decision, Binary64.decision.
  pose proof (margins_exclusive surv_yes surv_no) as Hex.
  destruct (0.01 <? surv_yes - surv_no)%float;
    destruct (0.01 <? surv_no - surv_yes)%float;
    destruct (avg_no <=? avg_yes)%float;
    repeat split; auto; try discriminate; try tauto;
    try (intros [_ H]; discriminate H);
    try (intros [H _]; discriminate H);
    specialize (Hex eq_refl); discriminate.
Qed.

(** Survival rates of 0.4 and 0.9 answer NO by the second branch, whatever
    the averages. *)
Lemma decision_three_branches_witness :
  (0.01 <? 0.4 - 0.9)%float = false /\ (0.01 <? 0.9 - 0.4)%float = true /\
  Binary64.decision 0.4 0.9 70 50 = "NO"%string.
Proof.
  assert (H1 : (0.01 <? 0.4 - 0.9)%float = false) by reflexivity.
  assert (H2 : (0.01 <? 0.9 - 0.4)%float = true) by reflexivity.
  refine (conj H1 (conj H2 _)).
  exact (proj1 (proj2 (proj2 (decision_three_branches 0.4 0.9 70 50))) H1 H2).
Defined.

(** Rates one point apart: the rounded difference of 0.51 and 0.5 is above
    the rounded 0.01, and the first branch answers; on exact numbers the
    difference would be the margin itself and the averages would decide. *)
Lemma one_point_apart :
  (0.01 <? 0.51 - 0.5)%float = true /\
  Binary64.decision 0.51 0.5 0 100 = "YES"%string /\
  decision 0.51 0.5 0 100 = "NO"%string.
Proof. repeat split; reflexivity. Qed.

(** ** Sums and means *)

Lemma length_pos_Q {A : Type} (l : list A) :
  l <> [] -> 0 < inject_Z (Z.of_nat (List.length l)).
Proof.
  intro Hl. destruct l as [| x l]; [congruence |].
  rewrite <- (Zlt_Qlt 0). simpl. lia.
Qed.




Lemma np_sum_map_le {A : Type} (f g : A -> Q) (l : list A) :
  (forall x, In x l -> f x <= g x) -> np_sum (map f l) <= np_sum (map g l).
Proof.
  induction l as [| x l IH]; intro Hfg; simpl; [lra |].
  assert (f x <= g x) by (apply Hfg; now left).
  assert (np_sum (map f l) <= np_sum (map g l))
    by (apply IH; intros y Hy; apply Hfg; now right).
  lra.
Qed.

Lemma np_sum_repeat (x : Q) (n : nat) :
  np_sum (repeat x n) == inject_Z (Z.of_nat n) * x.
Proof.
  induction n as [| n IH].
  - simpl. ring.
  - cbn [repeat np_sum fold_right]. fold (np_sum (repeat x n)).
    rewrite IH, Nat2Z.inj_succ, <- Z.add_1_r, inject_Z_plus. ring.
Qed.

Lemma np_mean_repeat (x : Q) (n : nat) :
  (0 < n)%nat -> np_mean (repeat x n) == x.
Proof.
  intro Hn. unfold np_mean. rewrite repeat_length, np_sum_repeat.
  assert (0 < inject_Z (Z.of_nat n)) by (rewrite <- (Zlt_Qlt 0); lia).
  field. lra.
Qed.



Lemma np_mean_map_le {A : Type} (f g : A -> Q) (l : list A) :
  (forall x, In x l -> f x <= g x) -> np_mean (map f l) <= np_mean (map g l).
Proof.
  intro Hfg. unfold np_mean. rewrite !length_map.
  destruct l as [| x l]; [simpl; lra |].
  assert (Hc : 0 < inject_Z (Z.of_nat (List.length (x :: l))))
    by now apply length_pos_Q.
  apply np_sum_map_le in Hfg.
  unfold Qdiv. apply Qmult_le_compat_r; trivial.
  apply Qlt_le_weak. now apply Qinv_lt_0_compat.
Qed.



Lemma np_mean_bool_repeat (b : bool) (n : nat) :
  (0 < n)%nat -> np_mean_bool (repeat b n) == if b then 1 else 0.
Proof.
  intro Hn. unfold np_mean_bool. rewrite map_repeat.
  now apply np_mean_repeat.
Qed.

Lemma np_mean_bool_map_le {A : Type} (f g : A -> bool) (l : list A) :
  (forall x, In x l -> f x = true -> g x = true) ->
  np_mean_bool (map f l) <= np_mean_bool (map g l).
Proof.
  intro Hfg. unfold np_mean_bool. rewrite !map_map.
  apply np_mean_map_le. intros x Hx.
  specialize (Hfg x Hx). destruct (f x), (g x); try lra.
Qed.

(** ** The two metrics of a run *)


Lemma run_scenarios_traj (initial_energy cost base_decay effective_decay
                          rand_std : Q) (M : list (list Q))
                         (scenarios horizon : Z) (decision : bool) :
  List.length M = Z.to_nat scenarios ->
  run_scenarios initial_energy cost base_decay effective_decay rand_std M
                scenarios horizon decision =
  (np_mean_bool
     (map (fun e => Qlt_bool 0 e)
        (map (fun row => fst (traj_final initial_energy cost base_decay
                                effective_decay rand_std horizon decision
                                row)) M)),
   np_mean
     (map (fun row => fst (traj_final initial_energy cost base_decay
                             effective_decay rand_std horizon decision row))
        M)).
Proof.
  intro Hrows. unfold run_scenarios.
  now rewrite final_state_traj.
Qed.


Lemma traj_ok_nonneg (ea : Q * bool) : traj_ok ea -> 0 <= fst ea.
Proof.
  destruct ea as [e [|]]; unfold traj_ok; cbn [fst snd]; intro H.
  - lra.
  - rewrite H. lra.
Qed.

Lemma rand_std_nonneg (initial_energy risk_frac : Q) :
  0 < initial_energy -> 0 <= risk_frac -> 0 <= 0.1 * initial_energy * risk_frac.
Proof.
  intros Hi Hr. apply Qmult_le_0_compat; trivial.
  apply Qmult_le_0_compat; [discriminate | lra].
Qed.

Section Returns.

Context `{RT : Runtime}.

(** With a scale and dimensions that are not negative the call returns: it
    draws a [scenarios x horizon] matrix and gives the results on it. *)
Lemma simulate_decision_returns
      (initial_energy cost_frac benefit_frac risk_frac : Q)
      (horizon scenarios : Z) (s : rng_state) :
  0 <= 0.1 * initial_energy * risk_frac ->
  (0 <= horizon)%Z -> (0 <= scenarios)%Z ->
  exists (M : list (list Q)) (s' : rng_state),
    drawn_matrix initial_energy cost_frac benefit_frac risk_frac
                 horizon scenarios = (inr M, s') /\
    has_shape (Z.to_nat scenarios) (Z.to_nat horizon) M /\
    simulate_decision initial_energy cost_frac benefit_frac risk_frac
                      horizon scenarios s =
    (inr (results_of initial_energy cost_frac benefit_frac risk_frac
                     horizon scenarios M), s').
Proof.
  intros Hstd Hh Hn.
  destruct (np_random_normal_total 0 (0.1 * initial_energy * risk_frac)
              scenarios horizon
              (rng_of_seed (seed_of initial_energy cost_frac benefit_frac
                                    risk_frac horizon)) Hstd Hn Hh)
    as (M & s' & HM).
  exists M, s'. split; [exact HM |].
  split; [now apply np_random_normal_shape in HM |].
  rewrite simulate_decision_unfold. unfold drawn_matrix. now rewrite HM.
Qed.

(** With a negative [risk_frac] (and a positive energy) the call raises the
    [ValueError] of [np.random.normal]. *)
Lemma simulate_decision_negative_risk
      (initial_energy cost_frac benefit_frac risk_frac : Q)
      (horizon scenarios : Z) (s : rng_state) :
  0 < initial_energy -> risk_frac < 0 ->
  fst (simulate_decision initial_energy cost_frac benefit_frac risk_frac
                         horizon scenarios s) = inl ValueError.
Proof.
  intros Hi Hr. rewrite simulate_decision_unfold. unfold drawn_matrix.
  rewrite np_random_normal_negative_scale; [reflexivity |].
  assert (H : 0 < 0.1 * initial_energy * - risk_frac).
  { apply Qmult_lt_0_compat; [| lra].
    apply Qmult_lt_0_compat; [reflexivity | lra]. }
  setoid_replace (0.1 * initial_energy * risk_frac)
    with (- (0.1 * initial_energy * - risk_frac)) by ring.
  lra.
Qed.

End Returns.

(** ** C8: death is absorbing *)

(** C8.  In a run of [run_scenarios] on a matrix with one row per scenario,
    if scenario [i] has [alive = false] after [k] passes of the loop, then
    after every later pass [k'] its flag is still false and its energy is
    exactly 0; and in any later pass neither the decay of line 50 nor the
    noise of line 53 touches position [i]. *)
Theorem death_is_absorbing
        (initial_energy cost base_decay effective_decay rand_std : Q)
        (M : list (list Q)) (scenarios : Z) (decision : bool)
        (i k k' : nat) :
  List.length M = Z.to_nat scenarios ->
  nth i (snd (state_at initial_energy cost base_decay effective_decay
                       rand_std M scenarios decision k)) true = false ->
  (k <= k')%nat ->
  let st := state_at initial_energy cost base_decay effective_decay
                     rand_std M scenarios decision k' in
  let decay_rate := decay_rate_of base_decay effective_decay decision in
  nth i (snd st) true = false /\
  nth i (fst st) 0 = 0 /\
  forall t : nat,
    nth i (decay_step decay_rate st) 0 = 0 /\
    nth i (noise_step rand_std M t (decay_step decay_rate st, snd st)) 0 = 0 /\
    nth i (fst (step rand_std M decay_rate t st)) 0 = 0 /\
    nth i (snd (step rand_std M decay_rate t st)) true = false.
Proof.
  intros Hrows Hdead Hk st decay_rate.
  set (run := fun ts row =>
         traj_run decay_rate rand_std row ts (traj_init initial_energy cost
                                                        decision)).
  assert (Hat : forall j,
    state_at initial_energy cost base_decay effective_decay rand_std M
             scenarios decision j =
    (map (fun row => fst (run (seq 0 j) row)) M,
     map (fun row => snd (run (seq 0 j) row)) M))
    by (intro j; now apply state_at_traj).
  rewrite Hat in Hdead. cbn [snd] in Hdead.
  assert (Hi : (i < List.length M)%nat)
    by (apply (nth_flag_lt _ _ _ false) in Hdead; exact Hdead).
  rewrite (nth_map_lt _ _ _ _ []) in Hdead by assumption.
  assert (Hrun : run (seq 0 k') (nth i M []) = run (seq 0 k) (nth i M [])).
  { replace k' with (k + (k' - k))%nat by lia.
    rewrite seq_app. unfold run. rewrite traj_run_app.
    now apply traj_run_dead'. }
  assert (Hzero : fst (run (seq 0 k) (nth i M [])) = 0).
  { apply (traj_run_dead_zero decay_rate rand_std (nth i M []) (seq 0 k));
      trivial. apply traj_init_dead_zero. }
  assert (Hflag : nth i (snd st) true = false).
  { unfold st. rewrite Hat. cbn [snd].
    rewrite (nth_map_lt _ _ _ _ []) by assumption. now rewrite Hrun. }
  assert (Hen : nth i (fst st) 0 = 0).
  { unfold st. rewrite Hat. cbn [fst].
    rewrite (nth_map_lt _ _ _ _ []) by assumption. now rewrite Hrun. }
  split; [exact Hflag |]. split; [exact Hen |].
  intro t.
  assert (Hdecay : nth i (decay_step decay_rate st) 0 = 0).
  { unfold decay_step. destruct st as [E alive]. cbn [fst snd] in *.
    now rewrite mask_set_dead. }
  assert (Hnoise :
    nth i (noise_step rand_std M t (decay_step decay_rate st, snd st)) 0 = 0).
  { unfold noise_step. destruct (Qlt_bool 0 rand_std); trivial.
    now rewrite mask_set_dead. }
  split; [exact Hdecay |]. split; [exact Hnoise |].
  unfold step. rewrite death_step_fill. cbv zeta. cbn [fst snd].
  split.
  - rewrite mask_fill_dead; trivial. now apply map2_andb_dead.
  - now apply mask_fill_flag_dead.
Qed.

Lemma death_is_absorbing_witness :
  List.length [[-200; 50; 50]] = Z.to_nat 1 /\
  nth 0 (snd (state_at 100 0 0.05 0.05 1 [[-200; 50; 50]] 1 false 1)) true
    = false /\
  (1 <= 3)%nat /\
  nth 0 (fst (state_at 100 0 0.05 0.05 1 [[-200; 50; 50]] 1 false 3)) 0 = 0.
Proof.
  assert (H1 : List.length [[-200; 50; 50]] = Z.to_nat 1) by reflexivity.
  assert (H2 : nth 0 (snd (state_at 100 0 0.05 0.05 1 [[-200; 50; 50]] 1
                                    false 1)) true = false) by reflexivity.
  assert (H3 : (1 <= 3)%nat) by lia.
  refine (conj H1 (conj H2 (conj H3 _))).
  exact (proj1 (proj2 (death_is_absorbing 100 0 0.05 0.05 1 [[-200; 50; 50]]
                                          1 false 0 1 3 H1 H2 H3))).
Defined.

(** ** The call on binary64, when a product overflows *)

Section Binary64Call.

Context `{RT : Binary64.Runtime}.




End Binary64Call.

(** ** C10: the ranges of the outputs *)





(** ** Runs whose trajectories are all the same *)

Lemma map_const {A B : Type} (c : B) (l : list A) :
  map (fun _ => c) l = repeat c (List.length l).
Proof. induction l; simpl; congruence. Qed.

Lemma traj_step_no_noise (k std x : Q) (ea : Q * bool) :
  Qlt_bool 0 std = false -> traj_step k std x ea = traj_step k std 0 ea.
Proof. intro Hstd. destruct ea as [e a]. unfold traj_step. now rewrite Hstd. Qed.

Lemma traj_run_no_noise (k std : Q) (row : list Q) (ts : list nat) :
  Qlt_bool 0 std = false ->
  forall ea, traj_run k std row ts ea = traj_run k std [] ts ea.
Proof.
  intro Hstd. unfold traj_run.
  induction ts as [| t ts IH]; intro ea; simpl; trivial.
  rewrite IH. f_equal.
  rewrite (traj_step_no_noise k std (nth t row 0)) by assumption.
  destruct t; reflexivity.
Qed.

(** When every row gives the same last pair [ea], the survival rate is 1 or
    0 as [ea] has positive energy or not, and the average is its energy. *)
Lemma run_scenarios_const (initial_energy cost base_decay effective_decay
                           rand_std : Q) (M : list (list Q))
                          (scenarios horizon : Z) (decision : bool)
                          (ea : Q * bool) :
  List.length M = Z.to_nat scenarios -> (1 <= scenarios)%Z ->
  (forall row, traj_final initial_energy cost base_decay effective_decay
                          rand_std horizon decision row = ea) ->
  final_state initial_energy cost base_decay effective_decay rand_std M
              scenarios horizon decision =
    (repeat (fst ea) (Z.to_nat scenarios),
     repeat (snd ea) (Z.to_nat scenarios)) /\
  fst (run_scenarios initial_energy cost base_decay effective_decay rand_std
                     M scenarios horizon decision)
    == (if Qlt_bool 0 (fst ea) then 1 else 0) /\
  snd (run_scenarios initial_energy cost base_decay effective_decay rand_std
                     M scenarios horizon decision) == fst ea.
Proof.
  intros Hrows Hn Hconst.
  assert (Hpos : (0 < Z.to_nat scenarios)%nat) by lia.
  assert (HE : map (fun row => fst (traj_final initial_energy cost base_decay
                      effective_decay rand_std horizon decision row)) M
               = repeat (fst ea) (Z.to_nat scenarios)).
  { rewrite <- Hrows, <- map_const. apply map_ext. intro row.
    now rewrite Hconst. }
  assert (HA : map (fun row => snd (traj_final initial_energy cost base_decay
                      effective_decay rand_std horizon decision row)) M
               = repeat (snd ea) (Z.to_nat scenarios)).
  { rewrite <- Hrows, <- map_const. apply map_ext. intro row.
    now rewrite Hconst. }
  split; [| split].
  - rewrite final_state_traj by assumption. now rewrite HE, HA.
  - rewrite run_scenarios_traj by assumption. cbn [fst].
    rewrite HE, map_repeat. now apply np_mean_bool_repeat.
  - rewrite run_scenarios_traj by assumption. cbn [snd].
    rewrite HE. now apply np_mean_repeat.
Qed.

(** ** C5: the cost that takes everything *)

Lemma traj_init_all_cost (initial_energy cost_frac : Q) :
  cost_frac == 1 ->
  traj_init initial_energy (initial_energy * cost_frac) true = (0, false).
Proof.
  intro Hc. unfold traj_init.
  assert (Hle : initial_energy - initial_energy * cost_frac <= 0)
    by (rewrite Hc; lra).
  apply Qle_bool_iff in Hle. now rewrite Hle.
Qed.

(** C5, as the code has it.  For [initial_energy > 0], [horizon >= 0],
    [scenarios >= 1], any [benefit_frac] and [risk_frac >= 0]: if
    [cost_frac = 1] the call returns [survival_yes = 0] and [avg_yes = 0].
    Before the loop of the YES-run every energy is 0 and every flag false,
    and the loop leaves at once: the arrays at its end are those at its
    start. *)
Theorem immediate_death `{RT : Runtime}
        (initial_energy cost_frac benefit_frac risk_frac : Q)
        (horizon scenarios : Z) (s : rng_state) :
  0 < initial_energy -> (0 <= horizon)%Z -> (1 <= scenarios)%Z ->
  0 <= risk_frac -> cost_frac == 1 ->
  exists (M : list (list Q)) (q : Q * Q * Q * Q) (s' : rng_state),
    drawn_matrix initial_energy cost_frac benefit_frac risk_frac
                 horizon scenarios = (inr M, s') /\
    simulate_decision initial_energy cost_frac benefit_frac risk_frac
                      horizon scenarios s = (inr q, s') /\
    survival_yes q == 0 /\ avg_yes q == 0 /\
    start_arrays initial_energy cost_frac scenarios true =
      (repeat 0 (Z.to_nat scenarios), repeat false (Z.to_nat scenarios)) /\
    np_any (snd (start_arrays initial_energy cost_frac scenarios true))
      = false /\
    final_arrays initial_energy cost_frac benefit_frac risk_frac horizon
                 scenarios M true =
      start_arrays initial_energy cost_frac scenarios true.
Proof.
  intros Hinit Hh Hn Hrisk Hc.
  destruct (simulate_decision_returns initial_energy cost_frac benefit_frac
              risk_frac horizon scenarios s)
    as (M & s' & HM & [Hrows _] & Hcall);
    [now apply rand_std_nonneg | assumption | lia |].
  exists M, (results_of initial_energy cost_frac benefit_frac risk_frac
                        horizon scenarios M), s'.
  split; [exact HM |]. split; [exact Hcall |].
  assert (Hstart : start_arrays initial_energy cost_frac scenarios true =
            (repeat 0 (Z.to_nat scenarios), repeat false (Z.to_nat scenarios))).
  { unfold start_arrays. rewrite init_state_repeat.
    rewrite traj_init_all_cost by assumption.
    now rewrite !map_repeat. }
  destruct (run_scenarios_const initial_energy (initial_energy * cost_frac)
              0.05 (py_max 0 (0.05 * (1 - benefit_frac)))
              (0.1 * initial_energy * risk_frac) M scenarios horizon true
              (0, false) Hrows Hn) as (Hfinal & Hsurv & Havg).
  { intro row. unfold traj_final.
    rewrite traj_init_all_cost by assumption. apply traj_run_dead. }
  unfold survival_yes, avg_yes, results_of, run_with. cbn [fst snd].
  split; [exact Hsurv |]. split; [exact Havg |].
  split; [exact Hstart |].
  split.
  - rewrite Hstart. cbn [snd]. apply np_any_repeat_false.
  - unfold final_arrays. now rewrite Hfinal, Hstart.
Qed.

Lemma immediate_death_witness :
  0 < 100 /\ (0 <= 10)%Z /\ (1 <= 3)%Z /\ 0 <= 0.5 /\ 1 == 1 /\
  exists (M : list (list Q)) (q : Q * Q * Q * Q) (s' : Z),
    drawn_matrix (RT := Toy.runtime) 100 1 0.5 0.5 10 3 = (inr M, s') /\
    simulate_decision (RT := Toy.runtime) 100 1 0.5 0.5 10 3 0%Z
      = (inr q, s') /\
    survival_yes q == 0 /\ avg_yes q == 0 /\
    start_arrays 100 1 3 true =
      (repeat 0 (Z.to_nat 3), repeat false (Z.to_nat 3)) /\
    np_any (snd (start_arrays 100 1 3 true)) = false /\
    final_arrays 100 1 0.5 0.5 10 3 M true = start_arrays 100 1 3 true.
Proof.
  assert (H1 : 0 < 100) by reflexivity.
  assert (H2 : (0 <= 10)%Z) by lia.
  assert (H3 : (1 <= 3)%Z) by lia.
  assert (H4 : 0 <= 0.5) by (unfold Qle; simpl; lia).
  assert (H5 : 1 == 1) by reflexivity.
  refine (conj H1 (conj H2 (conj H3 (conj H4 (conj H5 _))))).
  exact (immediate_death (RT := Toy.runtime) 100 1 0.5 0.5 10 3 0%Z
                         H1 H2 H3 H4 H5).
Defined.

(** With [cost_frac = 1] and a negative [risk_frac] the call returns no
    quadruple: the scale of line 27 is negative and [np.random.normal]
    raises. *)
Lemma immediate_death_negative_risk :
  fst (simulate_decision (RT := Toy.runtime) 100 1 0.5 (-1) 10 1 0%Z)
    = inl ValueError /\
  ~ (exists q : Q * Q * Q * Q,
        fst (simulate_decision (RT := Toy.runtime) 100 1 0.5 (-1) 10 1 0%Z)
          = inr q /\
        survival_yes q == 0 /\ avg_yes q == 0).
Proof.
  assert (Herr : fst (simulate_decision (RT := Toy.runtime)
                        100 1 0.5 (-1) 10 1 0%Z) = inl ValueError)
    by reflexivity.
  split; [exact Herr |].
  intros (q & Hq & _). rewrite Herr in Hq. discriminate.
Qed.

(** ** C6: the horizon 0 *)




(** ** C7: no risk, no noise *)

(** C7.  For [horizon >= 0] and [scenarios >= 1] (and so for every
    [initial_energy > 0]), any [cost_frac] and [benefit_frac]: if
    [risk_frac = 0] the call returns, the standard deviation of the noise is
    0, line 53 never adds anything, after every pass of either run all
    scenarios hold the same energy and the same flag, and each of the two
    survival rates is exactly 0 or exactly 1. *)
Theorem zero_risk `{RT : Runtime}
        (initial_energy cost_frac benefit_frac risk_frac : Q)
        (horizon scenarios : Z) (s : rng_state) :
  (0 <= horizon)%Z -> (1 <= scenarios)%Z -> risk_frac == 0 ->
  exists (M : list (list Q)) (q : Q * Q * Q * Q) (s' : rng_state),
    drawn_matrix initial_energy cost_frac benefit_frac risk_frac
                 horizon scenarios = (inr M, s') /\
    simulate_decision initial_energy cost_frac benefit_frac risk_frac
                      horizon scenarios s = (inr q, s') /\
    0.1 * initial_energy * risk_frac == 0 /\
    (forall (t : nat) (st : run_state),
        noise_step (0.1 * initial_energy * risk_frac) M t st = fst st) /\
    (forall (decision : bool) (k : nat),
        exists (e : Q) (a : bool),
          arrays_at initial_energy cost_frac benefit_frac risk_frac
                    scenarios M decision k =
          (repeat e (Z.to_nat scenarios), repeat a (Z.to_nat scenarios))) /\
    (survival_yes q == 0 \/ survival_yes q == 1) /\
    (survival_no q == 0 \/ survival_no q == 1).
Proof.
  intros Hh Hn Hrisk.
  assert (Hstd : 0.1 * initial_energy * risk_frac == 0)
    by (rewrite Hrisk; ring).
  assert (Hoff : Qlt_bool 0 (0.1 * initial_energy * risk_frac) = false)
    by (apply Qlt_bool_false; lra).
  destruct (simulate_decision_returns initial_energy cost_frac benefit_frac
              risk_frac horizon scenarios s)
    as (M & s' & HM & [Hrows _] & Hcall); [lra | assumption | lia |].
  exists M, (results_of initial_energy cost_frac benefit_frac risk_frac
                        horizon scenarios M), s'.
  split; [exact HM |]. split; [exact Hcall |]. split; [exact Hstd |].
  split.
  { intros t [E alive]. unfold noise_step. now rewrite Hoff. }
  split.
  { intros decision k. unfold arrays_at.
    rewrite state_at_traj by assumption.
    set (ea := traj_run (decay_rate_of 0.05
                           (py_max 0 (0.05 * (1 - benefit_frac))) decision)
                        (0.1 * initial_energy * risk_frac) [] (seq 0 k)
                        (traj_init initial_energy
                                   (initial_energy * cost_frac) decision)).
    exists (fst ea), (snd ea).
    rewrite <- Hrows, <- !map_const.
    f_equal; apply map_ext; intro row;
      now rewrite traj_run_no_noise by assumption. }
  assert (Hrun : forall decision,
    fst (run_with initial_energy cost_frac benefit_frac risk_frac horizon
                  scenarios M decision) == 0 \/
    fst (run_with initial_energy cost_frac benefit_frac risk_frac horizon
                  scenarios M decision) == 1).
  { intro decision. unfold run_with.
    destruct (run_scenarios_const initial_energy
                (initial_energy * cost_frac) 0.05
                (py_max 0 (0.05 * (1 - benefit_frac)))
                (0.1 * initial_energy * risk_frac) M scenarios horizon
                decision
                (traj_final initial_energy (initial_energy * cost_frac) 0.05
                   (py_max 0 (0.05 * (1 - benefit_frac)))
                   (0.1 * initial_energy * risk_frac) horizon decision [])
                Hrows Hn) as (_ & Hsurv & _).
    { intro row. unfold traj_final. now apply traj_run_no_noise. }
    destruct (Qlt_bool 0 _) in Hsurv; [right | left]; exact Hsurv. }
  unfold survival_yes, survival_no, results_of. cbn [fst snd].
  split; apply Hrun.
Qed.

Lemma zero_risk_witness :
  (0 <= 10)%Z /\ (1 <= 3)%Z /\ 0 == 0 /\
  exists (M : list (list Q)) (q : Q * Q * Q * Q) (s' : Z),
    drawn_matrix (RT := Toy.runtime) 100 0.2 0.5 0 10 3 = (inr M, s') /\
    simulate_decision (RT := Toy.runtime) 100 0.2 0.5 0 10 3 0%Z
      = (inr q, s') /\
    0.1 * 100 * 0 == 0 /\
    (forall (t : nat) (st : run_state),
        noise_step (0.1 * 100 * 0) M t st = fst st) /\
    (forall (decision : bool) (k : nat),
        exists (e : Q) (a : bool),
          arrays_at 100 0.2 0.5 0 3 M decision k =
          (repeat e (Z.to_nat 3), repeat a (Z.to_nat 3))) /\
    (survival_yes q == 0 \/ survival_yes q == 1) /\
    (survival_no q == 0 \/ survival_no q == 1).
Proof.
  assert (H1 : (0 <= 10)%Z) by lia.
  assert (H2 : (1 <= 3)%Z) by lia.
  assert (H3 : 0 == 0) by reflexivity.
  refine (conj H1 (conj H2 (conj H3 _))).
  exact (zero_risk (RT := Toy.runtime) 100 0.2 0.5 0 10 3 0%Z H1 H2 H3).
Defined.

(** ** C9: the scenario of the specification *)

(** C9, as the code has it.  For [initial_energy = 100], [cost_frac = 0.2],
    [benefit_frac = 0.5], [risk_frac = 0], [horizon = 10], [scenarios = 1]:
    the YES-run starts from energy 80 with decay rate 0.025; the call returns
    both survival rates equal to 1, [avg_no = 100 * 0.95^10], which is 59.87
    to two decimals, and [avg_yes = 80 * 0.975^10], which is 62.11 to two
    decimals (62.106..., not 62.19); neither survival margin exceeds 0.01,
    [avg_yes >= avg_no], and the rule answers YES by its third branch. *)
Theorem concrete_scenario `{RT : Runtime} (s : rng_state) :
  exists (q : Q * Q * Q * Q) (s' : rng_state),
    simulate_decision 100 0.2 0.5 0 10 1 s = (inr q, s') /\
    start_arrays 100 0.2 1 true = ([80.0], [true]) /\
    rate_of 0.5 true = 0.025 /\
    survival_yes q == 1 /\ survival_no q == 1 /\
    avg_no q == 100 * 0.95 ^ 10 /\
    avg_yes q == 80 * 0.975 ^ 10 /\
    59.87 <= avg_no q < 59.88 /\
    62.10 <= avg_yes q < 62.11 /\
    ~ 0.01 < survival_yes q - survival_no q /\
    ~ 0.01 < survival_no q - survival_yes q /\
    avg_no q <= avg_yes q /\
    decision (survival_yes q) (survival_no q) (avg_yes q) (avg_no q)
      = "YES"%string.
Proof.
  destruct (simulate_decision_returns 100 0.2 0.5 0 10 1 s)
    as (M & s' & HM & [Hrows _] & Hcall); [discriminate | lia | lia |].
  exists (results_of 100 0.2 0.5 0 10 1 M), s'.
  split; [exact Hcall |].
  split; [reflexivity |]. split; [reflexivity |].
  assert (Hrun : forall decision,
    let ea := traj_final 100 (100 * 0.2) 0.05
                (py_max 0 (0.05 * (1 - 0.5))) (0.1 * 100 * 0) 10 decision []
    in
    fst (run_with 100 0.2 0.5 0 10 1 M decision)
      == (if Qlt_bool 0 (fst ea) then 1 else 0) /\
    snd (run_with 100 0.2 0.5 0 10 1 M decision) == fst ea).
  { intros decision ea. unfold run_with.
    assert (Hconst : forall row,
      traj_final 100 (100 * 0.2) 0.05 (py_max 0 (0.05 * (1 - 0.5)))
                 (0.1 * 100 * 0) 10 decision row = ea).
    { intro row. unfold ea, traj_final. now apply traj_run_no_noise. }
    apply run_scenarios_const; trivial; lia. }
  unfold survival_yes, survival_no, avg_yes, avg_no, results_of.
  cbn [fst snd].
  destruct (Hrun true) as [Hsy Hay]. destruct (Hrun false) as [Hsn Han].
  cbv zeta in Hsy, Hay, Hsn, Han.
  assert (Hyes : fst (traj_final 100 (100 * 0.2) 0.05
                        (py_max 0 (0.05 * (1 - 0.5))) (0.1 * 100 * 0) 10
                        true []) == 80 * 0.975 ^ 10)
    by (vm_compute; reflexivity).
  assert (Hno : fst (traj_final 100 (100 * 0.2) 0.05
                       (py_max 0 (0.05 * (1 - 0.5))) (0.1 * 100 * 0) 10
                       false []) == 100 * 0.95 ^ 10)
    by (vm_compute; reflexivity).
  assert (Hy1 : 62.10 <= 80 * 0.975 ^ 10) by (vm_compute; discriminate).
  assert (Hy2 : 80 * 0.975 ^ 10 < 62.11) by reflexivity.
  assert (Hn1 : 59.87 <= 100 * 0.95 ^ 10) by (vm_compute; discriminate).
  assert (Hn2 : 100 * 0.95 ^ 10 < 59.88) by reflexivity.
  rewrite Hyes in Hay. rewrite Hno in Han.
  change (Qlt_bool 0 (fst (traj_final 100 (100 * 0.2) 0.05
            (py_max 0 (0.05 * (1 - 0.5))) (0.1 * 100 * 0) 10 true [])))
    with true in Hsy.
  change (Qlt_bool 0 (fst (traj_final 100 (100 * 0.2) 0.05
            (py_max 0 (0.05 * (1 - 0.5))) (0.1 * 100 * 0) 10 false [])))
    with true in Hsn.
  set (sy := fst (run_with 100 0.2 0.5 0 10 1 M true)) in *.
  set (sn := fst (run_with 100 0.2 0.5 0 10 1 M false)) in *.
  set (ay := snd (run_with 100 0.2 0.5 0 10 1 M true)) in *.
  set (an := snd (run_with 100 0.2 0.5 0 10 1 M false)) in *.
  set (vy := 80 * 0.975 ^ 10) in *. set (vn := 100 * 0.95 ^ 10) in *.
  assert (H1 : ~ 0.01 < sy - sn) by lra.
  assert (H2 : ~ 0.01 < sn - sy) by lra.
  assert (H3 : an <= ay) by lra.
  assert (Hd : decision sy sn ay an = "YES"%string)
    by now apply decision_tiebreak_yes.
  repeat split; trivial; lra.
Qed.

(** The YES-run of the scenario does not end near 62.19: its average energy
    is below 62.11. *)
Lemma concrete_scenario_not_62_19 :
  exists q : Q * Q * Q * Q,
    fst (simulate_decision (RT := Toy.runtime) 100 0.2 0.5 0 10 1 0%Z)
      = inr q /\
    avg_yes q == 80 * 0.975 ^ 10 /\
    avg_yes q < 62.11 /\
    ~ (62.185 <= avg_yes q < 62.195).
Proof.
  eexists. split; [vm_compute; reflexivity |].
  split; [vm_compute; reflexivity |].
  split; [reflexivity |].
  intros [Hlo _]. revert Hlo. vm_compute. intro H. now apply H.
Qed.

(** ** C4: the cost and the results of the YES-run *)

Lemma traj_ok_alive (ea : Q * bool) : traj_ok ea -> 0 < fst ea -> snd ea = true.
Proof.
  destruct ea as [e [|]]; unfold traj_ok; cbn [fst snd]; trivial.
  intros -> H. discriminate H.
Qed.

(** One pass keeps the order of two energies, when the factor [1 - decay_rate]
    is not negative or no noise is added. *)
Lemma traj_step_mono (k std x : Q) (ea ea' : Q * bool) :
  (Qlt_bool 0 std = true -> k <= 1) ->
  traj_ok ea -> traj_ok ea' -> fst ea <= fst ea' ->
  fst (traj_step k std x ea) <= fst (traj_step k std x ea').
Proof.
  intros Hk Hok Hok' Hle.
  destruct ea as [e [|]].
  - assert (He : 0 < e) by exact Hok.
    assert (Ha' : snd ea' = true)
      by (apply traj_ok_alive; trivial; cbn [fst] in Hle; lra).
    destruct ea' as [e' a']. cbn [fst snd] in *. subst a'.
    unfold traj_step.
    destruct (Qlt_bool 0 std) eqn:Hstd.
    + specialize (Hk eq_refl).
      assert (Hm : e * (1 - k) <= e' * (1 - k))
        by (apply Qmult_le_compat_r; lra).
      destruct (Qle_bool (e * (1 - k) + x) 0) eqn:H1;
        destruct (Qle_bool (e' * (1 - k) + x) 0) eqn:H2;
        qbool; cbn [fst]; lra.
    + destruct (Qlt_le_dec k 1) as [Hlt | Hge].
      * assert (Hm : e * (1 - k) <= e' * (1 - k))
          by (apply Qmult_le_compat_r; lra).
        destruct (Qle_bool (e * (1 - k)) 0) eqn:H1;
          destruct (Qle_bool (e' * (1 - k)) 0) eqn:H2;
          qbool; cbn [fst]; lra.
      * assert (Hm : 0 <= e' * (k - 1))
          by (apply Qmult_le_0_compat; lra).
        assert (H2 : Qle_bool (e' * (1 - k)) 0 = true).
        { apply Qle_bool_iff.
          setoid_replace (e' * (1 - k)) with (- (e' * (k - 1))) by ring.
          lra. }
        rewrite H2. cbn [fst].
        destruct (Qle_bool (e * (1 - k)) 0) eqn:H1; qbool; cbn [fst]; [lra |].
        assert (Hm' : 0 <= e * (k - 1)) by (apply Qmult_le_0_compat; lra).
        setoid_replace (e * (1 - k)) with (- (e * (k - 1))) in H1 by ring.
        lra.
  - assert (He : e = 0) by exact Hok. subst e.
    cbn [traj_step fst].
    apply traj_ok_nonneg. now apply traj_step_ok.
Qed.

Lemma traj_run_mono (k std : Q) (row : list Q) (ts : list nat) :
  (Qlt_bool 0 std = true -> k <= 1) ->
  forall ea ea' : Q * bool,
    traj_ok ea -> traj_ok ea' -> fst ea <= fst ea' ->
    fst (traj_run k std row ts ea) <= fst (traj_run k std row ts ea').
Proof.
  intro Hk. unfold traj_run.
  induction ts as [| t ts IH]; intros ea ea' Hok Hok' Hle; simpl; trivial.
  apply IH; try now apply traj_step_ok.
  now apply traj_step_mono.
Qed.

Lemma traj_init_yes_ok (initial_energy cost : Q) :
  traj_ok (traj_init initial_energy cost true).
Proof.
  unfold traj_init, traj_ok.
  destruct (Qle_bool _ 0) eqn:Hle; cbn [fst snd]; trivial. now qbool.
Qed.

Lemma traj_init_mono (initial_energy cost cost' : Q) :
  cost <= cost' ->
  fst (traj_init initial_energy cost' true)
    <= fst (traj_init initial_energy cost true).
Proof.
  intro Hc. unfold traj_init.
  destruct (Qle_bool (initial_energy - cost') 0) eqn:H1;
    destruct (Qle_bool (initial_energy - cost) 0) eqn:H2;
    qbool; cbn [fst]; lra.
Qed.

(** A larger cost never gives a trajectory more final energy, on one row of
    noise. *)
Lemma traj_final_cost_mono (initial_energy cost cost' base_decay
                            effective_decay rand_std : Q) (horizon : Z)
                           (row : list Q) :
  (Qlt_bool 0 rand_std = true -> effective_decay <= 1) ->
  cost <= cost' ->
  fst (traj_final initial_energy cost' base_decay effective_decay rand_std
                  horizon true row)
    <= fst (traj_final initial_energy cost base_decay effective_decay
                       rand_std horizon true row).
Proof.
  intros Hk Hc. unfold traj_final.
  apply traj_run_mono; trivial; try apply traj_init_yes_ok.
  now apply traj_init_mono.
Qed.

(** On one and the same noise matrix the YES-run is monotone in the cost,
    when the factor [1 - effective_decay] is not negative or no noise is
    added. *)
Lemma run_scenarios_cost_mono (initial_energy cost cost' base_decay
                               effective_decay rand_std : Q)
                              (M : list (list Q)) (scenarios horizon : Z) :
  List.length M = Z.to_nat scenarios ->
  (Qlt_bool 0 rand_std = true -> effective_decay <= 1) ->
  cost <= cost' ->
  fst (run_scenarios initial_energy cost' base_decay effective_decay rand_std
                     M scenarios horizon true)
    <= fst (run_scenarios initial_energy cost base_decay effective_decay
                          rand_std M scenarios horizon true) /\
  snd (run_scenarios initial_energy cost' base_decay effective_decay rand_std
                     M scenarios horizon true)
    <= snd (run_scenarios initial_energy cost base_decay effective_decay
                          rand_std M scenarios horizon true).
Proof.
  intros Hrows Hk Hc.
  rewrite !run_scenarios_traj by assumption. cbn [fst snd].
  assert (Hrow : forall row,
    fst (traj_final initial_energy cost' base_decay effective_decay rand_std
                    horizon true row)
      <= fst (traj_final initial_energy cost base_decay effective_decay
                         rand_std horizon true row))
    by (intro row; now apply traj_final_cost_mono).
  split.
  - rewrite !map_map. apply np_mean_bool_map_le.
    intros row _ Hpos. specialize (Hrow row). qbool.
    apply Qlt_bool_true. lra.
  - apply np_mean_map_le. intros row _. apply Hrow.
Qed.






(** The code by itself does not order two calls that read noise: the seed,
    and so the matrix, changes with [cost_frac].  On the small runtime
    [Toy.runtime] the call with the larger cost draws the kinder matrix, and
    both its [survival_yes] and its [avg_yes] are larger; what the two calls
    return with the generator of numpy is decided by its draws. *)
Lemma cost_monotonicity_fails_with_noise :
  exists q1 q2 : Q * Q * Q * Q,
    fst (simulate_decision (RT := Toy.runtime) 100 0 0 1 20 1 0%Z) = inr q1 /\
    fst (simulate_decision (RT := Toy.runtime) 100 0.1 0 1 20 1 0%Z)
      = inr q2 /\
    0 <= 0.1 /\
    seed_of (RT := Toy.runtime) 100 0 0 1 20
      <> seed_of (RT := Toy.runtime) 100 0.1 0 1 20 /\
    fst (drawn_matrix (RT := Toy.runtime) 100 0 0 1 20 1)
      <> fst (drawn_matrix (RT := Toy.runtime) 100 0.1 0 1 20 1) /\
    ~ survival_yes q2 <= survival_yes q1 /\
    ~ avg_yes q2 <= avg_yes q1.
Proof.
  eexists. eexists.
  split; [vm_compute; reflexivity |].
  split; [vm_compute; reflexivity |].
  split; [discriminate |].
  split; [vm_compute; discriminate |].
  split; [vm_compute; discriminate |].
  split; vm_compute; intro H; now apply H.
Qed.

(** Even on one matrix the order can turn when [1 - effective_decay] is
    negative ([benefit_frac < -19]) and noise is added: the larger cost
    leaves less energy to be turned negative. *)
Lemma cost_mono_fails_with_negative_factor :
  ~ fst (run_scenarios 100 60 0.05 2 1 [[70]] 1 1 true)
      <= fst (run_scenarios 100 0 0.05 2 1 [[70]] 1 1 true) /\
  ~ snd (run_scenarios 100 60 0.05 2 1 [[70]] 1 1 true)
      <= snd (run_scenarios 100 0 0.05 2 1 [[70]] 1 1 true).
Proof.
  split; vm_compute; intro H; now apply H.
Qed.

(** * Further properties of the engine *)

(** ** When the call raises *)

(** X1.  [simulate_decision] raises [ValueError] when the standard deviation
    [0.1 * initial_energy * risk_frac] is negative, when [horizon] is
    negative or when [scenarios] is negative, and then leaves the generator
    in the state of the seed; when none of the three is negative it returns
    a quadruple. *)
Theorem simulate_decision_raises_or_returns `{RT : Runtime}
        (initial_energy cost_frac benefit_frac risk_frac : Q)
        (horizon scenarios : Z) (s : rng_state) :
  (0.1 * initial_energy * risk_frac < 0 \/ (horizon < 0)%Z \/
   (scenarios < 0)%Z ->
   simulate_decision initial_energy cost_frac benefit_frac risk_frac
                     horizon scenarios s =
   (inl ValueError,
    rng_of_seed (seed_of initial_energy cost_frac benefit_frac risk_frac
                         horizon))) /\
  (0 <= 0.1 * initial_energy * risk_frac -> (0 <= horizon)%Z ->
   (0 <= scenarios)%Z ->
   exists (q : Q * Q * Q * Q) (s' : rng_state),
     simulate_decision initial_energy cost_frac benefit_frac risk_frac
                       horizon scenarios s = (inr q, s')).
Proof.
  split.
  - intro Hbad. rewrite simulate_decision_unfold.
    unfold drawn_matrix, np_random_normal. cbn [fst snd].
    destruct (Qlt_bool (0.1 * initial_energy * risk_frac) 0) eqn:Hstd;
      [reflexivity |].
    apply Qlt_bool_false in Hstd.
    destruct Hbad as [Hneg | Hdim]; [lra |].
    assert (Hb : ((scenarios <? 0) || (horizon <? 0))%Z = true).
    { apply orb_true_iff. destruct Hdim as [Hh | Hn];
        [right | left]; now apply Z.ltb_lt. }
    now rewrite Hb.
  - intros Hstd Hh Hn.
    destruct (simulate_decision_returns initial_energy cost_frac benefit_frac
                risk_frac horizon scenarios s Hstd Hh Hn)
      as (M & s' & _ & _ & Hcall).
    now exists (results_of initial_energy cost_frac benefit_frac risk_frac
                           horizon scenarios M), s'.
Qed.

Lemma simulate_decision_raises_or_returns_witness :
  (0.1 * 100 * 0.3 < 0 \/ (-5 < 0)%Z \/ (1000 < 0)%Z) /\
  simulate_decision (RT := Toy.runtime) 100 0.2 0.5 0.3 (-5) 1000 7%Z =
  (inl ValueError, seed_of (RT := Toy.runtime) 100 0.2 0.5 0.3 (-5)).
Proof.
  assert (H : 0.1 * 100 * 0.3 < 0 \/ (-5 < 0)%Z \/ (1000 < 0)%Z)
    by (right; left; lia).
  refine (conj H _).
  exact (proj1 (simulate_decision_raises_or_returns (RT := Toy.runtime)
                  100 0.2 0.5 0.3 (-5) 1000 7%Z) H).
Defined.

(** ** An action that costs nothing *)

(** One pass keeps a trajectory with more energy and a smaller decay rate
    ahead of one with less energy and a larger rate, on the same noise. *)
Lemma traj_step_ahead (k k' std x : Q) (ea ea' : Q * bool) :
  k' <= k -> k <= 1 ->
  traj_ok ea -> traj_ok ea' -> fst ea <= fst ea' ->
  fst (traj_step k std x ea) <= fst (traj_step k' std x ea').
Proof.
  intros Hkk Hk Hok Hok' Hle.
  destruct ea as [e [|]].
  - assert (He : 0 < e) by exact Hok.
    assert (Ha' : snd ea' = true)
      by (apply traj_ok_alive; trivial; cbn [fst] in Hle; lra).
    destruct ea' as [e' a']. cbn [fst snd] in *. subst a'.
    assert (H1 : e * (1 - k) <= e' * (1 - k))
      by (apply Qmult_le_compat_r; lra).
    assert (H2 : e' * (1 - k) <= e' * (1 - k'))
      by (apply Qmult_le_l; lra).
    unfold traj_step.
    destruct (Qlt_bool 0 std);
      match goal with
      | |- context [Qle_bool ?u 0] =>
          destruct (Qle_bool u 0) eqn:B1
      end;
      match goal with
      | |- context [Qle_bool ?v 0] =>
          destruct (Qle_bool v 0) eqn:B2
      end; qbool; cbn [fst]; lra.
  - assert (He : e = 0) by exact Hok. subst e.
    cbn [traj_step fst].
    apply traj_ok_nonneg. now apply traj_step_ok.
Qed.

Lemma traj_run_ahead (k k' std : Q) (row : list Q) (ts : list nat) :
  k' <= k -> k <= 1 ->
  forall ea ea' : Q * bool,
    traj_ok ea -> traj_ok ea' -> fst ea <= fst ea' ->
    fst (traj_run k std row ts ea) <= fst (traj_run k' std row ts ea').
Proof.
  intros Hkk Hk. unfold traj_run.
  induction ts as [| t ts IH]; intros ea ea' Hok Hok' Hle; simpl; trivial.
  apply IH; try now apply traj_step_ok.
  now apply traj_step_ahead.
Qed.

Lemma effective_decay_le_base (benefit_frac : Q) :
  0 <= benefit_frac -> py_max 0 (0.05 * (1 - benefit_frac)) <= 0.05.
Proof.
  intro Hb. unfold py_max.
  destruct (Qlt_bool 0 (0.05 * (1 - benefit_frac))); lra.
Qed.

(** With YES ahead of NO in both metrics the rule answers YES. *)
Lemma decision_yes_ahead (surv_yes surv_no avg_yes avg_no : Q) :
  surv_no <= surv_yes -> avg_no <= avg_yes ->
  decision surv_yes surv_no avg_yes avg_no = "YES"%string.
Proof.
  intros Hs Ha. unfold decision.
  destruct (Qlt_bool 0.01 (surv_yes - surv_no)); [reflexivity |].
  destruct (Qlt_bool 0.01 (surv_no - surv_yes)) eqn:B2; [qbool; lra |].
  apply Qle_bool_iff in Ha. now rewrite Ha.
Qed.

(** X2.  An action that costs nothing ([cost_frac <= 0]) and does not raise
    the decay ([benefit_frac >= 0]) is always recommended: for
    [initial_energy > 0], [horizon >= 0], [scenarios >= 1] and
    [risk_frac >= 0], with noise far from the overflow of binary64
    ([initial_energy <= 1e100], [risk_frac <= 1e100]), on the shared noise
    every trajectory of the YES-run ends with at least the energy of its
    twin in the NO-run, so [survival_yes >= survival_no],
    [avg_yes >= avg_no], and the rule answers YES. *)
Theorem free_action_is_recommended `{RT : Runtime}
        (initial_energy cost_frac benefit_frac risk_frac : Q)
        (horizon scenarios : Z) (s : rng_state) :
  0 < initial_energy -> (0 <= horizon)%Z -> (1 <= scenarios)%Z ->
  0 <= risk_frac -> cost_frac <= 0 -> 0 <= benefit_frac ->
  initial_energy <= 10 ^ 100 -> risk_frac <= 10 ^ 100 ->
  exists (q : Q * Q * Q * Q) (s' : rng_state),
    simulate_decision initial_energy cost_frac benefit_frac risk_frac
                      horizon scenarios s = (inr q, s') /\
    survival_no q <= survival_yes q /\
    avg_no q <= avg_yes q /\
    decision (survival_yes q) (survival_no q) (avg_yes q) (avg_no q)
      = "YES"%string.
Proof.
  intros Hinit Hh Hn Hrisk Hc Hb _ _.
  destruct (simulate_decision_returns initial_energy cost_frac benefit_frac
              risk_frac horizon scenarios s)
    as (M & s' & _ & [Hrows _] & Hcall);
    [now apply rand_std_nonneg | assumption | lia |].
  exists (results_of initial_energy cost_frac benefit_frac risk_frac
                     horizon scenarios M), s'.
  split; [exact Hcall |].
  unfold survival_yes, survival_no, avg_yes, avg_no, results_of, run_with.
  cbn [fst snd].
  rewrite !run_scenarios_traj by assumption. cbn [fst snd].
  assert (Hrow : forall row,
    fst (traj_final initial_energy (initial_energy * cost_frac) 0.05
           (py_max 0 (0.05 * (1 - benefit_frac)))
           (0.1 * initial_energy * risk_frac) horizon false row)
    <= fst (traj_final initial_energy (initial_energy * cost_frac) 0.05
              (py_max 0 (0.05 * (1 - benefit_frac)))
              (0.1 * initial_energy * risk_frac) horizon true row)).
  { intro row. unfold traj_final, decay_rate_of.
    apply traj_run_ahead.
    - now apply effective_decay_le_base.
    - lra.
    - now apply traj_init_ok.
    - apply traj_init_yes_ok.
    - assert (Hcost : initial_energy * cost_frac <= 0).
      { setoid_replace 0 with (initial_energy * 0) by ring.
        apply Qmult_le_l; assumption. }
      unfold traj_init.
      destruct (Qle_bool (initial_energy - initial_energy * cost_frac) 0)
        eqn:B; qbool; cbn [fst]; lra. }
  assert (Hs : np_mean_bool
                 (map (fun e => Qlt_bool 0 e)
                    (map (fun row => fst (traj_final initial_energy
                       (initial_energy * cost_frac) 0.05
                       (py_max 0 (0.05 * (1 - benefit_frac)))
                       (0.1 * initial_energy * risk_frac) horizon false row))
                       M))
               <= np_mean_bool
                 (map (fun e => Qlt_bool 0 e)
                    (map (fun row => fst (traj_final initial_energy
                       (initial_energy * cost_frac) 0.05
                       (py_max 0 (0.05 * (1 - benefit_frac)))
                       (0.1 * initial_energy * risk_frac) horizon true row))
                       M))).
  { rewrite !map_map. apply np_mean_bool_map_le.
    intros row _ Hpos. specialize (Hrow row). qbool.
    apply Qlt_bool_true. lra. }
  assert (Ha : np_mean
                 (map (fun row => fst (traj_final initial_energy
                    (initial_energy * cost_frac) 0.05
                    (py_max 0 (0.05 * (1 - benefit_frac)))
                    (0.1 * initial_energy * risk_frac) horizon false row)) M)
               <= np_mean
                 (map (fun row => fst (traj_final initial_energy
                    (initial_energy * cost_frac) 0.05
                    (py_max 0 (0.05 * (1 - benefit_frac)))
                    (0.1 * initial_energy * risk_frac) horizon true row)) M)).
  { apply np_mean_map_le. intros row _. apply Hrow. }
  split; [exact Hs |]. split; [exact Ha |].
  now apply decision_yes_ahead.
Qed.

Lemma free_action_is_recommended_witness :
  0 < 100 /\ (0 <= 20)%Z /\ (1 <= 3)%Z /\ 0 <= 1 /\ 0 <= 0 /\ 0 <= 0.4 /\
  100 <= 10 ^ 100 /\ 1 <= 10 ^ 100 /\
  exists (q : Q * Q * Q * Q) (s' : Z),
    simulate_decision (RT := Toy.runtime) 100 0 0.4 1 20 3 0%Z
      = (inr q, s') /\
    survival_no q <= survival_yes q /\
    avg_no q <= avg_yes q /\
    decision (survival_yes q) (survival_no q) (avg_yes q) (avg_no q)
      = "YES"%string.
Proof.
  assert (H1 : 0 < 100) by reflexivity.
  assert (H2 : (0 <= 20)%Z) by lia.
  assert (H3 : (1 <= 3)%Z) by lia.
  assert (H4 : 0 <= 1) by (unfold Qle; simpl; lia).
  assert (H5 : 0 <= 0) by (unfold Qle; simpl; lia).
  assert (H6 : 0 <= 0.4) by (unfold Qle; simpl; lia).
  assert (H7 : 100 <= 10 ^ 100) by (vm_compute; discriminate).
  assert (H8 : 1 <= 10 ^ 100) by (vm_compute; discriminate).
  refine (conj H1 (conj H2 (conj H3 (conj H4 (conj H5 (conj H6 (conj H7
            (conj H8 _)))))))).
  exact (free_action_is_recommended (RT := Toy.runtime) 100 0 0.4 1 20 3 0%Z
           H1 H2 H3 H4 H5 H6 H7 H8).
Defined.

(** ** The results without noise *)

(** Without noise a live trajectory with a factor [1 - k] in [(0, 1]] or
    above only decays: after [n] passes its energy is [e * (1 - k)^n]. *)
Lemma traj_run_decay (k std : Q) (row : list Q) (e : Q) :
  Qlt_bool 0 std = false -> 0 < e -> k < 1 ->
  forall (n start : nat),
    snd (traj_run k std row (seq start n) (e, true)) = true /\
    fst (traj_run k std row (seq start n) (e, true))
      == e * (1 - k) ^ Z.of_nat n.
Proof.
  intros Hoff He Hk. induction n as [| n IH]; intro start.
  - cbn. split; [reflexivity | ring].
  - rewrite seq_S, traj_run_app.
    destruct (IH start) as [Halive Hen].
    destruct (traj_run k std row (seq start n) (e, true)) as [en a].
    cbn [fst snd] in Halive, Hen. subst a.
    assert (Hpow : 0 < (1 - k) ^ Z.of_nat n).
    { apply Qpower_0_lt. lra. }
    assert (Hen_pos : 0 < en).
    { rewrite Hen. apply Qmult_lt_0_compat; assumption. }
    assert (Hnext : 0 < en * (1 - k)).
    { apply Qmult_lt_0_compat; lra. }
    cbn [traj_run fold_left]. unfold traj_step. rewrite Hoff.
    apply Qle_bool_false in Hnext. rewrite Hnext. cbn [fst snd].
    split; [reflexivity |].
    rewrite Hen, Nat2Z.inj_succ, <- Z.add_1_r.
    rewrite Qpower_plus by lra.
    change ((1 - k) ^ 1) with (1 - k). ring.
Qed.

(** Without noise a live trajectory with a factor [1 - k <= 0] dies in the
    first pass. *)
Lemma traj_run_overdecay (k std : Q) (row : list Q) (e : Q) (t : nat)
                         (ts : list nat) :
  Qlt_bool 0 std = false -> 0 < e -> 1 <= k ->
  traj_run k std row (t :: ts) (e, true) = (0, false).
Proof.
  intros Hoff He Hk.
  assert (Hm : 0 <= e * (k - 1)) by (apply Qmult_le_0_compat; lra).
  assert (Hdead : Qle_bool (e * (1 - k)) 0 = true).
  { apply Qle_bool_iff.
    setoid_replace (e * (1 - k)) with (- (e * (k - 1))) by ring. lra. }
  cbn [traj_run fold_left]. unfold traj_step at 2. rewrite Hoff, Hdead.
  apply traj_run_dead.
Qed.

Lemma positive_rate_one (x y : Q) :
  x == (if Qlt_bool 0 y then 1 else 0) -> 0 < y -> x == 1.
Proof. intros Hx Hy. apply Qlt_bool_true in Hy. now rewrite Hy in Hx. Qed.

(** The results of a call without noise. *)
Lemma no_noise_results `{RT : Runtime}
        (initial_energy cost_frac benefit_frac risk_frac : Q)
        (horizon scenarios : Z) (s : rng_state) :
  0 < initial_energy -> (0 <= horizon)%Z -> (1 <= scenarios)%Z ->
  risk_frac == 0 ->
  exists (q : Q * Q * Q * Q) (s' : rng_state),
    simulate_decision initial_energy cost_frac benefit_frac risk_frac
                      horizon scenarios s = (inr q, s') /\
    survival_no q == 1 /\
    avg_no q == initial_energy * 0.95 ^ horizon /\
    (cost_frac < 1 -> -19 < benefit_frac ->
     survival_yes q == 1 /\
     avg_yes q == (initial_energy - initial_energy * cost_frac)
                  * (1 - py_max 0 (0.05 * (1 - benefit_frac))) ^ horizon) /\
    (1 <= cost_frac -> survival_yes q == 0 /\ avg_yes q == 0) /\
    (cost_frac < 1 -> benefit_frac <= -19 -> (1 <= horizon)%Z ->
     survival_yes q == 0 /\ avg_yes q == 0).
Proof.
  intros Hinit Hh Hn Hrisk.
  assert (Hstd : 0.1 * initial_energy * risk_frac == 0)
    by (rewrite Hrisk; ring).
  assert (Hoff : Qlt_bool 0 (0.1 * initial_energy * risk_frac) = false)
    by (apply Qlt_bool_false; lra).
  destruct (simulate_decision_returns initial_energy cost_frac benefit_frac
              risk_frac horizon scenarios s)
    as (M & s' & _ & [Hrows _] & Hcall); [lra | assumption | lia |].
  exists (results_of initial_energy cost_frac benefit_frac risk_frac
                     horizon scenarios M), s'.
  split; [exact Hcall |].
  set (eff := py_max 0 (0.05 * (1 - benefit_frac))).
  set (std := 0.1 * initial_energy * risk_frac) in *.
  set (final := fun decision row =>
         traj_final initial_energy (initial_energy * cost_frac) 0.05 eff std
                    horizon decision row).
  assert (Hrun : forall decision,
    fst (run_with initial_energy cost_frac benefit_frac risk_frac horizon
                  scenarios M decision)
      == (if Qlt_bool 0 (fst (final decision [])) then 1 else 0) /\
    snd (run_with initial_energy cost_frac benefit_frac risk_frac horizon
                  scenarios M decision) == fst (final decision [])).
  { intro decision. unfold run_with. fold eff. fold std.
    assert (Hconst : forall row, final decision row = final decision []).
    { intro row. unfold final, traj_final. now apply traj_run_no_noise. }
    apply run_scenarios_const; trivial. }
  unfold survival_yes, survival_no, avg_yes, avg_no, results_of.
  cbn [fst snd].
  destruct (Hrun true) as [Hsy Hay]. destruct (Hrun false) as [Hsn Han].
  assert (Hh' : Z.of_nat (Z.to_nat horizon) = horizon) by lia.
  (* the NO-run *)
  assert (Hno : fst (final false []) == initial_energy * 0.95 ^ horizon).
  { unfold final, traj_final, traj_init, decay_rate_of, range.
    destruct (traj_run_decay 0.05 std [] initial_energy Hoff Hinit
                ltac:(reflexivity) (Z.to_nat horizon) 0%nat) as [_ Hen].
    rewrite Hen, Hh'. reflexivity. }
  assert (Hno_pos : 0 < fst (final false [])).
  { rewrite Hno. apply Qmult_lt_0_compat; trivial.
    apply Qpower_0_lt. reflexivity. }
  split; [now apply (positive_rate_one _ _ Hsn) |].
  split; [now rewrite Han |].
  (* the YES-run *)
  assert (Hstart : initial_energy - initial_energy * cost_frac
                   == initial_energy * (1 - cost_frac)) by ring.
  split; [| split].
  - intros Hc Hb.
    assert (He0 : 0 < initial_energy - initial_energy * cost_frac).
    { rewrite Hstart. apply Qmult_lt_0_compat; lra. }
    assert (Heff : eff < 1).
    { unfold eff, py_max.
      destruct (Qlt_bool 0 (0.05 * (1 - benefit_frac))); lra. }
    assert (Hyes : fst (final true [])
                   == (initial_energy - initial_energy * cost_frac)
                      * (1 - eff) ^ horizon).
    { unfold final, traj_final, traj_init, decay_rate_of, range.
      assert (B : Qle_bool (initial_energy - initial_energy * cost_frac) 0
                  = false) by now apply Qle_bool_false.
      rewrite B.
      destruct (traj_run_decay eff std []
                  (initial_energy - initial_energy * cost_frac) Hoff He0
                  Heff (Z.to_nat horizon) 0%nat) as [_ Hen].
      now rewrite Hen, Hh'. }
    assert (Hyes_pos : 0 < fst (final true [])).
    { rewrite Hyes. apply Qmult_lt_0_compat; trivial.
      apply Qpower_0_lt. lra. }
    split; [now apply (positive_rate_one _ _ Hsy) | now rewrite Hay].
  - intro Hc.
    assert (He0 : initial_energy - initial_energy * cost_frac <= 0).
    { rewrite Hstart.
      assert (0 <= initial_energy * (cost_frac - 1))
        by (apply Qmult_le_0_compat; lra).
      setoid_replace (initial_energy * (1 - cost_frac))
        with (- (initial_energy * (cost_frac - 1))) by ring.
      lra. }
    assert (Hyes : final true [] = (0, false)).
    { unfold final, traj_final, traj_init.
      apply Qle_bool_iff in He0. rewrite He0. apply traj_run_dead. }
    rewrite Hyes in Hsy, Hay. cbn [fst] in Hsy, Hay.
    split; assumption.
  - intros Hc Hb Hh1.
    assert (He0 : 0 < initial_energy - initial_energy * cost_frac).
    { rewrite Hstart. apply Qmult_lt_0_compat; lra. }
    assert (Heff : 1 <= eff).
    { unfold eff, py_max.
      destruct (Qlt_bool 0 (0.05 * (1 - benefit_frac))) eqn:B;
        qbool; lra. }
    assert (Hyes : final true [] = (0, false)).
    { unfold final, traj_final, traj_init, decay_rate_of, range.
      assert (B : Qle_bool (initial_energy - initial_energy * cost_frac) 0
                  = false) by now apply Qle_bool_false.
      rewrite B.
      destruct (Z.to_nat horizon) as [| m] eqn:Hm; [lia |].
      cbn [seq]. now apply traj_run_overdecay. }
    rewrite Hyes in Hsy, Hay. cbn [fst] in Hsy, Hay.
    split; assumption.
Qed.

(** X3.  Without noise, decay alone never kills.  For [horizon >= 0],
    [scenarios >= 1], [risk_frac = 0] and an action that does not raise the
    decay ([benefit_frac >= 0]), with magnitudes away from the limits of
    binary64 ([1e-100 <= initial_energy <= 1e100], [cost_frac >= -1e100]):
    the NO-run ends with every scenario alive, whatever the horizon
    ([survival_no = 1], [avg_no > 0]); so does the YES-run when
    [cost_frac < 1]; and when [cost_frac >= 1] the YES-run is dead from the
    start ([survival_yes = 0], [avg_yes = 0]) and the rule answers NO. *)
Theorem decay_alone_never_kills `{RT : Runtime}
        (initial_energy cost_frac benefit_frac risk_frac : Q)
        (horizon scenarios : Z) (s : rng_state) :
  (0 <= horizon)%Z -> (1 <= scenarios)%Z ->
  risk_frac == 0 -> 0 <= benefit_frac ->
  10 ^ (-100) <= initial_energy -> initial_energy <= 10 ^ 100 ->
  - (10 ^ 100) <= cost_frac ->
  exists (q : Q * Q * Q * Q) (s' : rng_state),
    simulate_decision initial_energy cost_frac benefit_frac risk_frac
                      horizon scenarios s = (inr q, s') /\
    survival_no q == 1 /\ 0 < avg_no q /\
    (cost_frac < 1 -> survival_yes q == 1 /\ 0 < avg_yes q) /\
    (1 <= cost_frac ->
     survival_yes q == 0 /\ avg_yes q == 0 /\
     decision (survival_yes q) (survival_no q) (avg_yes q) (avg_no q)
       = "NO"%string).
Proof.
  intros Hh Hn Hrisk Hb Hlow _ _.
  assert (Hinit : 0 < initial_energy).
  { apply Qlt_le_trans with (y := 10 ^ (-100)); [reflexivity | exact Hlow]. }
  destruct (no_noise_results initial_energy cost_frac benefit_frac risk_frac
              horizon scenarios s Hinit Hh Hn Hrisk)
    as (q & s' & Hcall & Hsn & Han & Hlive & Hcost & _).
  exists q, s'. split; [exact Hcall |]. split; [exact Hsn |].
  assert (Hpow : forall x : Q, 0 < x -> 0 < x ^ horizon)
    by (intros x Hx; apply Qpower_0_lt; exact Hx).
  split; [| split].
  - rewrite Han. apply Qmult_lt_0_compat; [exact Hinit |].
    apply Hpow. reflexivity.
  - intro Hc. destruct (Hlive Hc) as [Hsy Hay]; [lra |].
    split; [exact Hsy |]. rewrite Hay.
    apply Qmult_lt_0_compat.
    + setoid_replace (initial_energy - initial_energy * cost_frac)
        with (initial_energy * (1 - cost_frac)) by ring.
      apply Qmult_lt_0_compat; lra.
    + apply Hpow. pose proof (effective_decay_le_base benefit_frac Hb). lra.
  - intro Hc. destruct (Hcost Hc) as [Hsy Hay].
    split; [exact Hsy |]. split; [exact Hay |].
    unfold decision.
    assert (B1 : Qlt_bool 0.01 (survival_yes q - survival_no q) = false)
      by (apply Qlt_bool_false; lra).
    assert (B2 : Qlt_bool 0.01 (survival_no q - survival_yes q) = true)
      by (apply Qlt_bool_true; lra).
    now rewrite B1, B2.
Qed.

Lemma decay_alone_never_kills_witness :
  (0 <= 30)%Z /\ (1 <= 4)%Z /\ 0 == 0 /\ 0 <= 0.8 /\
  10 ^ (-100) <= 100 /\ 100 <= 10 ^ 100 /\ - (10 ^ 100) <= 0.3 /\
  exists (q : Q * Q * Q * Q) (s' : Z),
    simulate_decision (RT := Toy.runtime) 100 0.3 0.8 0 30 4 0%Z
      = (inr q, s') /\
    survival_no q == 1 /\ 0 < avg_no q /\
    (0.3 < 1 -> survival_yes q == 1 /\ 0 < avg_yes q) /\
    (1 <= 0.3 ->
     survival_yes q == 0 /\ avg_yes q == 0 /\
     decision (survival_yes q) (survival_no q) (avg_yes q) (avg_no q)
       = "NO"%string).
Proof.
  assert (H2 : (0 <= 30)%Z) by lia.
  assert (H3 : (1 <= 4)%Z) by lia.
  assert (H4 : 0 == 0) by reflexivity.
  assert (H5 : 0 <= 0.8) by (unfold Qle; simpl; lia).
  assert (H6 : 10 ^ (-100) <= 100) by (vm_compute; discriminate).
  assert (H7 : 100 <= 10 ^ 100) by (vm_compute; discriminate).
  assert (H8 : - (10 ^ 100) <= 0.3) by (vm_compute; discriminate).
  refine (conj H2 (conj H3 (conj H4 (conj H5 (conj H6 (conj H7
            (conj H8 _))))))).
  exact (decay_alone_never_kills (RT := Toy.runtime) 100 0.3 0.8 0 30 4 0%Z
           H2 H3 H4 H5 H6 H7 H8).
Defined.

(** ** More scenarios *)

Lemma replicateM_prefix `{RT : Runtime} {A : Type} (c : NP A) :
  forall (n m : nat) (s s' : rng_state) (l : list A),
    replicateM (n + m) c s = (inr l, s') ->
    exists s1, replicateM n c s = (inr (firstn n l), s1).
Proof.
  induction n as [| n IH]; intros m s s' l Hrun.
  - now exists s.
  - cbn [Nat.add replicateM] in Hrun |- *. unfold bind at 1 in Hrun.
    unfold bind at 1.
    destruct (c s) as [[e | a] s0]; [discriminate |].
    unfold bind at 1 in Hrun. unfold bind at 1.
    destruct (replicateM (n + m) c s0) as [[e | l'] s2] eqn:Hl;
      [discriminate |].
    cbn in Hrun. injection Hrun as <- _.
    destruct (IH _ _ _ _ Hl) as [s1 Hpre].
    rewrite Hpre. now exists s1.
Qed.

(** X4.  The seed does not depend on [scenarios] and the matrix is filled
    row by row, so a call with fewer scenarios simulates the first
    trajectories of a call with more: for [0 <= scenarios <= scenarios'],
    the matrix drawn for [scenarios] is the first [scenarios] rows of the one
    drawn for [scenarios'], and in either run every scenario
    [i < scenarios] ends with the same energy and the same flag in both
    calls. *)
Theorem more_scenarios_keep_trajectories `{RT : Runtime}
        (initial_energy cost_frac benefit_frac risk_frac : Q)
        (horizon scenarios scenarios' : Z)
        (M' : list (list Q)) (s' : rng_state) :
  (0 <= scenarios <= scenarios')%Z ->
  drawn_matrix initial_energy cost_frac benefit_frac risk_frac horizon
               scenarios' = (inr M', s') ->
  exists s1 : rng_state,
    drawn_matrix initial_energy cost_frac benefit_frac risk_frac horizon
                 scenarios = (inr (firstn (Z.to_nat scenarios) M'), s1) /\
    forall (decision : bool) (i : nat),
      (i < Z.to_nat scenarios)%nat ->
      nth i (fst (final_arrays initial_energy cost_frac benefit_frac
                               risk_frac horizon scenarios
                               (firstn (Z.to_nat scenarios) M') decision)) 0
      = nth i (fst (final_arrays initial_energy cost_frac benefit_frac
                                 risk_frac horizon scenarios' M' decision)) 0
      /\
      nth i (snd (final_arrays initial_energy cost_frac benefit_frac
                               risk_frac horizon scenarios
                               (firstn (Z.to_nat scenarios) M') decision))
            false
      = nth i (snd (final_arrays initial_energy cost_frac benefit_frac
                                 risk_frac horizon scenarios' M' decision))
            false.
Proof.
  intros [Hn Hn'] HM'.
  pose proof (np_random_normal_shape _ _ _ _ _ _ _ HM') as [Hrows' _].
  assert (Hpre : exists s1,
    drawn_matrix initial_energy cost_frac benefit_frac risk_frac horizon
                 scenarios = (inr (firstn (Z.to_nat scenarios) M'), s1)).
  { revert HM'. unfold drawn_matrix, np_random_normal. cbn [fst snd].
    destruct (Qlt_bool (0.1 * initial_energy * risk_frac) 0);
      [discriminate |].
    destruct (horizon <? 0)%Z eqn:Hh;
      [rewrite orb_true_r; discriminate |].
    destruct (scenarios' <? 0)%Z eqn:Hs'; [discriminate |].
    apply Z.ltb_ge in Hn. rewrite Hn. cbn [orb].
    replace (Z.to_nat scenarios')
      with (Z.to_nat scenarios + (Z.to_nat scenarios' - Z.to_nat scenarios))%nat
      by lia.
    apply replicateM_prefix. }
  destruct Hpre as [s1 HM]. exists s1. split; [exact HM |].
  pose proof (np_random_normal_shape _ _ _ _ _ _ _ HM) as [Hrows _].
  intros decision i Hi. unfold final_arrays.
  rewrite !final_state_traj by assumption. cbn [fst snd].
  assert (Hi' : (i < List.length M')%nat) by lia.
  assert (Hrow : nth i (firstn (Z.to_nat scenarios) M') [] = nth i M' []).
  { rewrite nth_firstn. apply Nat.ltb_lt in Hi. now rewrite Hi. }
  rewrite !(nth_map_lt _ _ _ _ []) by (assumption || lia).
  now rewrite Hrow.
Qed.

Lemma more_scenarios_keep_trajectories_witness :
  (0 <= 1 <= 2)%Z /\
  drawn_matrix (RT := Toy.runtime) 100 0.1 0 1 2 2
    = (inr [[-10.0; -10.0]; [-10.0; -10.0]], 28%Z) /\
  exists s1 : Z,
    drawn_matrix (RT := Toy.runtime) 100 0.1 0 1 2 1
      = (inr (firstn (Z.to_nat 1) [[-10.0; -10.0]; [-10.0; -10.0]]), s1).
Proof.
  assert (H1 : (0 <= 1 <= 2)%Z) by lia.
  assert (H2 : drawn_matrix (RT := Toy.runtime) 100 0.1 0 1 2 2
               = (inr [[-10.0; -10.0]; [-10.0; -10.0]], 28%Z))
    by reflexivity.
  refine (conj H1 (conj H2 _)).
  destruct (more_scenarios_keep_trajectories (RT := Toy.runtime)
              100 0.1 0 1 2 1 2 _ _ H1 H2) as [s1 [Hpre _]].
  exists s1. exact Hpre.
Defined.

(** ** The rule with the two options exchanged *)

(** X5.  The rule on binary64 never rejects both options when the two
    averages are numbers: exchanging the roles of YES and NO (the survival
    rates and the averages) cannot turn two NO answers.  It accepts both
    exactly on a tie: when neither survival margin exceeds 0.01 and the two
    averages are equal.  When an average is NaN and neither margin exceeds
    0.01, it rejects both: every comparison with NaN is false. *)
Theorem decision_exchanged (surv_yes surv_no avg_yes avg_no : float) :
  (is_nan avg_yes = false -> is_nan avg_no = false ->
   ~ (Binary64.decision surv_yes surv_no avg_yes avg_no = "NO"%string /\
      Binary64.decision surv_no surv_yes avg_no avg_yes = "NO"%string)) /\
  ((Binary64.decision surv_yes surv_no avg_yes avg_no = "YES"%string /\
    Binary64.decision surv_no surv_yes avg_no avg_yes = "YES"%string) <->
   ((0.01 <? surv_yes - surv_no)%float = false /\
    (0.01 <? surv_no - surv_yes)%float = false /\
    (avg_yes =? avg_no)%float = true)) /\
  (is_nan avg_yes = true \/ is_nan avg_no = true ->
   (0.01 <? surv_yes - surv_no)%float = false ->
   (0.01 <? surv_no - surv_yes)%float = false ->
   Binary64.decision surv_yes surv_no avg_yes avg_no = "NO"%string /\
   Binary64.decision surv_no surv_yes avg_no avg_yes = "NO"%string).
Proof.
  unfold Binary64.decision.
  pose proof (margins_exclusive surv_yes surv_no) as Hex.
  pose proof (leb_total avg_no avg_yes) as Htot.
  pose proof (leb_antisym avg_yes avg_no) as Hanti.
  pose proof (leb_nan avg_no avg_yes) as Hnan1.
  pose proof (leb_nan avg_yes avg_no) as Hnan2.
  destruct (0.01 <? surv_yes - surv_no)%float;
    destruct (0.01 <? surv_no - surv_yes)%float;
    try (specialize (Hex eq_refl); discriminate Hex);
    destruct (avg_no <=? avg_yes)%float;
    destruct (avg_yes <=? avg_no)%float;
    (split; [| split]).
  all: try (intros _ _ [H1 H2]; discriminate H1 || discriminate H2).
  all: try (intros Ha Hb [_ _]; specialize (Htot Hb Ha eq_refl); discriminate).
  all: try (intros ? ? ?; discriminate).
  all: try (split; [ intros [H1 H2]; discriminate H1 || discriminate H2
                   | intros (H1 & H2 & H3); discriminate H1 || discriminate H2 ]).
  all: try (split; [ intros _; repeat split; now apply Hanti
                   | intros _; now split ]).
  all: try (split; [ intros [H1 H2]; discriminate H1 || discriminate H2
                   | intros (_ & _ & H3); apply Hanti in H3;
                     destruct H3 as [H3 H4]; discriminate H3 || discriminate H4 ]).
  all: try (intros Hn _ _; first [ specialize (Hnan1 ltac:(tauto)); discriminate
                                 | specialize (Hnan2 ltac:(tauto)); discriminate
                                 | now split ]).
Qed.

Lemma decision_exchanged_witness :
  is_nan 42 = false /\ is_nan 41 = false /\
  ~ (Binary64.decision 0.5 0.505 42 41 = "NO"%string /\
     Binary64.decision 0.505 0.5 41 42 = "NO"%string).
Proof.
  assert (H1 : is_nan 42 = false) by reflexivity.
  assert (H2 : is_nan 41 = false) by reflexivity.
  refine (conj H1 (conj H2 _)).
  exact (proj1 (decision_exchanged 0.5 0.505 42 41) H1 H2).
Defined.

(** ** One scenario does not influence another *)

(** X6.  The vectorised run, with its masks and its early [break], computes
    for every scenario the scalar recurrence on that scenario's own row of
    noise: for a matrix [M] with one row per scenario, the final [E[i]] and
    [alive[i]] are [traj_final] of row [i]; so two matrices with the same
    row [i] give scenario [i] the same end, whatever their other rows. *)
Theorem scenarios_are_independent
        (initial_energy cost base_decay effective_decay rand_std : Q)
        (M M' : list (list Q)) (scenarios horizon : Z) (decision : bool)
        (i : nat) :
  List.length M = Z.to_nat scenarios ->
  List.length M' = Z.to_nat scenarios ->
  (i < Z.to_nat scenarios)%nat ->
  let final := final_state initial_energy cost base_decay effective_decay
                           rand_std in
  (nth i (fst (final M scenarios horizon decision)) 0,
   nth i (snd (final M scenarios horizon decision)) false)
  = traj_final initial_energy cost base_decay effective_decay rand_std
               horizon decision (nth i M []) /\
  (nth i M [] = nth i M' [] ->
   nth i (fst (final M scenarios horizon decision)) 0
   = nth i (fst (final M' scenarios horizon decision)) 0 /\
   nth i (snd (final M scenarios horizon decision)) false
   = nth i (snd (final M' scenarios horizon decision)) false).
Proof.
  intros Hrows Hrows' Hi final. unfold final.
  rewrite !final_state_traj by assumption. cbn [fst snd].
  rewrite !(nth_map_lt _ _ _ _ []) by lia.
  split; [now rewrite <- surjective_pairing |].
  now intros ->.
Qed.

Lemma scenarios_are_independent_witness :
  List.length [[5; -200]; [7; 9]] = Z.to_nat 2 /\
  List.length [[5; -200]; [-300; 1]] = Z.to_nat 2 /\
  (0 < Z.to_nat 2)%nat /\
  nth 0 [[5; -200]; [7; 9]] [] = nth 0 [[5; -200]; [-300; 1]] [] /\
  nth 0 (fst (final_state 100 20 0.05 0.025 1 [[5; -200]; [7; 9]] 2 2 true)) 0
  = nth 0 (fst (final_state 100 20 0.05 0.025 1 [[5; -200]; [-300; 1]] 2 2
                            true)) 0.
Proof.
  assert (H1 : List.length [[5; -200]; [7; 9]] = Z.to_nat 2) by reflexivity.
  assert (H2 : List.length [[5; -200]; [-300; 1]] = Z.to_nat 2)
    by reflexivity.
  assert (H3 : (0 < Z.to_nat 2)%nat) by (simpl; lia).
  assert (H4 : nth 0 [[5; -200]; [7; 9]] [] = nth 0 [[5; -200]; [-300; 1]] [])
    by reflexivity.
  refine (conj H1 (conj H2 (conj H3 (conj H4 _)))).
  exact (proj1 (proj2 (scenarios_are_independent 100 20 0.05 0.025 1
                         [[5; -200]; [7; 9]] [[5; -200]; [-300; 1]]
                         2 2 true 0 H1 H2 H3) H4)).
Defined.

(** ** An action that costs everything *)



(** * The runs on binary64 *)

(** ** A run, one trajectory at a time *)

Lemma death_step64_fill (E : list float) (alive : list bool) :
  Binary64.death_step (E, alive) =
  let newly_dead := map2 andb (map (fun e => e <=? 0)%float E) alive in
  (mask_fill newly_dead E 0%float, mask_fill newly_dead alive false).
Proof.
  unfold Binary64.death_step. cbv zeta.
  destruct (np_any _) eqn:Hany; [reflexivity |].
  now rewrite !np_any_false_fill.
Qed.

Lemma step64_cons (std k : float) (t : nat) (row : list float)
                  (M : list (list float)) (e : float) (E : list float)
                  (a : bool) (alive : list bool) :
  Binary64.step std (row :: M) k t (e :: E, a :: alive) =
  (fst (Binary64.traj_step k std (nth t row 0%float) (e, a))
     :: fst (Binary64.step std M k t (E, alive)),
   snd (Binary64.traj_step k std (nth t row 0%float) (e, a))
     :: snd (Binary64.step std M k t (E, alive))).
Proof.
  unfold Binary64.step, Binary64.decay_step, Binary64.noise_step.
  cbn [snd fst]. rewrite !death_step64_fill. cbv zeta.
  unfold Binary64.traj_step.
  destruct a, (0 <? std)%float;
    cbn [mask_get mask_set map map2 Binary64.column fst snd mask_fill andb];
    try rewrite andb_false_r; try (destruct (_ <=? 0)%float); reflexivity.
Qed.

Lemma step64_nil (std k : float) (t : nat) (M : list (list float)) :
  Binary64.step std M k t ([], []) = ([], []).
Proof.
  unfold Binary64.step, Binary64.decay_step, Binary64.noise_step,
    Binary64.death_step. simpl.
  destruct (0 <? std)%float; reflexivity.
Qed.

(** The loop body is [traj_step] on every trajectory. *)
Lemma step64_lift (std k : float) (t : nat) (M : list (list float)) :
  forall (E : list float) (alive : list bool),
    List.length E = List.length M -> List.length alive = List.length M ->
    Binary64.step std M k t (E, alive) =
    Binary64.lift (fun row => Binary64.traj_step k std (nth t row 0%float))
                  M (E, alive).
Proof.
  induction M as [| row M IH]; intros [| e E] [| a alive] HE Ha;
    simpl in HE, Ha; try discriminate.
  - apply step64_nil.
  - rewrite step64_cons, IH by congruence.
    unfold Binary64.lift. reflexivity.
Qed.

Lemma lift64_length (f : list float -> float * bool -> float * bool)
                    (M : list (list float)) :
  forall (E : list float) (alive : list bool),
    List.length E = List.length M -> List.length alive = List.length M ->
    List.length (fst (Binary64.lift f M (E, alive))) = List.length M /\
    List.length (snd (Binary64.lift f M (E, alive))) = List.length M.
Proof.
  unfold Binary64.lift. cbn [fst snd].
  induction M as [| row M IH]; intros [| e E] [| a alive] HE Ha;
    simpl in HE, Ha; try discriminate; simpl; auto.
  destruct (IH E alive) as [H1 H2]; try congruence.
  split; congruence.
Qed.

Lemma lift64_lift (f g : list float -> float * bool -> float * bool)
                  (M : list (list float)) :
  forall (E : list float) (alive : list bool),
    List.length E = List.length M -> List.length alive = List.length M ->
    Binary64.lift g M (Binary64.lift f M (E, alive)) =
    Binary64.lift (fun row ea => g row (f row ea)) M (E, alive).
Proof.
  unfold Binary64.lift. cbn [fst snd].
  induction M as [| row M IH]; intros [| e E] [| a alive] HE Ha;
    simpl in HE, Ha; try discriminate; simpl; auto.
  specialize (IH E alive ltac:(congruence) ltac:(congruence)).
  injection IH as IH1 IH2.
  rewrite <- surjective_pairing. now rewrite IH1, IH2.
Qed.

Lemma lift64_all_dead (f : list float -> float * bool -> float * bool)
                      (M : list (list float)) :
  (forall row e, f row (e, false) = (e, false)) ->
  forall (E : list float) (alive : list bool),
    List.length E = List.length M -> List.length alive = List.length M ->
    np_any alive = false ->
    Binary64.lift f M (E, alive) = (E, alive).
Proof.
  intros Hf. unfold Binary64.lift. cbn [fst snd].
  induction M as [| row M IH]; intros [| e E] [| a alive] HE Ha Hany;
    simpl in HE, Ha; try discriminate; simpl; auto.
  simpl in Hany. apply orb_false_iff in Hany as [-> Hany].
  specialize (IH E alive ltac:(congruence) ltac:(congruence) Hany).
  injection IH as IH1 IH2.
  now rewrite Hf, IH1, IH2.
Qed.

Lemma lift64_id (M : list (list float)) :
  forall (E : list float) (alive : list bool),
    List.length E = List.length M -> List.length alive = List.length M ->
    Binary64.lift (fun _ ea => ea) M (E, alive) = (E, alive).
Proof.
  unfold Binary64.lift. cbn [fst snd].
  induction M as [| row M IH]; intros [| e E] [| a alive] HE Ha;
    simpl in HE, Ha; try discriminate; simpl; auto.
  specialize (IH E alive ltac:(congruence) ltac:(congruence)).
  injection IH as IH1 IH2.
  now rewrite IH1, IH2.
Qed.

Lemma lift64_repeat (f : list float -> float * bool -> float * bool)
                    (M : list (list float)) (ea : float * bool) :
  Binary64.lift f M (map fst (repeat ea (List.length M)),
                     map snd (repeat ea (List.length M))) =
  (map (fun row => fst (f row ea)) M, map (fun row => snd (f row ea)) M).
Proof.
  unfold Binary64.lift. cbn [fst snd].
  induction M as [| row M IH]; simpl; trivial.
  injection IH as IH1 IH2.
  rewrite <- surjective_pairing. now rewrite IH1, IH2.
Qed.

Lemma traj_run64_dead (k std : float) (row : list float) (ts : list nat)
                      (e : float) :
  Binary64.traj_run k std row ts (e, false) = (e, false).
Proof.
  unfold Binary64.traj_run. induction ts as [| t ts IH]; simpl; trivial.
Qed.

(** The loop, [break] included, is [traj_run] on every trajectory. *)
Lemma loop64_lift (std k : float) (M : list (list float)) (ts : list nat) :
  forall (E : list float) (alive : list bool),
    List.length E = List.length M -> List.length alive = List.length M ->
    Binary64.loop std M k ts (E, alive) =
    Binary64.lift (fun row => Binary64.traj_run k std row ts) M (E, alive).
Proof.
  induction ts as [| t ts IH]; intros E alive HE Ha.
  - simpl. symmetry. now apply lift64_id.
  - cbn [Binary64.loop snd]. destruct (np_any alive) eqn:Hany; cbn [negb].
    + rewrite step64_lift by assumption.
      destruct (lift64_length
                  (fun row => Binary64.traj_step k std (nth t row 0%float)) M
                  E alive HE Ha) as [H1 H2].
      destruct (Binary64.lift
                  (fun row => Binary64.traj_step k std (nth t row 0%float)) M
                  (E, alive))
        as [E' alive'] eqn:Hst.
      cbn [fst snd] in H1, H2.
      rewrite IH by assumption. rewrite <- Hst.
      rewrite lift64_lift by assumption. reflexivity.
    + symmetry. apply lift64_all_dead; trivial.
      intros row e. apply traj_run64_dead.
Qed.

(** The arrays before the loop hold [traj_init] in every position. *)
Lemma init_state64_repeat (initial_energy cost : float) (scenarios : Z)
                          (decision : bool) :
  Binary64.init_state initial_energy cost scenarios decision =
  (map fst (repeat (Binary64.traj_init initial_energy cost decision)
                   (Z.to_nat scenarios)),
   map snd (repeat (Binary64.traj_init initial_energy cost decision)
                   (Z.to_nat scenarios))).
Proof.
  unfold Binary64.init_state, Binary64.traj_init, Binary64.np_full,
    np_ones_bool.
  generalize (Z.to_nat scenarios) as n. intro n.
  rewrite !map_repeat.
  destruct decision; cbn [fst snd]; [| reflexivity].
  destruct (initial_energy - cost <=? 0)%float eqn:Hle; cbn [fst snd].
  - rewrite np_any_repeat_true.
    destruct n; [reflexivity |]. cbn [Nat.eqb negb].
    now rewrite !mask_fill_repeat_true.
  - now rewrite np_any_repeat_false.
Qed.

(** After the passes [ts], position [i] of the arrays holds the trajectory
    of row [i]. *)
Lemma loop64_init (initial_energy cost base_decay effective_decay
                   rand_std : float) (M : list (list float))
                  (scenarios : Z) (decision : bool) (ts : list nat) :
  List.length M = Z.to_nat scenarios ->
  let k := Binary64.decay_rate_of base_decay effective_decay decision in
  Binary64.loop rand_std M k ts
    (Binary64.init_state initial_energy cost scenarios decision) =
  (map (fun row => fst (Binary64.traj_run k rand_std row ts
                          (Binary64.traj_init initial_energy cost decision)))
       M,
   map (fun row => snd (Binary64.traj_run k rand_std row ts
                          (Binary64.traj_init initial_energy cost decision)))
       M).
Proof.
  intros rows k.
  rewrite init_state64_repeat, <- rows.
  rewrite loop64_lift by now rewrite length_map, repeat_length.
  apply lift64_repeat.
Qed.

(** ** What the clamp keeps, and what it lets through *)

Lemma ltb_not_leb (x y : float) :
  (x <? y)%float = true -> (y <=? x)%float = false.
Proof.
  rewrite FloatAxioms.ltb_spec, FloatAxioms.leb_spec. unfold SFltb, SFleb.
  rewrite (SFcompare_swap (Prim2SF x) (Prim2SF y)).
  destruct (SFcompare (Prim2SF x) (Prim2SF y)) as [[| |] |];
    cbn; congruence.
Qed.

(** A number that is not [<= y] is above [y], or NaN. *)
Lemma not_leb_ltb (x y : float) :
  (x <=? y)%float = false ->
  (y <? x)%float = true \/ is_nan x = true \/ is_nan y = true.
Proof.
  rewrite FloatAxioms.ltb_spec, FloatAxioms.leb_spec. unfold SFltb, SFleb.
  rewrite (SFcompare_swap (Prim2SF x) (Prim2SF y)).
  destruct (SFcompare (Prim2SF x) (Prim2SF y)) as [[| |] |] eqn:Hc;
    cbn; try congruence; auto.
  intros _. right. apply SFcompare_nan in Hc.
  destruct Hc as [Hc | Hc]; apply is_nan_spec in Hc; auto.
Qed.

Lemma Prim2SF_nan (x : float) : Prim2SF x = S754_nan -> x = nan.
Proof. intro H. apply Prim2SF_inj. now rewrite H. Qed.

(** NaN goes through every operation of a pass. *)
Lemma nan_mul (y : float) : (nan * y)%float = nan.
Proof. apply Prim2SF_nan. now rewrite FloatAxioms.mul_spec. Qed.

Lemma nan_add (y : float) : (nan + y)%float = nan.
Proof. apply Prim2SF_nan. now rewrite FloatAxioms.add_spec. Qed.

Lemma add_nan (x : float) : (x + nan)%float = nan.
Proof.
  apply Prim2SF_nan. rewrite FloatAxioms.add_spec.
  change (Prim2SF nan) with S754_nan.
  unfold SF64add, SFadd. now destruct (Prim2SF x).
Qed.

Lemma nan_div (y : float) : (nan / y)%float = nan.
Proof. apply Prim2SF_nan. now rewrite FloatAxioms.div_spec. Qed.

Lemma traj_init64_clamped (initial_energy cost : float) (decision : bool) :
  (0 <? initial_energy)%float = true ->
  Binary64.clamped (Binary64.traj_init initial_energy cost decision).
Proof.
  intro Hpos. unfold Binary64.traj_init, Binary64.clamped.
  destruct decision; cbn [fst snd].
  - destruct (initial_energy - cost <=? 0)%float eqn:Hle; cbn [fst snd];
      trivial.
  - now apply ltb_not_leb.
Qed.

Lemma traj_step64_clamped (k std x : float) (ea : float * bool) :
  Binary64.clamped ea -> Binary64.clamped (Binary64.traj_step k std x ea).
Proof.
  destruct ea as [e [|]]; unfold Binary64.clamped, Binary64.traj_step;
    cbn [fst snd]; trivial.
  intros _. destruct (_ <=? 0)%float eqn:Hle; cbn [fst snd]; trivial.
Qed.

Lemma traj_run64_clamped (k std : float) (row : list float) (ts : list nat) :
  forall ea, Binary64.clamped ea ->
             Binary64.clamped (Binary64.traj_run k std row ts ea).
Proof.
  unfold Binary64.traj_run.
  induction ts as [| t ts IH]; intros ea Hok; simpl; trivial.
  apply IH. now apply traj_step64_clamped.
Qed.

(** A dead trajectory holds [+0.0], whatever the inputs. *)
Lemma traj_run64_dead_zero (initial_energy cost k std : float)
                           (row : list float) (ts : list nat)
                           (decision : bool) :
  let ea := Binary64.traj_run k std row ts
              (Binary64.traj_init initial_energy cost decision) in
  snd ea = false -> fst ea = 0%float.
Proof.
  cbv zeta. unfold Binary64.traj_run.
  assert (Hinit : snd (Binary64.traj_init initial_energy cost decision)
                  = false ->
                  fst (Binary64.traj_init initial_energy cost decision)
                  = 0%float).
  { unfold Binary64.traj_init. destruct decision; cbn [fst snd];
      [| discriminate].
    destruct (_ <=? 0)%float; cbn [fst snd]; [trivial | discriminate]. }
  revert Hinit.
  generalize (Binary64.traj_init initial_energy cost decision) as ea.
  induction ts as [| t ts IH]; intros ea Hea; simpl; trivial.
  apply IH. destruct ea as [e [|]]; unfold Binary64.traj_step;
    cbn [fst snd] in *.
  - destruct (_ <=? 0)%float; cbn [fst snd]; [trivial | discriminate].
  - exact Hea.
Qed.

(** A live trajectory whose energy is NaN stays so. *)
Lemma traj_step64_nan (k std x : float) :
  Binary64.traj_step k std x (nan, true) = (nan, true).
Proof.
  unfold Binary64.traj_step. rewrite nan_mul.
  destruct (0 <? std)%float; [rewrite nan_add |]; reflexivity.
Qed.

Lemma traj_run64_nan (k std : float) (row : list float) (ts : list nat) :
  Binary64.traj_run k std row ts (nan, true) = (nan, true).
Proof.
  unfold Binary64.traj_run. induction ts as [| t ts IH]; trivial.
  cbn [fold_left]. now rewrite traj_step64_nan.
Qed.

Lemma traj_run64_app (k std : float) (row : list float) (ts ts' : list nat)
                     (ea : float * bool) :
  Binary64.traj_run k std row (ts ++ ts') ea =
  Binary64.traj_run k std row ts' (Binary64.traj_run k std row ts ea).
Proof. unfold Binary64.traj_run. apply fold_left_app. Qed.

(** A sum with a NaN entry is NaN. *)
Lemma np_sum64_nan (l : list float) : In nan l -> Binary64.np_sum l = nan.
Proof.
  unfold Binary64.np_sum. generalize 0%float as acc.
  induction l as [| x l IH]; intros acc Hin; [contradiction |].
  cbn [fold_left]. destruct Hin as [-> | Hin]; [| now apply IH].
  rewrite add_nan. clear IH.
  induction l as [| y l IH]; cbn [fold_left]; trivial.
  now rewrite nan_add.
Qed.

(** ** The energies of a run on binary64 *)

(** X18.  The clamp on binary64.  In a run with [initial_energy > 0], on a
    matrix with one row per scenario, after every pass of the loop a dead
    scenario holds the energy [+0.0] exactly, and a live one an energy that
    is not [<= 0]: a positive number, or NaN.  (Exact numbers have no NaN;
    there a live scenario has positive energy.) *)
Theorem binary64_energies_are_clamped
        (initial_energy cost base_decay effective_decay rand_std : float)
        (M : list (list float)) (scenarios : Z) (decision : bool)
        (i k : nat) :
  (0 <? initial_energy)%float = true ->
  List.length M = Z.to_nat scenarios -> (i < Z.to_nat scenarios)%nat ->
  let st := Binary64.state_at initial_energy cost base_decay effective_decay
                              rand_std M scenarios decision k in
  let e := nth i (fst st) 0%float in
  if nth i (snd st) false
  then (e <=? 0)%float = false /\
       ((0 <? e)%float = true \/ is_nan e = true)
  else e = 0%float.
Proof.
  intros Hpos Hrows Hi st e. unfold e, st, Binary64.state_at.
  rewrite loop64_init by assumption. cbn [fst snd].
  rewrite <- Hrows in Hi.
  rewrite (nth_map_lt _ _ _ _ []), (nth_map_lt _ _ _ _ []) by assumption.
  pose proof (traj_run64_clamped
                (Binary64.decay_rate_of base_decay effective_decay decision)
                rand_std (nth i M []) (seq 0 k) _
                (traj_init64_clamped initial_energy cost decision Hpos))
    as Hok.
  unfold Binary64.clamped in Hok.
  destruct (snd _); [| exact Hok].
  split; [exact Hok |].
  destruct (not_leb_ltb _ _ Hok) as [H | [H | H]]; auto.
  discriminate H.
Qed.

Lemma binary64_energies_are_clamped_witness :
  (0 <? 100)%float = true /\
  List.length [[-200; 50; 50]%float] = Z.to_nat 1 /\
  (0 < Z.to_nat 1)%nat /\
  nth 0 (fst (Binary64.state_at 100 20 0.05 0.025 1 [[-200; 50; 50]%float]
                                1 false 2)) 0%float = 0%float.
Proof.
  assert (H1 : (0 <? 100)%float = true) by reflexivity.
  assert (H2 : List.length [[-200; 50; 50]%float] = Z.to_nat 1)
    by reflexivity.
  assert (H3 : (0 < Z.to_nat 1)%nat) by (simpl; lia).
  refine (conj H1 (conj H2 (conj H3 _))).
  exact (binary64_energies_are_clamped 100 20 0.05 0.025 1
           [[-200; 50; 50]%float] 1 false 0 2 H1 H2 H3).
Defined.

(** X19.  NaN is never clamped.  A scenario whose energy is NaN after some
    pass (line 50 gave [inf * 0.0], or line 53 [inf + -inf]) is alive then
    and stays alive with the energy NaN to the end of the run: NaN is not
    [<= 0], so lines 55-58 pass it by.  It does not count as surviving
    ([nan > 0] is false), and the average energy of the run is NaN. *)
Theorem binary64_nan_is_never_clamped
        (initial_energy cost base_decay effective_decay rand_std : float)
        (M : list (list float)) (scenarios horizon : Z) (decision : bool)
        (i k : nat) :
  List.length M = Z.to_nat scenarios -> (k <= Z.to_nat horizon)%nat ->
  nth i (fst (Binary64.state_at initial_energy cost base_decay
                                effective_decay rand_std M scenarios
                                decision k)) 0%float = nan ->
  let final := Binary64.final_state initial_energy cost base_decay
                                    effective_decay rand_std M scenarios
                                    horizon decision in
  let results := Binary64.run_scenarios initial_energy cost base_decay
                                        effective_decay rand_std M scenarios
                                        horizon decision in
  nth i (snd final) false = true /\
  nth i (fst final) 0%float = nan /\
  (0 <? nth i (fst final) 0)%float = false /\
  snd results = nan.
Proof.
  intros Hrows Hk Hnan final results.
  set (kk := Binary64.decay_rate_of base_decay effective_decay decision).
  set (run := fun ts row =>
         Binary64.traj_run kk rand_std row ts
                           (Binary64.traj_init initial_energy cost decision)).
  unfold Binary64.state_at in Hnan. rewrite loop64_init in Hnan by assumption.
  cbn [fst] in Hnan. fold kk in Hnan.
  assert (Hi : (i < List.length M)%nat).
  { destruct (Nat.lt_ge_cases i (List.length M)) as [H | H]; trivial.
    rewrite nth_overflow in Hnan by now rewrite length_map.
    apply (f_equal is_nan) in Hnan. discriminate Hnan. }
  rewrite (nth_map_lt _ _ _ _ []) in Hnan by assumption.
  assert (Hat : run (seq 0 k) (nth i M []) = (nan, true)).
  { unfold run. destruct (Binary64.traj_run _ _ _ _ _) as [e a] eqn:Hrun.
    cbn [fst] in Hnan. subst e. destruct a; trivial.
    pose proof (traj_run64_dead_zero initial_energy cost kk rand_std
                  (nth i M []) (seq 0 k) decision) as Hz.
    cbv zeta in Hz. rewrite Hrun in Hz. specialize (Hz eq_refl).
    cbn [fst] in Hz. apply (f_equal is_nan) in Hz. discriminate Hz. }
  assert (Hend : run (seq 0 (Z.to_nat horizon)) (nth i M []) = (nan, true)).
  { replace (Z.to_nat horizon) with (k + (Z.to_nat horizon - k))%nat by lia.
    rewrite seq_app. unfold run. rewrite traj_run64_app.
    fold (run (seq 0 k) (nth i M [])). rewrite Hat.
    apply traj_run64_nan. }
  assert (Hfinal : final =
            (map (fun row => fst (run (seq 0 (Z.to_nat horizon)) row)) M,
             map (fun row => snd (run (seq 0 (Z.to_nat horizon)) row)) M)).
  { unfold final, Binary64.final_state, range. now apply loop64_init. }
  assert (He : nth i (fst final) 0%float = nan).
  { rewrite Hfinal. cbn [fst].
    rewrite (nth_map_lt _ _ _ _ []) by assumption. now rewrite Hend. }
  split; [| split; [exact He | split]].
  - rewrite Hfinal. cbn [snd].
    rewrite (nth_map_lt _ _ _ _ []) by assumption. now rewrite Hend.
  - now rewrite He.
  - unfold results, Binary64.run_scenarios. fold final.
    destruct final as [E alive]. cbn [fst snd] in *.
    unfold Binary64.np_mean. rewrite np_sum64_nan; [apply nan_div |].
    rewrite <- He. apply nth_In.
    destruct (Nat.lt_ge_cases i (List.length E)) as [H | H]; trivial.
    rewrite nth_overflow in He by assumption.
    apply (f_equal is_nan) in He. discriminate He.
Qed.

Lemma binary64_nan_is_never_clamped_witness :
  List.length [[0%float; 0%float; 0%float]] = Z.to_nat 1 /\
  (1 <= Z.to_nat 3)%nat /\
  nth 0 (fst (Binary64.state_at 100 (100 * -1e308) 0.05 1 0
                [[0%float; 0%float; 0%float]] 1 true 1)) 0%float = nan /\
  snd (Binary64.run_scenarios 100 (100 * -1e308) 0.05 1 0
         [[0%float; 0%float; 0%float]] 1 3 true) = nan.
Proof.
  assert (H1 : List.length [[0%float; 0%float; 0%float]] = Z.to_nat 1)
    by reflexivity.
  assert (H2 : (1 <= Z.to_nat 3)%nat) by (simpl; lia).
  assert (H3 : nth 0 (fst (Binary64.state_at 100 (100 * -1e308) 0.05 1 0
                             [[0%float; 0%float; 0%float]] 1 true 1))
                 0%float = nan) by reflexivity.
  refine (conj H1 (conj H2 (conj H3 _))).
  exact (proj2 (proj2 (proj2 (binary64_nan_is_never_clamped
                                100 (100 * -1e308) 0.05 1 0
                                [[0%float; 0%float; 0%float]] 1 3 true 0 1
                                H1 H2 H3)))).
Defined.

(** X20.  Death is absorbing on binary64 as well: a scenario with
    [alive = false] after [k] passes has, after every later pass, the flag
    false and the energy [+0.0] exactly, whatever the noise (infinite or NaN
    entries included). *)
Theorem binary64_death_is_absorbing
        (initial_energy cost base_decay effective_decay rand_std : float)
        (M : list (list float)) (scenarios : Z) (decision : bool)
        (i k k' : nat) :
  List.length M = Z.to_nat scenarios ->
  nth i (snd (Binary64.state_at initial_energy cost base_decay
                                effective_decay rand_std M scenarios
                                decision k)) true = false ->
  (k <= k')%nat ->
  let st := Binary64.state_at initial_energy cost base_decay effective_decay
                              rand_std M scenarios decision k' in
  nth i (snd st) true = false /\ nth i (fst st) 0%float = 0%float.
Proof.
  intros Hrows Hdead Hk st.
  set (kk := Binary64.decay_rate_of base_decay effective_decay decision).
  set (run := fun ts row =>
         Binary64.traj_run kk rand_std row ts
                           (Binary64.traj_init initial_energy cost decision)).
  assert (Hat : forall j,
    Binary64.state_at initial_energy cost base_decay effective_decay rand_std
                      M scenarios decision j =
    (map (fun row => fst (run (seq 0 j) row)) M,
     map (fun row => snd (run (seq 0 j) row)) M))
    by (intro j; unfold Binary64.state_at; now apply loop64_init).
  rewrite Hat in Hdead. cbn [snd] in Hdead.
  assert (Hi : (i < List.length M)%nat)
    by (apply (nth_flag_lt _ _ _ false) in Hdead; exact Hdead).
  rewrite (nth_map_lt _ _ _ _ []) in Hdead by assumption.
  assert (Hrun : run (seq 0 k') (nth i M []) = run (seq 0 k) (nth i M [])).
  { replace k' with (k + (k' - k))%nat by lia.
    rewrite seq_app. unfold run. rewrite traj_run64_app.
    fold (run (seq 0 k) (nth i M [])).
    destruct (run (seq 0 k) (nth i M [])) as [e a]. cbn [snd] in Hdead.
    subst a. apply traj_run64_dead. }
  pose proof (traj_run64_dead_zero initial_energy cost kk rand_std
                (nth i M []) (seq 0 k) decision) as Hz.
  cbv zeta in Hz. fold (run (seq 0 k) (nth i M [])) in Hz.
  specialize (Hz Hdead).
  unfold st. rewrite Hat. cbn [fst snd].
  rewrite !(nth_map_lt _ _ _ _ []) by assumption.
  rewrite Hrun. now split.
Qed.

Lemma binary64_death_is_absorbing_witness :
  List.length [[-200; 50; 50]%float] = Z.to_nat 1 /\
  nth 0 (snd (Binary64.state_at 100 0 0.05 0.05 1 [[-200; 50; 50]%float] 1
                                false 1)) true = false /\
  (1 <= 3)%nat /\
  nth 0 (fst (Binary64.state_at 100 0 0.05 0.05 1 [[-200; 50; 50]%float] 1
                                false 3)) 0%float = 0%float.
Proof.
  assert (H1 : List.length [[-200; 50; 50]%float] = Z.to_nat 1)
    by reflexivity.
  assert (H2 : nth 0 (snd (Binary64.state_at 100 0 0.05 0.05 1
                             [[-200; 50; 50]%float] 1 false 1)) true = false)
    by reflexivity.
  assert (H3 : (1 <= 3)%nat) by lia.
  refine (conj H1 (conj H2 (conj H3 _))).
  exact (proj2 (binary64_death_is_absorbing 100 0 0.05 0.05 1
                  [[-200; 50; 50]%float] 1 false 0 1 3 H1 H2 H3)).
Defined.

(** ** Where binary64 and exact numbers part

    Two inputs on which the program differs from the exact embedding in a
    result that is not a matter of rounding (a third is [one_point_apart]).  No noise is read in any of
    them, so the results are those of every runtime. *)

(** A cost fraction of 1e-17 is absorbed: [100.0 - 1e-15] is [100.0], both
    runs hold the same energy, and the rule answers YES; on exact numbers
    the energy of the YES-run is smaller and the rule answers NO. *)
Lemma absorbed_cost :
  fst (Binary64.simulate_decision (RT := Binary64.Toy.runtime)
         100 1e-17 0.5 0 0 3 0%Z) = inr (1, 1, 100, 100)%float /\
  Binary64.decision 1 1 100 100 = "YES"%string /\
  exists q : Q * Q * Q * Q,
    fst (simulate_decision (RT := Toy.runtime) 100 (1 / 10 ^ 17) 0.5 0 0 3
                           0%Z) = inr q /\
    decision (survival_yes q) (survival_no q) (avg_yes q) (avg_no q)
      = "NO"%string.
Proof.
  split; [vm_compute; reflexivity |]. split; [reflexivity |].
  eexists. split; vm_compute; reflexivity.
Qed.

(** With [benefit_frac = -18] the factor of the YES-run is [0.05]: the
    energy underflows to [0.0] within 300 passes and the scenario is dead,
    where the exact energy [80 * 0.05^300] is positive. *)
Lemma underflow_kills :
  fst (Binary64.run_scenarios 100 (100 * 0.2) 0.05
         (Binary64.py_max 0 (0.05 * (1 - -18))) (0.1 * 100 * 0)
         [[]] 1 300 true) = 0%float /\
  fst (run_scenarios 100 (100 * 0.2) 0.05 (py_max 0 (0.05 * (1 - -18)))
         (0.1 * 100 * 0) [[]] 1 300 true) == 1.
Proof.
  split; vm_compute; reflexivity.
Qed.

(** * The interactive shells *)

Section ShellFacts.

Context `{RT : Runtime} `{BI : Builtins}.

Ltac shell_step :=
  unfold sh_bind, sh_ret, input, print, sleep, emit;
  cbn [stdin stdout rng fst snd].

(** ** The passes, by the lines they find *)

Lemma read_parameters_reading (p1 p2 p3 p4 : string) (w : world) :
  read_parameters p1 p2 p3 p4 w =
  let '(r, n, rest) := parameters_reading (stdin w) in
  (r, {| stdin := rest;
         stdout := stdout w ++ map Prompted (firstn n [p1; p2; p3; p4]);
         rng := rng w |}).
Proof.
  destruct w as [l out s]. cbn [stdin stdout rng].
  unfold read_parameters, parameters_reading.
  destruct l as [| a1 l1]; [reflexivity |].
  shell_step. destruct (py_float a1) as [c |]; [| reflexivity].
  destruct l1 as [| a2 l2];
    [shell_step; now rewrite <- !app_assoc |].
  shell_step. destruct (py_float a2) as [b |];
    [| shell_step; now rewrite <- !app_assoc].
  destruct l2 as [| a3 l3];
    [shell_step; now rewrite <- !app_assoc |].
  shell_step. destruct (py_float a3) as [r |];
    [| shell_step; now rewrite <- !app_assoc].
  destruct l3 as [| a4 l4];
    [shell_step; now rewrite <- !app_assoc |].
  shell_step. destruct (py_int a4) as [h |];
    shell_step; now rewrite <- !app_assoc.
Qed.

(** The block leaves a suffix of the lines, and a proper one unless the
    input ends. *)
Lemma parameters_reading_suffix (lines : list string) :
  let '(r, n, rest) := parameters_reading lines in
  exists pre : list string,
    lines = pre ++ rest /\
    (forall x, r = inr x -> pre <> []).
Proof.
  unfold parameters_reading.
  destruct lines as [| a1 l1]; [exists []; split; [reflexivity | discriminate] |].
  destruct (py_float a1);
    [| exists [a1]; split; [reflexivity | discriminate]].
  destruct l1 as [| a2 l2];
    [exists [a1]; split; [reflexivity | discriminate] |].
  destruct (py_float a2);
    [| exists [a1; a2]; split; [reflexivity | discriminate]].
  destruct l2 as [| a3 l3];
    [exists [a1; a2]; split; [reflexivity | discriminate] |].
  destruct (py_float a3);
    [| exists [a1; a2; a3]; split; [reflexivity | discriminate]].
  destruct l3 as [| a4 l4];
    [exists [a1; a2; a3]; split; [reflexivity | discriminate] |].
  exists [a1; a2; a3; a4]; split; [reflexivity | discriminate].
Qed.

(** The engine forgets the generator it is called with. *)
Lemma engine_forgets_state (initial_energy cost_frac benefit_frac risk_frac : Q)
                           (horizon : Z) (s1 s2 : rng_state) :
  simulate_decision_default initial_energy cost_frac benefit_frac risk_frac
                            horizon s1 =
  simulate_decision_default initial_energy cost_frac benefit_frac risk_frac
                            horizon s2.
Proof.
  unfold simulate_decision_default. now rewrite !simulate_decision_unfold.
Qed.

Lemma gut_pass_reading (w : world) :
  gut_pass w =
  match stdin w with
  | [] => (inl EOFError, emit (Prompted gut_ask_query) w)
  | query :: l1 =>
      let out1 := stdout w ++ [Prompted gut_ask_query] in
      if is_exit_command query then
        (inr Break,
         {| stdin := l1; stdout := out1 ++ [Printed "Goodbye!"%string];
            rng := rng w |})
      else
        let '(r, n, rest) := parameters_reading l1 in
        let out2 :=
          out1 ++ map Prompted
                      (firstn n [gut_ask_cost; gut_ask_benefit; gut_ask_risk;
                                 gut_ask_horizon]) in
        match r with
        | inl e => (inl e, {| stdin := rest; stdout := out2; rng := rng w |})
        | inr None =>
            (inr Continue,
             {| stdin := rest; stdout := out2 ++ [Printed gut_invalid];
                rng := rng w |})
        | inr (Some (cost_frac, benefit_frac, risk_frac, horizon)) =>
            match simulate_decision_default 100 cost_frac benefit_frac
                                            risk_frac horizon (rng w) with
            | (inl e, s') =>
                (inl (EngineError e),
                 {| stdin := rest; stdout := out2; rng := s' |})
            | (inr q, s') =>
                (inr Continue,
                 {| stdin := rest;
                    stdout := out2 ++
                      [Printed ("Gut Decision: "
                                ++ decision (survival_yes q) (survival_no q)
                                            (avg_yes q) (avg_no q))];
                    rng := s' |})
            end
        end
  end.
Proof.
  destruct w as [l out s]. cbn [stdin stdout rng].
  unfold gut_pass.
  destruct l as [| query l1]; [reflexivity |].
  shell_step. destruct (is_exit_command query); [reflexivity |].
  rewrite read_parameters_reading. cbn [stdin stdout rng].
  destruct (parameters_reading l1) as [[r n] rest].
  destruct r as [e | [[[[c b] rk] h] |]]; try reflexivity.
  unfold call_engine. cbn [stdin stdout rng].
  destruct (simulate_decision_default 100 c b rk h s)
    as [[e | [[[sy sn] ay] an]] s']; reflexivity.
Qed.

Lemma oracle_pass_reading (w : world) :
  oracle_pass w =
  match stdin w with
  | [] => (inl EOFError, emit (Prompted oracle_ask_query) w)
  | query :: l1 =>
      let out1 := stdout w ++ [Prompted oracle_ask_query] in
      if is_exit_command query then
        (inr Break,
         {| stdin := l1; stdout := out1 ++ oracle_farewell; rng := rng w |})
      else
        let '(r, n, rest) := parameters_reading l1 in
        let out2 :=
          (out1 ++ oracle_opening query)
          ++ map Prompted
                 (firstn n [oracle_ask_cost; oracle_ask_benefit;
                            oracle_ask_risk; oracle_ask_horizon]) in
        match r with
        | inl e => (inl e, {| stdin := rest; stdout := out2; rng := rng w |})
        | inr None =>
            (inr Continue,
             {| stdin := rest; stdout := out2 ++ [Printed oracle_invalid];
                rng := rng w |})
        | inr (Some (cost_frac, benefit_frac, risk_frac, horizon)) =>
            match simulate_decision_default 100 cost_frac benefit_frac
                                            risk_frac horizon (rng w) with
            | (inl e, s') =>
                (inl (EngineError e),
                 {| stdin := rest; stdout := out2 ++ oracle_peering;
                    rng := s' |})
            | (inr q, s') =>
                (inr Continue,
                 {| stdin := rest;
                    stdout := (out2 ++ oracle_peering) ++ oracle_report q;
                    rng := s' |})
            end
        end
  end.
Proof.
  destruct w as [l out s]. cbn [stdin stdout rng].
  unfold oracle_pass.
  destruct l as [| query l1]; [reflexivity |].
  shell_step. destruct (is_exit_command query).
  { unfold oracle_farewell. shell_step. now rewrite <- !app_assoc. }
  shell_step.
  rewrite read_parameters_reading. cbn [stdin stdout rng].
  destruct (parameters_reading l1) as [[r n] rest].
  unfold oracle_opening.
  destruct r as [e | [[[[c b] rk] h] |]].
  - now rewrite <- !app_assoc.
  - shell_step. unfold call_engine. cbn [stdin stdout rng].
    destruct (simulate_decision_default 100 c b rk h s)
      as [[e | [[[sy sn] ay] an]] s'].
    + unfold oracle_peering. now rewrite <- !app_assoc.
    + unfold oracle_peering, oracle_report, survival_yes, survival_no,
        avg_yes, avg_no. shell_step.
      now rewrite <- !app_assoc.
  - shell_step. now rewrite <- !app_assoc.
Qed.

(** A pass that goes on has read a question that is no exit command, and
    leaves a proper suffix of the lines; a pass that breaks has read an exit
    command and nothing else. *)
Lemma gut_pass_lines (w : world) :
  match gut_pass w with
  | (inr Continue, w') =>
      exists q pre, stdin w = q :: pre ++ stdin w' /\
                    is_exit_command q = false
  | (inr Break, w') =>
      exists q, stdin w = q :: stdin w' /\ is_exit_command q = true
  | (inl _, _) => True
  end.
Proof.
  rewrite gut_pass_reading.
  destruct (stdin w) as [| q l1]; [exact I |].
  cbv zeta. destruct (is_exit_command q) eqn:Hq.
  { now exists q. }
  pose proof (parameters_reading_suffix l1) as Hsuf.
  destruct (parameters_reading l1) as [[r n] rest].
  destruct Hsuf as (pre & -> & _).
  destruct r as [e | [[[[c b] rk] h] |]]; [exact I | |].
  - destruct (simulate_decision_default 100 c b rk h (rng w))
      as [[e | res] s']; [exact I |].
    now exists q, pre.
  - now exists q, pre.
Qed.

Lemma oracle_pass_lines (w : world) :
  match oracle_pass w with
  | (inr Continue, w') =>
      exists q pre, stdin w = q :: pre ++ stdin w' /\
                    is_exit_command q = false
  | (inr Break, w') =>
      exists q, stdin w = q :: stdin w' /\ is_exit_command q = true
  | (inl _, _) => True
  end.
Proof.
  rewrite oracle_pass_reading.
  destruct (stdin w) as [| q l1]; [exact I |].
  cbv zeta. destruct (is_exit_command q) eqn:Hq.
  { now exists q. }
  pose proof (parameters_reading_suffix l1) as Hsuf.
  destruct (parameters_reading l1) as [[r n] rest].
  destruct Hsuf as (pre & -> & _).
  destruct r as [e | [[[[c b] rk] h] |]]; [exact I | |].
  - destruct (simulate_decision_default 100 c b rk h (rng w))
      as [[e | res] s']; [exact I |].
    now exists q, pre.
  - now exists q, pre.
Qed.

(** ** The loop *)

Section Loop.

Variable pass : SH loop_exit.

Hypothesis pass_lines : forall w : world,
  match pass w with
  | (inr Continue, w') =>
      exists q pre, stdin w = q :: pre ++ stdin w' /\
                    is_exit_command q = false
  | (inr Break, w') =>
      exists q, stdin w = q :: stdin w' /\ is_exit_command q = true
  | (inl _, _) => True
  end.

(** With more fuel than lines the loop ends by itself, and more fuel
    changes nothing. *)
Lemma while_true_enough_fuel (fuel : nat) :
  forall w : world,
    (List.length (stdin w) < fuel)%nat ->
    fst (while_true pass fuel w) <> OutOfFuel /\
    forall fuel', (fuel <= fuel')%nat ->
                  while_true pass fuel' w = while_true pass fuel w.
Proof.
  induction fuel as [| fuel IH]; intros w Hlen; [lia |].
  specialize (pass_lines w).
  split.
  - cbn [while_true].
    destruct (pass w) as [[e | [|]] w']; try discriminate.
    destruct pass_lines as (q & pre & Hl & _).
    apply IH. rewrite Hl in Hlen. cbn in Hlen. rewrite length_app in Hlen.
    lia.
  - intros [| fuel'] Hle; [lia |]. cbn [while_true].
    destruct (pass w) as [[e | [|]] w']; try reflexivity.
    destruct pass_lines as (q & pre & Hl & _).
    apply IH; [| lia].
    rewrite Hl in Hlen. cbn in Hlen. rewrite length_app in Hlen. lia.
Qed.

(** A loop that breaks has read an exit command: the last line it took. *)
Lemma while_true_finished (fuel : nat) :
  forall w w' : world,
    while_true pass fuel w = (Finished, w') ->
    exists pre q,
      stdin w = pre ++ q :: stdin w' /\ is_exit_command q = true.
Proof.
  induction fuel as [| fuel IH]; intros w w' Hrun; [discriminate |].
  cbn [while_true] in Hrun. specialize (pass_lines w).
  destruct (pass w) as [[e | [|]] w1]; [discriminate | |].
  - destruct pass_lines as (q & pre & Hl & _).
    destruct (IH _ _ Hrun) as (pre' & q' & Hl' & Hq').
    exists (q :: pre ++ pre'), q'. split; [| exact Hq'].
    rewrite Hl, Hl'. cbn. now rewrite <- app_assoc.
  - injection Hrun as <-.
    destruct pass_lines as (q & Hl & Hq).
    now exists [], q.
Qed.

End Loop.

(** ** The sessions *)

Lemma play_game_loop (fuel : nat) (w : world) :
  play_game fuel w =
  while_true oracle_pass fuel
    {| stdin := stdin w; stdout := stdout w ++ oracle_prologue;
       rng := rng w |}.
Proof.
  unfold play_game, oracle_intro, oracle_prologue. shell_step.
  now rewrite <- !app_assoc.
Qed.

Lemma sessions_end_aux (lines : list string) (s : rng_state) :
  fst (session gut_main lines s) <> OutOfFuel /\
  fst (session play_game lines s) <> OutOfFuel.
Proof.
  unfold session. split.
  - unfold gut_main.
    apply (while_true_enough_fuel gut_pass gut_pass_lines). cbn. lia.
  - rewrite play_game_loop.
    apply (while_true_enough_fuel oracle_pass oracle_pass_lines). cbn. lia.
Qed.

(** X8.  Both shells end on every finite input.  The loop [while True] of
    [first_gut.py] and of [play_game] makes at most one pass more than there
    are input lines: it ends by [break] or by an exception that is not
    caught, and never runs on.  (In the model: any fuel above the number of
    lines gives the same session, and that session does not run out of
    fuel.) *)
Theorem sessions_end (lines : list string) (s : rng_state) (fuel : nat) :
  (List.length lines < fuel)%nat ->
  (gut_main fuel {| stdin := lines; stdout := []; rng := s |}
   = session gut_main lines s /\
   fst (session gut_main lines s) <> OutOfFuel) /\
  (play_game fuel {| stdin := lines; stdout := []; rng := s |}
   = session play_game lines s /\
   fst (session play_game lines s) <> OutOfFuel).
Proof.
  intro Hfuel. unfold session. split.
  - unfold gut_main.
    destruct (while_true_enough_fuel gut_pass gut_pass_lines
                (S (List.length lines))
                (emit (Printed gut_welcome)
                      {| stdin := lines; stdout := []; rng := s |}))
      as [Hend Hsame]; [cbn; lia |].
    split; [apply Hsame; lia | exact Hend].
  - rewrite !play_game_loop.
    destruct (while_true_enough_fuel oracle_pass oracle_pass_lines
                (S (List.length lines))
                {| stdin := lines; stdout := [] ++ oracle_prologue;
                   rng := s |})
      as [Hend Hsame]; [cbn; lia |].
    split; [apply Hsame; lia | exact Hend].
Qed.

(** X9.  A session ends normally only on an exit command.  If a session of
    either shell finishes (its loop breaks), the last line it read is an exit
    command: [strip] and [lower] turn it into [quit] or [exit].  So a session
    on lines none of which is an exit command ends by an exception that is
    not caught. *)
Theorem normal_end_needs_exit_command (lines : list string) (s : rng_state) :
  (forall w' : world,
      session gut_main lines s = (Finished, w') \/
      session play_game lines s = (Finished, w') ->
      exists pre q,
        lines = pre ++ q :: stdin w' /\ is_exit_command q = true) /\
  ((forall q, In q lines -> is_exit_command q = false) ->
   (exists e w', session gut_main lines s = (Uncaught e, w')) /\
   (exists e w', session play_game lines s = (Uncaught e, w'))).
Proof.
  assert (Hfin : forall w' : world,
    session gut_main lines s = (Finished, w') \/
    session play_game lines s = (Finished, w') ->
    exists pre q,
      lines = pre ++ q :: stdin w' /\ is_exit_command q = true).
  { intros w' [Hrun | Hrun].
    - unfold session, gut_main in Hrun.
      apply (while_true_finished gut_pass gut_pass_lines) in Hrun.
      exact Hrun.
    - unfold session in Hrun. rewrite play_game_loop in Hrun.
      apply (while_true_finished oracle_pass oracle_pass_lines) in Hrun.
      exact Hrun. }
  split; [exact Hfin |].
  intro Hnone.
  assert (Hno : forall w', ~ (exists pre q,
            lines = pre ++ q :: stdin w' /\ is_exit_command q = true)).
  { intros w' (pre & q & Hl & Hq).
    rewrite (Hnone q) in Hq; [discriminate |].
    rewrite Hl. apply in_or_app. right. now left. }
  destruct (sessions_end_aux lines s) as [Hg Ho].
  split.
  - destruct (session gut_main lines s) as [[| e |] w'] eqn:Hrun.
    + exfalso. apply (Hno w'), Hfin. now left.
    + now exists e, w'.
    + now contradiction Hg.
  - destruct (session play_game lines s) as [[| e |] w'] eqn:Hrun.
    + exfalso. apply (Hno w'), Hfin. now right.
    + now exists e, w'.
    + now contradiction Ho.
Qed.

(** ** One round of questions *)

(** X10.  An answer that does not convert ends the round at once: in
    [first_gut.py], after a question that is no exit command, if the first
    of the four answers that [float] or [int] refuses is the [k]-th, the [try]
    block shows the first [k] prompts only, the shell prints its
    invalid-input message, the engine is not called (the generator is
    untouched), and the loop goes on with the line after that answer as the
    next question. *)
Theorem unconverted_answer_ends_the_round
        (fuel : nat) (query a1 a2 a3 a4 : string) (rest : list string)
        (out : list event) (s : rng_state) (c b r : Q) :
  is_exit_command query = false ->
  (py_float a1 = None ->
   while_true gut_pass (S fuel)
     {| stdin := query :: a1 :: rest; stdout := out; rng := s |}
   = while_true gut_pass fuel
       {| stdin := rest;
          stdout := out ++ [Prompted gut_ask_query; Prompted gut_ask_cost;
                            Printed gut_invalid];
          rng := s |}) /\
  (py_float a1 = Some c -> py_float a2 = None ->
   while_true gut_pass (S fuel)
     {| stdin := query :: a1 :: a2 :: rest; stdout := out; rng := s |}
   = while_true gut_pass fuel
       {| stdin := rest;
          stdout := out ++ [Prompted gut_ask_query; Prompted gut_ask_cost;
                            Prompted gut_ask_benefit; Printed gut_invalid];
          rng := s |}) /\
  (py_float a1 = Some c -> py_float a2 = Some b -> py_float a3 = None ->
   while_true gut_pass (S fuel)
     {| stdin := query :: a1 :: a2 :: a3 :: rest; stdout := out; rng := s |}
   = while_true gut_pass fuel
       {| stdin := rest;
          stdout := out ++ [Prompted gut_ask_query; Prompted gut_ask_cost;
                            Prompted gut_ask_benefit; Prompted gut_ask_risk;
                            Printed gut_invalid];
          rng := s |}) /\
  (py_float a1 = Some c -> py_float a2 = Some b -> py_float a3 = Some r ->
   py_int a4 = None ->
   while_true gut_pass (S fuel)
     {| stdin := query :: a1 :: a2 :: a3 :: a4 :: rest; stdout := out;
        rng := s |}
   = while_true gut_pass fuel
       {| stdin := rest;
          stdout := out ++ [Prompted gut_ask_query; Prompted gut_ask_cost;
                            Prompted gut_ask_benefit; Prompted gut_ask_risk;
                            Prompted gut_ask_horizon; Printed gut_invalid];
          rng := s |}).
Proof.
  intro Hq.
  repeat split; intros;
    cbn [while_true]; rewrite gut_pass_reading; cbn [stdin stdout rng];
    rewrite Hq; unfold parameters_reading;
    repeat match goal with
      | H : py_float _ = _ |- _ => rewrite H; clear H
      | H : py_int _ = _ |- _ => rewrite H; clear H
      end;
    cbn [option_map firstn map]; now rewrite <- !app_assoc.
Qed.

(** The engine raises on a negative dimension or scale. *)
Lemma engine_raises (initial_energy cost_frac benefit_frac risk_frac : Q)
                    (horizon scenarios : Z) (s : rng_state) :
  0.1 * initial_energy * risk_frac < 0 \/ (horizon < 0)%Z \/
  (scenarios < 0)%Z ->
  simulate_decision initial_energy cost_frac benefit_frac risk_frac
                    horizon scenarios s =
  (inl ValueError,
   rng_of_seed (seed_of initial_energy cost_frac benefit_frac risk_frac
                        horizon)).
Proof.
  intro Hbad. rewrite simulate_decision_unfold.
  unfold drawn_matrix, np_random_normal. cbn [fst snd].
  destruct (Qlt_bool (0.1 * initial_energy * risk_frac) 0) eqn:Hstd;
    [reflexivity |].
  apply Qlt_bool_false in Hstd.
  destruct Hbad as [Hneg | Hdim]; [lra |].
  assert (Hb : ((scenarios <? 0) || (horizon <? 0))%Z = true).
  { apply orb_true_iff. destruct Hdim as [Hh | Hn];
      [right | left]; now apply Z.ltb_lt. }
  now rewrite Hb.
Qed.

(** X11.  A negative horizon or a negative risk ends the session: the call
    of the engine is outside the [try] block, so when the four answers
    convert and [horizon < 0] or [risk_frac < 0], the [ValueError] of the
    engine is not caught.  Both shells stop there, with the lines after the
    fourth answer unread, no recommendation printed, and the generator in
    the state of the seed. *)
Theorem negative_answer_ends_the_session
        (fuel : nat) (query a1 a2 a3 a4 : string) (rest : list string)
        (out : list event) (s : rng_state) (c b r : Q) (h : Z) :
  is_exit_command query = false ->
  py_float a1 = Some c -> py_float a2 = Some b -> py_float a3 = Some r ->
  py_int a4 = Some h ->
  (h < 0)%Z \/ r < 0 ->
  while_true gut_pass (S fuel)
    {| stdin := query :: a1 :: a2 :: a3 :: a4 :: rest; stdout := out;
       rng := s |}
  = (Uncaught (EngineError ValueError),
     {| stdin := rest;
        stdout := out ++ [Prompted gut_ask_query; Prompted gut_ask_cost;
                          Prompted gut_ask_benefit; Prompted gut_ask_risk;
                          Prompted gut_ask_horizon];
        rng := rng_of_seed (seed_of 100 c b r h) |}) /\
  while_true oracle_pass (S fuel)
    {| stdin := query :: a1 :: a2 :: a3 :: a4 :: rest; stdout := out;
       rng := s |}
  = (Uncaught (EngineError ValueError),
     {| stdin := rest;
        stdout := out ++ [Prompted oracle_ask_query] ++ oracle_opening query
                  ++ [Prompted oracle_ask_cost; Prompted oracle_ask_benefit;
                      Prompted oracle_ask_risk; Prompted oracle_ask_horizon]
                  ++ oracle_peering;
        rng := rng_of_seed (seed_of 100 c b r h) |}).
Proof.
  intros Hq H1 H2 H3 H4 Hneg.
  assert (Hraise : simulate_decision_default 100 c b r h s =
                   (inl ValueError, rng_of_seed (seed_of 100 c b r h))).
  { unfold simulate_decision_default. apply engine_raises.
    destruct Hneg as [Hh | Hr]; [right; now left | left; lra]. }
  split.
  - cbn [while_true]. rewrite gut_pass_reading. cbn [stdin stdout rng].
    rewrite Hq. unfold parameters_reading. rewrite H1, H2, H3, H4.
    cbn [option_map firstn map]. rewrite Hraise.
    now rewrite <- !app_assoc.
  - cbn [while_true]. rewrite oracle_pass_reading. cbn [stdin stdout rng].
    rewrite Hq. unfold parameters_reading. rewrite H1, H2, H3, H4.
    cbn [option_map firstn map]. rewrite Hraise.
    now rewrite <- !app_assoc.
Qed.

(** X12.  A round with four converted answers, [risk_frac >= 0] and
    [horizon >= 0] always yields a recommendation: the engine, called with
    the energy 100.0 and the default 1000 scenarios, returns and leaves the
    generator [1000 * horizon] draws after the seed of the four answers; the
    shell of [first_gut.py] prints one line, [Gut Decision: YES] or
    [Gut Decision: NO], and the loop goes on with the line after the fourth
    answer. *)
Theorem valid_round_prints_a_decision
        (fuel : nat) (query a1 a2 a3 a4 : string) (rest : list string)
        (out : list event) (s : rng_state) (c b r : Q) (h : Z) :
  is_exit_command query = false ->
  py_float a1 = Some c -> py_float a2 = Some b -> py_float a3 = Some r ->
  py_int a4 = Some h ->
  (0 <= h)%Z -> 0 <= r ->
  exists d : string,
    (d = "YES"%string \/ d = "NO"%string) /\
    while_true gut_pass (S fuel)
      {| stdin := query :: a1 :: a2 :: a3 :: a4 :: rest; stdout := out;
         rng := s |}
    = while_true gut_pass fuel
        {| stdin := rest;
           stdout := out ++ [Prompted gut_ask_query; Prompted gut_ask_cost;
                             Prompted gut_ask_benefit; Prompted gut_ask_risk;
                             Prompted gut_ask_horizon;
                             Printed ("Gut Decision: " ++ d)];
           rng := rng_after (Z.to_nat 1000 * Z.to_nat h)
                            (rng_of_seed (seed_of 100 c b r h)) |}.
Proof.
  intros Hq H1 H2 H3 H4 Hh Hr.
  destruct (simulate_decision_returns 100 c b r h 1000 s)
    as (M & s' & HM & _ & Hcall); [lra | assumption | lia |].
  assert (Hs' : s' = rng_after (Z.to_nat 1000 * Z.to_nat h)
                       (rng_of_seed (seed_of 100 c b r h))).
  { revert HM. unfold drawn_matrix. apply np_random_normal_state. }
  set (q := results_of 100 c b r h 1000 M) in *.
  exists (decision (survival_yes q) (survival_no q) (avg_yes q) (avg_no q)).
  split.
  - unfold decision.
    destruct (Qlt_bool _ _); [now left |].
    destruct (Qlt_bool _ _); [now right |].
    destruct (Qle_bool _ _); [now left | now right].
  - cbn [while_true]. rewrite gut_pass_reading. cbn [stdin stdout rng].
    rewrite Hq. unfold parameters_reading. rewrite H1, H2, H3, H4.
    cbn [option_map firstn map].
    unfold simulate_decision_default. rewrite Hcall, Hs'.
    now rewrite <- !app_assoc.
Qed.

(** ** Two sessions side by side *)

(** Two loops whose passes keep a relation between their worlds, and end
    alike, end alike. *)
Lemma while_true_related (pass1 pass2 : SH loop_exit)
                         (R : world -> world -> Prop) :
  (forall w1 w2, R w1 w2 ->
     fst (pass1 w1) = fst (pass2 w2) /\ R (snd (pass1 w1)) (snd (pass2 w2))) ->
  forall (fuel : nat) (w1 w2 : world),
    R w1 w2 ->
    fst (while_true pass1 fuel w1) = fst (while_true pass2 fuel w2) /\
    R (snd (while_true pass1 fuel w1)) (snd (while_true pass2 fuel w2)).
Proof.
  intro Hpass. induction fuel as [| fuel IH]; intros w1 w2 HR.
  - now split.
  - cbn [while_true]. destruct (Hpass w1 w2 HR) as [Hr HR'].
    destruct (pass1 w1) as [r1 w1'], (pass2 w2) as [r2 w2'].
    cbn [fst snd] in Hr, HR'. subst r2.
    destruct r1 as [e | [|]]; [now split | | now split].
    now apply IH.
Qed.

(** X13.  What was asked before does not change an answer.  A session of
    either shell reads the same lines, ends the same way and writes the same
    events, recommendations included, whatever the state of the generator
    when it starts: every call of the engine reseeds it from its own
    parameters. *)
Theorem session_forgets_the_generator (lines : list string)
                                      (s1 s2 : rng_state) :
  (fst (session gut_main lines s1) = fst (session gut_main lines s2) /\
   stdin (snd (session gut_main lines s1))
     = stdin (snd (session gut_main lines s2)) /\
   stdout (snd (session gut_main lines s1))
     = stdout (snd (session gut_main lines s2))) /\
  (fst (session play_game lines s1) = fst (session play_game lines s2) /\
   stdin (snd (session play_game lines s1))
     = stdin (snd (session play_game lines s2)) /\
   stdout (snd (session play_game lines s1))
     = stdout (snd (session play_game lines s2))).
Proof.
  set (R := fun w1 w2 : world =>
              stdin w1 = stdin w2 /\ stdout w1 = stdout w2).
  assert (Hgut : forall w1 w2, R w1 w2 ->
    fst (gut_pass w1) = fst (gut_pass w2) /\
    R (snd (gut_pass w1)) (snd (gut_pass w2))).
  { intros [l out t1] [l2 out2 t2] [Hl Hout]. cbn in Hl, Hout. subst l2 out2.
    rewrite !gut_pass_reading. cbn [stdin stdout rng].
    destruct l as [| q l1]; [now repeat split |].
    cbv zeta. destruct (is_exit_command q); [now repeat split |].
    destruct (parameters_reading l1) as [[r n] rest].
    destruct r as [e | [[[[c b] rk] h] |]]; try now repeat split.
    rewrite (engine_forgets_state 100 c b rk h t1 t2).
    destruct (simulate_decision_default 100 c b rk h t2) as [[e | q'] s'];
      now repeat split. }
  assert (Horacle : forall w1 w2, R w1 w2 ->
    fst (oracle_pass w1) = fst (oracle_pass w2) /\
    R (snd (oracle_pass w1)) (snd (oracle_pass w2))).
  { intros [l out t1] [l2 out2 t2] [Hl Hout]. cbn in Hl, Hout. subst l2 out2.
    rewrite !oracle_pass_reading. cbn [stdin stdout rng].
    destruct l as [| q l1]; [now repeat split |].
    cbv zeta. destruct (is_exit_command q); [now repeat split |].
    destruct (parameters_reading l1) as [[r n] rest].
    destruct r as [e | [[[[c b] rk] h] |]]; try now repeat split.
    rewrite (engine_forgets_state 100 c b rk h t1 t2).
    destruct (simulate_decision_default 100 c b rk h t2) as [[e | q'] s'];
      now repeat split. }
  split.
  - unfold session, gut_main.
    destruct (while_true_related gut_pass gut_pass R Hgut
                (S (List.length lines))
                (emit (Printed gut_welcome)
                      {| stdin := lines; stdout := []; rng := s1 |})
                (emit (Printed gut_welcome)
                      {| stdin := lines; stdout := []; rng := s2 |}))
      as (He & Hl & Ho); [now split |].
    now repeat split.
  - unfold session. rewrite !play_game_loop.
    destruct (while_true_related oracle_pass oracle_pass R Horacle
                (S (List.length lines))
                {| stdin := lines; stdout := [] ++ oracle_prologue;
                   rng := s1 |}
                {| stdin := lines; stdout := [] ++ oracle_prologue;
                   rng := s2 |})
      as (He & Hl & Ho); [now split |].
    now repeat split.
Qed.

Lemma verdicts_app (lead : string) (out out' : list event) :
  verdicts lead (out ++ out') = verdicts lead out ++ verdicts lead out'.
Proof. apply flat_map_app. Qed.

Lemma verdicts_prompts (lead : string) (prompts : list string) :
  verdicts lead (map Prompted prompts) = [].
Proof. induction prompts as [| p l IH]; [reflexivity | exact IH]. Qed.

(** X14.  The two shells agree.  On the same input lines and the same
    generator, the session of [first_gut.py] and the session of [play_game]
    end the same way, leave the same lines unread and the same generator,
    and announce the same recommendations in the same order: the texts after
    [Gut Decision: ] in the one are, with a newline added, the texts after
    [The ritual indicates you should choose: ] in the other, and each is YES
    or NO. *)
Theorem shells_agree (lines : list string) (s : rng_state) :
  let gut := session gut_main lines s in
  let oracle := session play_game lines s in
  fst gut = fst oracle /\
  stdin (snd gut) = stdin (snd oracle) /\
  rng (snd gut) = rng (snd oracle) /\
  verdicts "The ritual indicates you should choose: " (stdout (snd oracle))
  = map (fun d => d ++ nl)%string
        (verdicts "Gut Decision: " (stdout (snd gut))) /\
  Forall (fun d => d = "YES" \/ d = "NO")%string
         (verdicts "Gut Decision: " (stdout (snd gut))).
Proof.
  set (GL := "Gut Decision: "%string).
  set (OL := "The ritual indicates you should choose: "%string).
  set (R := fun wg wo : world =>
              stdin wg = stdin wo /\ rng wg = rng wo /\
              verdicts OL (stdout wo)
              = map (fun d => d ++ nl)%string (verdicts GL (stdout wg)) /\
              Forall (fun d => d = "YES" \/ d = "NO")%string
                     (verdicts GL (stdout wg))).
  assert (Hpass : forall wg wo, R wg wo ->
    fst (gut_pass wg) = fst (oracle_pass wo) /\
    R (snd (gut_pass wg)) (snd (oracle_pass wo))).
  { intros [l outg t] [l2 outo t2] (Hl & Ht & Hv & Hyn).
    cbn [stdin stdout rng] in Hl, Ht, Hv, Hyn. subst l2 t2.
    rewrite gut_pass_reading, oracle_pass_reading. cbn [stdin stdout rng].
    unfold R. cbn [stdin stdout rng].
    destruct l as [| q l1].
    { cbn [fst snd emit stdin stdout rng].
      rewrite !verdicts_app, map_app, Hv.
      repeat split; trivial; rewrite ?app_nil_r; trivial. }
    cbv zeta. destruct (is_exit_command q).
    { cbn [fst snd stdin stdout rng].
      rewrite !verdicts_app, !map_app, Hv.
      change (verdicts OL oracle_farewell) with (@nil string).
      repeat split; trivial; cbn; rewrite ?app_nil_r; trivial. }
    destruct (parameters_reading l1) as [[r n] rest].
    destruct r as [e | [[[[c b] rk] h] |]].
    - cbn [fst snd stdin stdout rng].
      rewrite !verdicts_app, !map_app, !verdicts_prompts, Hv.
      change (verdicts OL (oracle_opening q)) with (@nil string).
      repeat split; trivial; cbn; rewrite ?app_nil_r; trivial.
    - destruct (simulate_decision_default 100 c b rk h t)
        as [[e | res] s'].
      + cbn [fst snd stdin stdout rng].
        rewrite !verdicts_app, !map_app, !verdicts_prompts, Hv.
        change (verdicts OL (oracle_opening q)) with (@nil string).
        change (verdicts OL oracle_peering) with (@nil string).
        repeat split; trivial; cbn; rewrite ?app_nil_r; trivial.
      + cbn [fst snd stdin stdout rng].
        rewrite !verdicts_app, !map_app, !verdicts_prompts, Hv.
        change (verdicts OL (oracle_opening q)) with (@nil string).
        change (verdicts OL oracle_peering) with (@nil string).
        change (verdicts OL (oracle_report res))
          with [(decision (survival_yes res) (survival_no res)
                          (avg_yes res) (avg_no res) ++ nl)%string].
        change (verdicts GL
                  [Printed (GL ++ decision (survival_yes res)
                                  (survival_no res) (avg_yes res)
                                  (avg_no res))])
          with [decision (survival_yes res) (survival_no res)
                         (avg_yes res) (avg_no res)].
        repeat split; trivial; cbn [map app]; rewrite ?app_nil_r; trivial.
        apply Forall_app. split; [exact Hyn |].
        change (Forall (fun d => d = "YES" \/ d = "NO")%string
                  [decision (survival_yes res) (survival_no res)
                            (avg_yes res) (avg_no res)]).
        constructor; [| constructor]. unfold decision.
        destruct (Qlt_bool _ _); [now left |].
        destruct (Qlt_bool _ _); [now right |].
        destruct (Qle_bool _ _); [now left | now right].
    - cbn [fst snd stdin stdout rng].
      rewrite !verdicts_app, !map_app, !verdicts_prompts, Hv.
      change (verdicts OL (oracle_opening q)) with (@nil string).
      repeat split; trivial; cbn; rewrite ?app_nil_r; trivial. }
  cbv zeta. unfold session, gut_main. rewrite play_game_loop.
  destruct (while_true_related gut_pass oracle_pass R Hpass
              (S (List.length lines))
              (emit (Printed gut_welcome)
                    {| stdin := lines; stdout := []; rng := s |})
              {| stdin := lines; stdout := [] ++ oracle_prologue;
                 rng := s |})
    as (He & Hl & Ht & Hv & Hyn).
  { unfold R. cbn. repeat split; trivial. }
  repeat split; assumption.
Qed.

End ShellFacts.

(** ** The sessions on concrete lines *)

Lemma sessions_end_witness :
  (List.length ["Should I?"; "0.2"; "x"; " Quit "]%string < 9)%nat /\
  gut_main (RT := Toy.runtime) (BI := ToyText.builtins) 9
    (ToyText.world_of ["Should I?"; "0.2"; "x"; " Quit "]%string [] 0%Z)
  = session (RT := Toy.runtime) (gut_main (BI := ToyText.builtins))
            ["Should I?"; "0.2"; "x"; " Quit "]%string 0%Z.
Proof.
  assert (H : (List.length ["Should I?"; "0.2"; "x"; " Quit "]%string < 9)%nat)
    by (simpl; lia).
  refine (conj H _).
  exact (proj1 (proj1 (sessions_end (RT := Toy.runtime)
                         (BI := ToyText.builtins)
                         ["Should I?"; "0.2"; "x"; " Quit "]%string 0%Z 9 H))).
Defined.

Lemma normal_end_needs_exit_command_witness :
  (forall q, In q ["Should I?"; "0.2"]%string ->
             is_exit_command (BI := ToyText.builtins) q = false) /\
  exists e w',
    session (RT := Toy.runtime) (gut_main (BI := ToyText.builtins))
            ["Should I?"; "0.2"]%string 0%Z = (Uncaught e, w').
Proof.
  assert (H : forall q, In q ["Should I?"; "0.2"]%string ->
                        is_exit_command (BI := ToyText.builtins) q = false).
  { intros q [<- | [<- | []]]; reflexivity. }
  refine (conj H _).
  exact (proj1 (proj2 (normal_end_needs_exit_command (RT := Toy.runtime)
                         (BI := ToyText.builtins)
                         ["Should I?"; "0.2"]%string 0%Z) H)).
Defined.

Lemma unconverted_answer_ends_the_round_witness :
  is_exit_command (BI := ToyText.builtins) "Should I?" = false /\
  py_float (Builtins := ToyText.builtins) "0.2" = Some 0.2 /\
  py_float (Builtins := ToyText.builtins) "a lot" = None /\
  while_true (RT := Toy.runtime) (gut_pass (BI := ToyText.builtins)) 3
    (ToyText.world_of ["Should I?"; "0.2"; "a lot"; "quit"]%string [] 0%Z)
  = while_true (RT := Toy.runtime) (gut_pass (BI := ToyText.builtins)) 2
      (ToyText.world_of ["quit"%string]
       ([] ++ [Prompted gut_ask_query; Prompted gut_ask_cost;
                          Prompted gut_ask_benefit; Printed gut_invalid])
       0%Z).
Proof.
  assert (H0 : is_exit_command (BI := ToyText.builtins) "Should I?" = false)
    by reflexivity.
  assert (H1 : py_float (Builtins := ToyText.builtins) "0.2" = Some 0.2)
    by reflexivity.
  assert (H2 : py_float (Builtins := ToyText.builtins) "a lot" = None)
    by reflexivity.
  refine (conj H0 (conj H1 (conj H2 _))).
  exact (proj1 (proj2 (unconverted_answer_ends_the_round
                         (RT := Toy.runtime) (BI := ToyText.builtins)
                         2 "Should I?" "0.2" "a lot" "" ""
                         ["quit"%string] [] 0%Z 0.2 0 0 H0)) H1 H2).
Defined.

Lemma negative_answer_ends_the_session_witness :
  is_exit_command (BI := ToyText.builtins) "Should I?" = false /\
  py_float (Builtins := ToyText.builtins) "0.2" = Some 0.2 /\
  py_float (Builtins := ToyText.builtins) "0.5" = Some 0.5 /\
  py_float (Builtins := ToyText.builtins) "0.1" = Some 0.1 /\
  py_int (Builtins := ToyText.builtins) "-3" = Some (-3)%Z /\
  ((-3 < 0)%Z \/ 0.1 < 0) /\
  while_true (RT := Toy.runtime) (gut_pass (BI := ToyText.builtins)) 4
    (ToyText.world_of ["Should I?"; "0.2"; "0.5"; "0.1"; "-3"; "quit"]%string [] 0%Z)
  = (Uncaught (EngineError ValueError),
     (ToyText.world_of ["quit"%string]
       ([] ++ [Prompted gut_ask_query; Prompted gut_ask_cost;
                         Prompted gut_ask_benefit; Prompted gut_ask_risk;
                         Prompted gut_ask_horizon])
       (seed_of (RT := Toy.runtime) 100 0.2 0.5 0.1 (-3)))).
Proof.
  assert (H0 : is_exit_command (BI := ToyText.builtins) "Should I?" = false)
    by reflexivity.
  assert (H1 : py_float (Builtins := ToyText.builtins) "0.2" = Some 0.2)
    by reflexivity.
  assert (H2 : py_float (Builtins := ToyText.builtins) "0.5" = Some 0.5)
    by reflexivity.
  assert (H3 : py_float (Builtins := ToyText.builtins) "0.1" = Some 0.1)
    by reflexivity.
  assert (H4 : py_int (Builtins := ToyText.builtins) "-3" = Some (-3)%Z)
    by reflexivity.
  assert (H5 : (-3 < 0)%Z \/ 0.1 < 0) by (left; lia).
  refine (conj H0 (conj H1 (conj H2 (conj H3 (conj H4 (conj H5 _)))))).
  exact (proj1 (negative_answer_ends_the_session
                  (RT := Toy.runtime) (BI := ToyText.builtins)
                  3 "Should I?" "0.2" "0.5" "0.1" "-3" ["quit"%string] []
                  0%Z 0.2 0.5 0.1 (-3) H0 H1 H2 H3 H4 H5)).
Defined.

Lemma valid_round_prints_a_decision_witness :
  is_exit_command (BI := ToyText.builtins) "Should I?" = false /\
  py_float (Builtins := ToyText.builtins) "0.2" = Some 0.2 /\
  py_float (Builtins := ToyText.builtins) "0.5" = Some 0.5 /\
  py_float (Builtins := ToyText.builtins) "0.1" = Some 0.1 /\
  py_int (Builtins := ToyText.builtins) "5" = Some 5%Z /\
  (0 <= 5)%Z /\ 0 <= 0.1 /\
  exists d : string,
    (d = "YES"%string \/ d = "NO"%string) /\
    while_true (RT := Toy.runtime) (gut_pass (BI := ToyText.builtins)) 4
      (ToyText.world_of ["Should I?"; "0.2"; "0.5"; "0.1"; "5"; "quit"]%string
                        [] 0%Z)
    = while_true (RT := Toy.runtime) (gut_pass (BI := ToyText.builtins)) 3
        (ToyText.world_of ["quit"%string]
           ([] ++ [Prompted gut_ask_query; Prompted gut_ask_cost;
                   Prompted gut_ask_benefit; Prompted gut_ask_risk;
                   Prompted gut_ask_horizon;
                   Printed ("Gut Decision: " ++ d)])
           (@rng_after Toy.runtime (Z.to_nat 1000 * Z.to_nat 5)
              (rng_of_seed (seed_of (RT := Toy.runtime) 100 0.2 0.5 0.1 5)))).
Proof.
  assert (H0 : is_exit_command (BI := ToyText.builtins) "Should I?" = false)
    by reflexivity.
  assert (H1 : py_float (Builtins := ToyText.builtins) "0.2" = Some 0.2)
    by reflexivity.
  assert (H2 : py_float (Builtins := ToyText.builtins) "0.5" = Some 0.5)
    by reflexivity.
  assert (H3 : py_float (Builtins := ToyText.builtins) "0.1" = Some 0.1)
    by reflexivity.
  assert (H4 : py_int (Builtins := ToyText.builtins) "5" = Some 5%Z)
    by reflexivity.
  assert (H5 : (0 <= 5)%Z) by lia.
  assert (H6 : 0 <= 0.1) by (unfold Qle; simpl; lia).
  refine (conj H0 (conj H1 (conj H2 (conj H3 (conj H4 (conj H5
            (conj H6 _))))))).
  exact (valid_round_prints_a_decision
           (RT := Toy.runtime) (BI := ToyText.builtins)
           3 "Should I?" "0.2" "0.5" "0.1" "5" ["quit"%string] []
           0%Z 0.2 0.5 0.1 5 H0 H1 H2 H3 H4 H5 H6).
Defined.

(** ** How a session can stop early *)

Section EarlyStop.

Context `{RT : Runtime} `{BI : Builtins}.

Lemma parameters_reading_eof (lines : list string) (e : shell_exn) (n : nat)
                             (rest : list string) :
  parameters_reading lines = (inl e, n, rest) -> e = EOFError /\ rest = [].
Proof.
  unfold parameters_reading.
  destruct lines as [| a1 l1]; [intro H; injection H as <- _ <-; now split |].
  destruct (py_float a1); [| discriminate].
  destruct l1 as [| a2 l2]; [intro H; injection H as <- _ <-; now split |].
  destruct (py_float a2); [| discriminate].
  destruct l2 as [| a3 l3]; [intro H; injection H as <- _ <-; now split |].
  destruct (py_float a3); [| discriminate].
  destruct l3 as [| a4 l4]; [intro H; injection H as <- _ <-; now split |].
  discriminate.
Qed.

Lemma parameters_reading_complete (lines : list string) (c b r : Q) (h : Z)
                                  (n : nat) (rest : list string) :
  parameters_reading lines = (inr (Some (c, b, r, h)), n, rest) ->
  exists a1 a2 a3 a4,
    lines = a1 :: a2 :: a3 :: a4 :: rest /\
    py_float a1 = Some c /\ py_float a2 = Some b /\ py_float a3 = Some r /\
    py_int a4 = Some h.
Proof.
  unfold parameters_reading.
  destruct lines as [| a1 l1]; [discriminate |].
  destruct (py_float a1) as [c' |] eqn:H1; [| discriminate].
  destruct l1 as [| a2 l2]; [discriminate |].
  destruct (py_float a2) as [b' |] eqn:H2; [| discriminate].
  destruct l2 as [| a3 l3]; [discriminate |].
  destruct (py_float a3) as [r' |] eqn:H3; [| discriminate].
  destruct l3 as [| a4 l4]; [discriminate |].
  destruct (py_int a4) as [h' |] eqn:H4; [| discriminate].
  cbn [option_map]. intro H. injection H as <- <- <- <- _ <-.
  now exists a1, a2, a3, a4.
Qed.

(** The engine of the shells raises only on a negative risk or horizon. *)
Lemma engine_raises_only_on_negative (c b r : Q) (h : Z) (s s' : rng_state)
                                     (e : exn) :
  simulate_decision_default 100 c b r h s = (inl e, s') ->
  e = ValueError /\ ((h < 0)%Z \/ r < 0).
Proof.
  intro Hcall. split; [now destruct e |].
  destruct (Z_lt_le_dec h 0) as [Hh | Hh]; [now left |].
  destruct (Qlt_le_dec r 0) as [Hr | Hr]; [now right |].
  exfalso.
  destruct (simulate_decision_returns 100 c b r h 1000 s)
    as (M & s1 & _ & _ & Hret); [lra | assumption | lia |].
  unfold simulate_decision_default in Hcall. rewrite Hret in Hcall.
  discriminate.
Qed.

Section LoopStops.

Variable pass : SH loop_exit.
Variable stops : list string -> shell_exn -> world -> Prop.

Hypothesis pass_lines : forall w : world,
  match pass w with
  | (inr Continue, w') =>
      exists q pre, stdin w = q :: pre ++ stdin w' /\
                    is_exit_command q = false
  | (inr Break, w') =>
      exists q, stdin w = q :: stdin w' /\ is_exit_command q = true
  | (inl _, _) => True
  end.

Hypothesis pass_stops : forall (w : world) (e : shell_exn) (w' : world),
  pass w = (inl e, w') -> stops (stdin w) e w'.

Lemma while_true_stops (fuel : nat) :
  forall (w : world) (e : shell_exn) (w' : world),
    while_true pass fuel w = (Uncaught e, w') ->
    exists pre l, stdin w = pre ++ l /\ stops l e w'.
Proof.
  induction fuel as [| fuel IH]; intros w e w' Hrun; [discriminate |].
  cbn [while_true] in Hrun. specialize (pass_lines w).
  destruct (pass w) as [[e1 | [|]] w1] eqn:Hpass; [| | discriminate].
  - injection Hrun as <- <-. exists [], (stdin w).
    split; [reflexivity | now apply pass_stops].
  - destruct pass_lines as (q & pre & Hl & _).
    destruct (IH _ _ _ Hrun) as (pre' & l & Hl' & Hstop).
    exists (q :: pre ++ pre'), l. split; [| exact Hstop].
    rewrite Hl, Hl'. cbn. now rewrite <- app_assoc.
Qed.

End LoopStops.

(** X15.  Why a session stops without an exit command.  When a session of
    either shell ends by an exception, it is the [EOFError] of [input] with
    no line left, or the [ValueError] of the engine, and then the last five
    lines read are a question that is no exit command and four answers that
    convert, with a negative horizon or a negative risk. *)
Theorem early_stop_is_eof_or_negative_answer
        (lines : list string) (s : rng_state) (e : shell_exn) (w' : world) :
  session gut_main lines s = (Uncaught e, w') \/
  session play_game lines s = (Uncaught e, w') ->
  (e = EOFError /\ stdin w' = []) \/
  (e = EngineError ValueError /\
   exists (pre : list string) (query a1 a2 a3 a4 : string) (c b r : Q)
          (h : Z),
     lines = pre ++ query :: a1 :: a2 :: a3 :: a4 :: stdin w' /\
     is_exit_command query = false /\
     py_float a1 = Some c /\ py_float a2 = Some b /\ py_float a3 = Some r /\
     py_int a4 = Some h /\
     ((h < 0)%Z \/ r < 0)).
Proof.
  intro Hruns.
  set (stops := fun (l : list string) (e : shell_exn) (w' : world) =>
    (e = EOFError /\ stdin w' = []) \/
    (e = EngineError ValueError /\
     exists (query a1 a2 a3 a4 : string) (c b r : Q) (h : Z),
       l = query :: a1 :: a2 :: a3 :: a4 :: stdin w' /\
       is_exit_command query = false /\
       py_float a1 = Some c /\ py_float a2 = Some b /\
       py_float a3 = Some r /\ py_int a4 = Some h /\
       ((h < 0)%Z \/ r < 0))).
  assert (Hgut : forall w e w', gut_pass w = (inl e, w') ->
                                stops (stdin w) e w').
  { intros w e0 w0. rewrite gut_pass_reading.
    destruct w as [l out t]. cbn [stdin stdout rng emit].
    destruct l as [| query l1].
    { intro H. injection H as <- <-. left. now split. }
    cbv zeta. destruct (is_exit_command query) eqn:Hq; [discriminate |].
    destruct (parameters_reading l1) as [[r n] rest] eqn:Hread.
    destruct r as [e1 | [[[[c b] rk] h] |]]; [| | discriminate].
    - intro H. injection H as <- <-.
      apply parameters_reading_eof in Hread as [-> ->]. left. now split.
    - destruct (simulate_decision_default 100 c b rk h t)
        as [[e1 | q] s'] eqn:Hcall; [| discriminate].
      intro H. injection H as <- <-.
      apply engine_raises_only_on_negative in Hcall as [-> Hneg].
      apply parameters_reading_complete in Hread
        as (a1 & a2 & a3 & a4 & -> & H1 & H2 & H3 & H4).
      right. split; [reflexivity |].
      now exists query, a1, a2, a3, a4, c, b, rk, h. }
  assert (Horacle : forall w e w', oracle_pass w = (inl e, w') ->
                                   stops (stdin w) e w').
  { intros w e0 w0. rewrite oracle_pass_reading.
    destruct w as [l out t]. cbn [stdin stdout rng emit].
    destruct l as [| query l1].
    { intro H. injection H as <- <-. left. now split. }
    cbv zeta. destruct (is_exit_command query) eqn:Hq; [discriminate |].
    destruct (parameters_reading l1) as [[r n] rest] eqn:Hread.
    destruct r as [e1 | [[[[c b] rk] h] |]]; [| | discriminate].
    - intro H. injection H as <- <-.
      apply parameters_reading_eof in Hread as [-> ->]. left. now split.
    - destruct (simulate_decision_default 100 c b rk h t)
        as [[e1 | q] s'] eqn:Hcall; [| discriminate].
      intro H. injection H as <- <-.
      apply engine_raises_only_on_negative in Hcall as [-> Hneg].
      apply parameters_reading_complete in Hread
        as (a1 & a2 & a3 & a4 & -> & H1 & H2 & H3 & H4).
      right. split; [reflexivity |].
      now exists query, a1, a2, a3, a4, c, b, rk, h. }
  assert (Hend : exists pre l, lines = pre ++ l /\ stops l e w').
  { destruct Hruns as [Hrun | Hrun].
    - unfold session, gut_main in Hrun.
      apply (while_true_stops gut_pass stops gut_pass_lines Hgut) in Hrun.
      exact Hrun.
    - unfold session in Hrun. rewrite play_game_loop in Hrun.
      apply (while_true_stops oracle_pass stops oracle_pass_lines Horacle)
        in Hrun.
      exact Hrun. }
  destruct Hend as (pre & l & Hl & [Heof | [He Hneg]]); [now left |].
  right. split; [exact He |].
  destruct Hneg as (query & a1 & a2 & a3 & a4 & c & b & r & h & Hl' & Hrest).
  exists pre, query, a1, a2, a3, a4, c, b, r, h.
  split; [now rewrite Hl, Hl' | exact Hrest].
Qed.

End EarlyStop.

Lemma early_stop_is_eof_or_negative_answer_witness :
  session (RT := Toy.runtime) (gut_main (BI := ToyText.builtins))
          ["Should I?"; "0.2"; "0.5"; "0.1"; "-3"; "quit"]%string 0%Z
  = (Uncaught (EngineError ValueError),
     snd (session (RT := Toy.runtime) (gut_main (BI := ToyText.builtins))
                  ["Should I?"; "0.2"; "0.5"; "0.1"; "-3"; "quit"]%string
                  0%Z)) /\
  ((EngineError ValueError = EOFError /\
    stdin (snd (session (RT := Toy.runtime)
                        (gut_main (BI := ToyText.builtins))
                        ["Should I?"; "0.2"; "0.5"; "0.1"; "-3"; "quit"]%string
                        0%Z)) = []) \/
   (EngineError ValueError = EngineError ValueError /\
    exists (pre : list string) (query a1 a2 a3 a4 : string) (c b r : Q)
           (h : Z),
      ["Should I?"; "0.2"; "0.5"; "0.1"; "-3"; "quit"]%string
      = pre ++ query :: a1 :: a2 :: a3 :: a4 ::
          stdin (snd (session (RT := Toy.runtime)
                              (gut_main (BI := ToyText.builtins))
                              ["Should I?"; "0.2"; "0.5"; "0.1"; "-3";
                               "quit"]%string 0%Z)) /\
      is_exit_command (BI := ToyText.builtins) query = false /\
      py_float (Builtins := ToyText.builtins) a1 = Some c /\
      py_float (Builtins := ToyText.builtins) a2 = Some b /\
      py_float (Builtins := ToyText.builtins) a3 = Some r /\
      py_int (Builtins := ToyText.builtins) a4 = Some h /\
      ((h < 0)%Z \/ r < 0))).
Proof.
  assert (H : session (RT := Toy.runtime) (gut_main (BI := ToyText.builtins))
                ["Should I?"; "0.2"; "0.5"; "0.1"; "-3"; "quit"]%string 0%Z
              = (Uncaught (EngineError ValueError),
                 snd (session (RT := Toy.runtime)
                              (gut_main (BI := ToyText.builtins))
                              ["Should I?"; "0.2"; "0.5"; "0.1"; "-3";
                               "quit"]%string 0%Z)))
    by (vm_compute; reflexivity).
  refine (conj H _).
  exact (early_stop_is_eof_or_negative_answer
           (RT := Toy.runtime) (BI := ToyText.builtins)
           ["Should I?"; "0.2"; "0.5"; "0.1"; "-3"; "quit"]%string 0%Z
           _ _ (or_introl H)).
Defined.
